(** * DronePilot: terrain height field, flight clamps and projectile system

    A shallow embedding of the simulation core of the DronePilot client
    (wwwroot/js/Variables.js, Terrain.js, DroneControls.js, Drone.js) and
    the proofs of its specification.

    Numbers.  The value of a JavaScript number is a rational, and numbers
    are modelled as [Q]: [Math.max] and [Math.min] are [Qmax] and [Qmin],
    comparisons are the decidable orders of [Q].  Clamps, comparisons and
    single expressions are stated over the exact operations of [Q].
    Where the outcome depends on how a result is rounded, the rounding is
    part of the model: a store into a [Float32Array] is [round32], and the
    cooldown timer and the projectiles of the drone are also modelled in
    double precision (module [Rounded]), every arithmetic result passing
    through the rounding [rnd], which is [round64] for the numbers of
    JavaScript.  Infinities, NaN and the subnormal range are outside the
    model.  Equality of computed quantities is [==] ([Qeq]); Leibniz
    equality is used where the code copies a value without arithmetic (a
    clamp that returns one of its arguments, a state that is left
    untouched).

    three.js.  The library is not part of the repository.  The calls the
    core makes into it are taken as parameters: the noise object
    ([ImprovedNoise]), the vertex buffer of the plane geometry, the
    components of a [THREE.Color], the local-axis translations of
    [Object3D] and the camera queries of [fire]. *)

From Stdlib Require Import QArith Qminmax Qabs Qround Qpower Lqa.
From stdpp Require Import gmap strings list.

Open Scope Q_scope.

(** ** Decidable comparisons on [Q] *)

#[global] Instance Qlt_decision (x y : Q) : Decision (x < y) :=
  match Qlt_le_dec x y with
  | left H => left H
  | right H => right (Qle_not_lt _ _ H)
  end.

#[global] Instance Qle_decision (x y : Q) : Decision (x <= y) :=
  match Qlt_le_dec y x with
  | left H => right (Qlt_not_le _ _ H)
  | right H => left H
  end.

(** ** Variables.js *)

Module ColorVariables.

Definition fireColor : Z := 0xffdd66.

Definition terrainColor_m50 : Z := 0x000033.
Definition terrainColor_m40 : Z := 0x001a66.
Definition terrainColor_m30 : Z := 0x003399.
Definition terrainColor_m20 : Z := 0x004ccf.
Definition terrainColor_m10 : Z := 0x1f75ff.
Definition terrainColor_0   : Z := 0x66ccff.
Definition terrainColor_p10 : Z := 0xeedc82.
Definition terrainColor_p20 : Z := 0xd2b48c.
Definition terrainColor_p30 : Z := 0x7cfc00.
Definition terrainColor_p40 : Z := 0x228b22.
Definition terrainColor_p50 : Z := 0x006400.
Definition terrainColor_p60 : Z := 0x8b7765.
Definition terrainColor_p70 : Z := 0xa9a9a9.
Definition terrainColor_p80 : Z := 0x808080.
Definition terrainColor_p90 : Z := 0x696969.
Definition terrainColor_p100 : Z := 0xffffff.

Definition landMetalness : Q := 0.125.
Definition landRoughness : Q := 0.875.
Definition waterMetalness : Q := 0.875.
Definition waterRoughness : Q := 0.125.

End ColorVariables.

Module DroneVariables.

Definition moveSpeed : Q := 32.0.
Definition rotateSpeed : Q := 2.
Definition heightMax : Q := 2048.

Definition basicMultiplier : Q := 2.
Definition thrustMultiplier : Q := 6.

Definition minAboveGround : Q := 4.
Definition nullPoint : Q := 0.

Definition projectileSpeed : Q := 120.
Definition projectileTTL : Q := 4.
Definition cooldown : Q := 0.
Definition cooldownTime : Q := 0.3.

End DroneVariables.

Module TerrainVariables.

Definition terrainSize : Q := 8192.
Definition terrainDetails : nat := 256.
Definition terrainBorderFactor : Q := 2.000.
Definition terrainBorderDelimiter : Q := 0.125.

Definition terrainHeight_m50 : Q := -50.
Definition terrainHeight_m40 : Q := -40.
Definition terrainHeight_m30 : Q := -30.
Definition terrainHeight_m20 : Q := -20.
Definition terrainHeight_m10 : Q := -10.
Definition terrainHeight_0   : Q := 0.
Definition terrainHeight_p10 : Q := 10.
Definition terrainHeight_p20 : Q := 20.
Definition terrainHeight_p30 : Q := 30.
Definition terrainHeight_p40 : Q := 40.
Definition terrainHeight_p50 : Q := 50.
Definition terrainHeight_p60 : Q := 60.
Definition terrainHeight_p70 : Q := 70.
Definition terrainHeight_p80 : Q := 80.
Definition terrainHeight_p90 : Q := 90.

End TerrainVariables.

Module StartPositionVariables.

Definition startPosX : Q := 0.
Definition startPosY : Q := 50.
Definition startPosZ : Q := 0.

End StartPositionVariables.

(** ** Shared data *)

(** THREE.Vector3, and the x, y, z triples of a position attribute. *)
Record Vector3 := mkVector3 { vx : Q; vy : Q; vz : Q }.

(** Component-wise numeric equality of vectors. *)
Definition veq (a b : Vector3) : Prop :=
  vx a == vx b /\ vy a == vy b /\ vz a == vz b.

(** The noise object of three.js ([ImprovedNoise]); [noise] is its only
    method. *)
Record ImprovedNoise := mkNoise { noise : Q -> Q -> Q -> Q }.

(** [new THREE.Color(hex)]: the three components of the colour a hex
    value denotes. *)
Module THREE.

Class Color := { r : Z -> Q; g : Z -> Q; b : Z -> Q }.

End THREE.

(** [for (let i = 0; i < n; i++) body(i)] over an explicit loop state. *)
Fixpoint forUpTo {St : Type} (n : nat) (body : nat -> St -> St) (s : St) : St :=
  match n with
  | O => s
  | S k => body k (forUpTo k body s)
  end.

(** ** Floating point *)

(** The integer nearest to [q], the even one of the two when [q] lies
    half way. *)
Definition nearestEven (q : Q) : Z :=
  let f := Qfloor q in
  match Qcompare (q - inject_Z f) (1 # 2) with
  | Lt => f
  | Gt => (f + 1)%Z
  | Eq => if Z.even f then f else (f + 1)%Z
  end.

(** The exponent [e] that brings a positive [a] into the range of a
    [p]-bit significand: [2 ^ (p - 1) <= a / 2 ^ e < 2 ^ p]. *)
Definition exponentOf (p : Z) (a : Q) : Z :=
  let k := (Z.log2 (Qnum a) - Z.log2 (Zpos (Qden a)))%Z in
  let k := if Qle_bool (2 ^ k) a then k else (k - 1)%Z in
  (k - (p - 1))%Z.

(** [a] rounded to a [p]-bit significand, for positive [a]. *)
Definition roundPos (p : Z) (a : Q) : Q :=
  Qred (inject_Z (nearestEven (a / 2 ^ exponentOf p a)) * 2 ^ exponentOf p a).

(** Rounding to the nearest binary floating-point number with a [p]-bit
    significand, ties to even.  The exponent is not bounded. *)
Definition roundTo (p : Z) (x : Q) : Q :=
  if Qeq_bool x 0 then 0
  else if Qlt_le_dec x 0 then - roundPos p (Qabs x)
  else roundPos p (Qabs x).

(** Double precision: the result of an arithmetic operation on numbers,
    and the value of a decimal literal. *)
Definition round64 : Q -> Q := roundTo 53.

(** Single precision: the value an element of a [Float32Array] holds
    after a store ([Math.fround]). *)
Definition round32 : Q -> Q := roundTo 24.

(** The rounding applied to the result of each arithmetic operation. *)
Class Rounding := { rnd : Q -> Q }.

(** Arithmetic without rounding, and the arithmetic of JavaScript. *)
Definition unrounded : Rounding := {| rnd := fun x => x |}.

Definition binary64 : Rounding := {| rnd := round64 |}.

(** What the proofs use of rounding to nearest with unit roundoff [u]:
    the relative error of a result is at most [u], rounding keeps the
    order, and a rounded value is not changed by rounding it again. *)
Record Faithful (R : Rounding) (u : Q) : Prop := mkFaithful {
  roundoff_nonneg : 0 <= u;
  roundoff_small : u < 1;
  rnd_near_pos : forall x, 0 <= x -> x * (1 - u) <= rnd x /\ rnd x <= x * (1 + u);
  rnd_near_neg : forall x, x <= 0 -> x * (1 + u) <= rnd x /\ rnd x <= x * (1 - u);
  rnd_mono : forall x y, x <= y -> rnd x <= rnd y;
  rnd_idem : forall x, rnd (rnd x) == rnd x
}.

(** ** Terrain.js *)

Definition getTerrainHeight (x z : Q) (n : ImprovedNoise) : Q :=
  let warpX := x + noise n (x * 0.001) (z * 0.001) 50 * 128 in
  let warpZ := z + noise n (x * 0.001) (z * 0.001) 100 * 128 in
  let h := 0 in
  let h := h + noise n (warpX * 0.002) (warpZ * 0.002) 0 * 100 in
  let h := h + noise n (warpX * 0.01) (warpZ * 0.01) 0 * 25 in
  let h := h + noise n (warpX * 0.05) (warpZ * 0.05) 0 * 5 in
  h.

Module Terrain.

Import ColorVariables TerrainVariables.

(** "Height normalization": the value the constructor writes with
    [pos.setY]. *)
Definition fixedHeight (h : Q) : Q :=
  let fixedHeight := h in
  let fixedHeight :=
    if bool_decide (-1 < h) && bool_decide (h < 0) then -1 else fixedHeight in
  let fixedHeight :=
    if bool_decide (0 <= h) && bool_decide (h < 1) then 1 else fixedHeight in
  fixedHeight.

(** "Height-based color selection": the if / else-if chain on [h]. *)
Definition hex (h : Q) : Z :=
  if decide (h <= terrainHeight_m50) then terrainColor_m50
  else if decide (h <= terrainHeight_m40) then terrainColor_m40
  else if decide (h <= terrainHeight_m30) then terrainColor_m30
  else if decide (h <= terrainHeight_m20) then terrainColor_m20
  else if decide (h <= terrainHeight_m10) then terrainColor_m10
  else if decide (h <= terrainHeight_0) then terrainColor_0
  else if decide (h <= terrainHeight_p10) then terrainColor_p10
  else if decide (h <= terrainHeight_p20) then terrainColor_p20
  else if decide (h <= terrainHeight_p30) then terrainColor_p30
  else if decide (h <= terrainHeight_p40) then terrainColor_p40
  else if decide (h <= terrainHeight_p50) then terrainColor_p50
  else if decide (h <= terrainHeight_p60) then terrainColor_p60
  else if decide (h <= terrainHeight_p70) then terrainColor_p70
  else if decide (h <= terrainHeight_p80) then terrainColor_p80
  else if decide (h <= terrainHeight_p90) then terrainColor_p90
  else terrainColor_p100.

(** "Surface material properties by elevation": the pair pushed to
    [metalnessAttr] and [roughnessAttr]. *)
Definition surface (h : Q) : Q * Q :=
  if decide (h <= 0) then (waterMetalness, waterRoughness)
  else (landMetalness, landRoughness).

(** The arrays the heightmap loop works on: the position attribute of the
    geometry and the three JavaScript arrays it fills.  [colors] takes
    three numbers per vertex. *)
Record Attributes := mkAttributes {
  pos : list Vector3;
  colors : list Q;
  metalnessAttr : list Q;
  roughnessAttr : list Q
}.

Record Terrain := mkTerrain {
  size : Q;
  seg : nat;
  terrainNoise : ImprovedNoise;
  mesh : Attributes;
  waterY : Q
}.

(** Y coordinate of mesh vertex [i]. *)
Definition meshHeight (t : Terrain) (i : nat) : option Q :=
  vy <$> pos (mesh t) !! i.

Section Constructor.

Context `{THREE.Color}.

(** [pos.setY(i, y)]: the position attribute is a [Float32Array], the
    store rounds to single precision. *)
Definition setY (i : nat) (y : Q) (l : list Vector3) : list Vector3 :=
  match l !! i with
  | None => l
  | Some v => <[i := mkVector3 (vx v) (round32 y) (vz v)]> l
  end.

(** Body of the heightmap loop at index [i].  The loop keeps [i] below
    [pos.count], so the vertex read by [getX] and [getZ] is there. *)
Definition heightmapStep (n : ImprovedNoise) (i : nat) (a : Attributes) : Attributes :=
  match pos a !! i with
  | None => a
  | Some v =>
      let x := vx v in
      let z := vz v in
      let h := getTerrainHeight x z n in
      let c := hex h in
      {| pos := setY i (fixedHeight h) (pos a);
         colors := colors a ++ [THREE.r c; THREE.g c; THREE.b c];
         metalnessAttr := metalnessAttr a ++ [fst (surface h)];
         roughnessAttr := roughnessAttr a ++ [snd (surface h)] |}
  end.

(** The constructor.  [n] is the [new ImprovedNoise()] it creates and
    [geometry] the vertex buffer of the rotated [THREE.PlaneGeometry]. *)
Definition new (n : ImprovedNoise) (geometry : list Vector3) : Terrain :=
  let a := {| pos := geometry; colors := []; metalnessAttr := []; roughnessAttr := [] |} in
  {| size := terrainSize;
     seg := terrainDetails;
     terrainNoise := n;
     mesh := forUpTo (length geometry) (heightmapStep n) a;
     waterY := 0.02 |}.

(** The mesh built over [geometry] carries, at every vertex, the height
    [getTerrainHeight] gives at the vertex's (x, z). *)
Definition meshIsHeightField (n : ImprovedNoise) (geometry : list Vector3) : Prop :=
  forall i v, geometry !! i = Some v ->
    exists y, meshHeight (new n geometry) i = Some y
              /\ y == getTerrainHeight (vx v) (vz v) n.

End Constructor.

(** The value written into the mesh for a vertex. *)
Definition place (n : ImprovedNoise) (v : Vector3) : Vector3 :=
  mkVector3 (vx v) (round32 (fixedHeight (getTerrainHeight (vx v) (vz v) n))) (vz v).

(** The numbers pushed to [colors] for a vertex. *)
Definition vertexColor `{THREE.Color} (n : ImprovedNoise) (v : Vector3) : list Q :=
  let c := hex (getTerrainHeight (vx v) (vz v) n) in [THREE.r c; THREE.g c; THREE.b c].

End Terrain.

(** A noise object that is 0 everywhere.  Improved noise is 0 at every
    point with integer coordinates, so this agrees with the three.js
    noise on the samples taken at the origin. *)
Definition flatNoise : ImprovedNoise := mkNoise (fun _ _ _ => 0).

(** The height sampler in the words of the specification: two warp
    descriptors and an ordered octave list, summed without
    normalisation. *)
Module HeightSampler.

Record Octave := mkOctave { frequencyScale : Q; amplitude : Q }.

Record Warp := mkWarp { warpFreq : Q; warpAmp : Q; warpLayer : Q }.

Definition warpX : Warp := mkWarp 0.001 128 50.
Definition warpZ : Warp := mkWarp 0.001 128 100.

Definition octaves : list Octave :=
  [mkOctave 0.002 100; mkOctave 0.01 25; mkOctave 0.05 5].

Definition warp (n : ImprovedNoise) (w : Warp) (c x z : Q) : Q :=
  c + warpAmp w * noise n (x * warpFreq w) (z * warpFreq w) (warpLayer w).

Definition sumOctaves (n : ImprovedNoise) (os : list Octave) (wx wz : Q) : Q :=
  foldl (fun acc o =>
           acc + amplitude o * noise n (wx * frequencyScale o) (wz * frequencyScale o) 0)
        0 os.

Definition height (n : ImprovedNoise) (x z : Q) : Q :=
  let wx := warp n warpX x x z in
  let wz := warp n warpZ z x z in
  sumOctaves n octaves wx wz.

End HeightSampler.

(** The elevation classifier in the words of the specification: an
    ordered table of inclusive upper bounds with a catch-all bucket. *)
Module ElevationClassifier.

Import ColorVariables TerrainVariables.

Definition table : list (Q * Z) :=
  [ (terrainHeight_m50, terrainColor_m50); (terrainHeight_m40, terrainColor_m40);
    (terrainHeight_m30, terrainColor_m30); (terrainHeight_m20, terrainColor_m20);
    (terrainHeight_m10, terrainColor_m10); (terrainHeight_0, terrainColor_0);
    (terrainHeight_p10, terrainColor_p10); (terrainHeight_p20, terrainColor_p20);
    (terrainHeight_p30, terrainColor_p30); (terrainHeight_p40, terrainColor_p40);
    (terrainHeight_p50, terrainColor_p50); (terrainHeight_p60, terrainColor_p60);
    (terrainHeight_p70, terrainColor_p70); (terrainHeight_p80, terrainColor_p80);
    (terrainHeight_p90, terrainColor_p90) ].

Definition catchAll : Z := terrainColor_p100.

(** First bucket whose bound is at least [h], top-down. *)
Fixpoint classifyIn (t : list (Q * Z)) (h : Q) : Z :=
  match t with
  | [] => catchAll
  | (bound, bucket) :: rest =>
      if decide (h <= bound) then bucket else classifyIn rest h
  end.

Definition classify (h : Q) : Z := classifyIn table h.

(** Index of the bucket the lookup stops at; [length t] is the
    catch-all. *)
Fixpoint firstMatch (t : list (Q * Z)) (h : Q) : nat :=
  match t with
  | [] => O
  | (bound, _) :: rest => if decide (h <= bound) then O else S (firstMatch rest h)
  end.

Definition isSubmerged (h : Q) : bool := bool_decide (h <= 0).

(** The half-open band of bucket [i]: above the previous bound (none for
    the first bucket) and up to its own bound (none for the catch-all). *)
Definition inBand (i : nat) (h : Q) : Prop :=
  match i with
  | O => True
  | S j => match table !! j with Some (b, _) => b < h | None => False end
  end /\
  match table !! i with
  | Some (b, _) => h <= b
  | None => i = length table
  end.

Definition bucketAt (i : nat) : Z :=
  match table !! i with Some (_, c) => c | None => catchAll end.

End ElevationClassifier.

(** ** three.js objects *)

(** [Object3D.id]: three.js numbers every object it creates. *)
Definition ObjId := nat.

(** THREE.Scene as the drone uses it: the ids of its children, and the
    three.js counter the next created object takes its id from. *)
Module Scene.

Record Scene := mkScene { children : list ObjId; nextId : ObjId }.

(** Creating an object ([new THREE.Mesh], [new THREE.Group]). *)
Definition alloc (s : Scene) : ObjId * Scene :=
  (nextId s, {| children := children s; nextId := S (nextId s) |}).

Definition add (s : Scene) (o : ObjId) : Scene :=
  {| children := children s ++ [o]; nextId := nextId s |}.

Fixpoint removeFirst (o : ObjId) (l : list ObjId) : list ObjId :=
  match l with
  | [] => []
  | x :: r => if decide (x = o) then r else x :: removeFirst o r
  end.

Definition remove (s : Scene) (o : ObjId) : Scene :=
  {| children := removeFirst o (children s); nextId := nextId s |}.

End Scene.

(** [drone.group]: position and heading.  The code only ever writes
    [rotation.y]. *)
Record Group := mkGroup { position : Vector3; rotation_y : Q }.

(** [Object3D.translateX] and [Object3D.translateZ]: translation along the
    object's local axes. *)
Class Object3D := {
  translateX : Group -> Q -> Group;
  translateZ : Group -> Q -> Group
}.

(** The camera, through the two queries [fire] makes:
    [new Vector3(0, 0, -1).applyQuaternion(camera.quaternion).normalize()]
    and [camera.getWorldPosition]. *)
Record Camera := mkCamera { forward : Vector3; worldPosition : Vector3 }.

(** [Vector3.addScaledVector]. *)
Definition addScaledVector (p v : Vector3) (s : Q) : Vector3 :=
  mkVector3 (vx p + vx v * s) (vy p + vy v * s) (vz p + vz v * s).

(** The value of a call that ends in [return;] or runs off the end of the
    function body. *)
Definition undefined {A : Type} : option A := None.

(** ** Drone.js *)

Module Drone.

(** A projectile mesh: [proj.position] and
    [proj.userData = { dir, life }]. *)
Record Projectile := mkProjectile {
  id : ObjId;
  p_position : Vector3;
  dir : Vector3;
  life : Q
}.

Record Drone := mkDrone {
  scene : Scene.Scene;
  group : Group;
  rotors : list Q;
  projectiles : list Projectile;
  projectileSpeed : Q;
  projectileTTL : Q;
  cooldown : Q;
  cooldownTime : Q
}.

Definition setGroup (d : Drone) (g : Group) : Drone :=
  mkDrone (scene d) g (rotors d) (projectiles d) (projectileSpeed d)
          (projectileTTL d) (cooldown d) (cooldownTime d).

Definition setCooldown (d : Drone) (c : Q) : Drone :=
  mkDrone (scene d) (group d) (rotors d) (projectiles d) (projectileSpeed d)
          (projectileTTL d) c (cooldownTime d).

(** Objects the builders create below the group: body, gimbal, four arms
    and four rotors, the skid group with two skids and three crossbars,
    the turret group with base, pivot and barrel. *)
Definition partsCount : nat := 20.

(** The constructor: the group is created and added to the scene, the
    builders attach their parts to the group, the firing system starts
    empty. *)
Definition new (sc : Scene.Scene) (startX startY startZ : Q) : Drone :=
  let (gid, sc) := Scene.alloc sc in
  let sc := Scene.add sc gid in
  let sc := Scene.mkScene (Scene.children sc) (Scene.nextId sc + partsCount)%nat in
  {| scene := sc;
     group := mkGroup (mkVector3 startX startY startZ) 0;
     rotors := [0; 0; 0; 0];
     projectiles := [];
     projectileSpeed := DroneVariables.projectileSpeed;
     projectileTTL := DroneVariables.projectileTTL;
     cooldown := DroneVariables.cooldown;
     cooldownTime := DroneVariables.cooldownTime |}.

(** [fire(camera, mode)].  The first component is the value of the call,
    the second the drone afterwards. *)
Definition fire (camera : Camera) (mode : string) (d : Drone) : option Projectile * Drone :=
  if decide (0 < cooldown d) then (undefined, d)
  else if negb (bool_decide (mode = "first"%string)) then (undefined, d)
  else
    let d := setCooldown d (cooldownTime d) in
    let dir := forward camera in
    let muzzleWorld := worldPosition camera in
    let (pid, sc) := Scene.alloc (scene d) in
    let proj := {| id := pid; p_position := muzzleWorld; dir := dir;
                   life := projectileTTL d |} in
    (undefined,
     mkDrone (Scene.add sc pid) (group d) (rotors d) (projectiles d ++ [proj])
             (projectileSpeed d) (projectileTTL d) (cooldown d) (cooldownTime d)).

(** One projectile in one pass of the update loop, before the life test. *)
Definition advance (speed dt : Q) (p : Projectile) : Projectile :=
  {| id := id p;
     p_position := addScaledVector (p_position p) (dir p) (speed * dt);
     dir := dir p;
     life := life p - dt |}.

(** [for (let i = this.projectiles.length - 1; i >= 0; i--)]: [k] is
    [i + 1], the number of indices still to visit.  Reading a slot that is
    not there would make [p.position] throw; that is [None]. *)
Fixpoint projectileLoop (speed dt : Q) (k : nat) (ps : list Projectile) (sc : Scene.Scene)
  : option (list Projectile * Scene.Scene) :=
  match k with
  | O => Some (ps, sc)
  | S i =>
      match ps !! i with
      | None => None
      | Some p =>
          let p := advance speed dt p in
          if decide (life p <= 0)
          then projectileLoop speed dt i (delete i ps) (Scene.remove sc (id p))
          else projectileLoop speed dt i (<[i := p]> ps) sc
      end
  end.

(** [update(dt)]: rotor spin, cooldown timer, projectiles. *)
Definition update (dt : Q) (d : Drone) : option Drone :=
  let rotors' := map (fun r => r + dt * 40) (rotors d) in
  let cooldown' :=
    if decide (0 < cooldown d) then Qmax 0 (cooldown d - dt) else cooldown d in
  match projectileLoop (projectileSpeed d) dt (length (projectiles d))
                       (projectiles d) (scene d) with
  | None => None
  | Some (ps, sc) =>
      Some (mkDrone sc (group d) rotors' ps (projectileSpeed d) (projectileTTL d)
                    cooldown' (cooldownTime d))
  end.

(** Successive frames: [update] once per element of [dts], in order. *)
Fixpoint updates (dts : list Q) (d : Drone) : option Drone :=
  match dts with
  | [] => Some d
  | dt :: rest =>
      match update dt d with
      | None => None
      | Some d' => updates rest d'
      end
  end.

(** What one pass of the loop amounts to: every projectile advanced, the
    expired ones dropped, their meshes taken out of the scene. *)
Definition liveAfter (speed dt : Q) (ps : list Projectile) : list Projectile :=
  filter (fun p => ~ life p <= 0) (map (advance speed dt) ps).

Definition sceneAfter (speed dt : Q) (ps : list Projectile) (sc : Scene.Scene) : Scene.Scene :=
  foldr (fun p s => if decide (life (advance speed dt p) <= 0)
                    then Scene.remove s (id p) else s) sc ps.

Definition update_spec (dt : Q) (d : Drone) : Drone :=
  mkDrone (sceneAfter (projectileSpeed d) dt (projectiles d) (scene d))
          (group d)
          (map (fun r => r + dt * 40) (rotors d))
          (liveAfter (projectileSpeed d) dt (projectiles d))
          (projectileSpeed d) (projectileTTL d)
          (if decide (0 < cooldown d) then Qmax 0 (cooldown d - dt) else cooldown d)
          (cooldownTime d).

Fixpoint updates_spec (dts : list Q) (d : Drone) : Drone :=
  match dts with
  | [] => d
  | dt :: rest => updates_spec rest (update_spec dt d)
  end.

(** Cumulative simulated time of a run of frames. *)
Definition elapsed (dts : list Q) : Q := foldr Qplus 0 dts.

(** The call hands a projectile back whenever the cooldown has
    expired. *)
Definition fireReturnsProjectile (camera : Camera) (mode : string) (d : Drone) : Prop :=
  cooldown d <= 0 -> exists p, (fire camera mode d).1 = Some p.

(** The projectile a successful [fire] creates. *)
Definition fired (camera : Camera) (d : Drone) : Projectile :=
  mkProjectile (Scene.nextId (scene d)) (worldPosition camera) (forward camera)
               (projectileTTL d).

(** The live set holds a projectile with this id. *)
Definition isLive (o : ObjId) (d : Drone) : Prop :=
  exists p, p ∈ projectiles d /\ id p = o.

(** No two objects share an id: the projectiles in flight were all created
    before the counter reached its present value. *)
Definition wf (d : Drone) : Prop :=
  Forall (fun p => (id p < Scene.nextId (scene d))%nat) (projectiles d).

End Drone.

(** ** Drone.js in double precision *)

(** The same [update], with the result of every [+], [-] and [*]
    rounded by [rnd].  [fire] does no arithmetic and is the one of
    [Drone].  With the rounding [unrounded] these are the definitions of
    [Drone]; with [binary64] they compute the numbers the program
    computes. *)
Module Rounded.

Import Drone.

Section Arithmetic.

Context `{Rounding}.

(** [Vector3.addScaledVector(v, s)]: [this.x += v.x * s], and the same
    for y and z. *)
Definition addScaledVector (p v : Vector3) (s : Q) : Vector3 :=
  mkVector3 (rnd (vx p + rnd (vx v * s)))
            (rnd (vy p + rnd (vy v * s)))
            (rnd (vz p + rnd (vz v * s))).

(** One projectile in one pass of the update loop, before the life test. *)
Definition advance (speed dt : Q) (p : Projectile) : Projectile :=
  {| id := id p;
     p_position := addScaledVector (p_position p) (dir p) (rnd (speed * dt));
     dir := dir p;
     life := rnd (life p - dt) |}.

Fixpoint projectileLoop (speed dt : Q) (k : nat) (ps : list Projectile) (sc : Scene.Scene)
  : option (list Projectile * Scene.Scene) :=
  match k with
  | O => Some (ps, sc)
  | S i =>
      match ps !! i with
      | None => None
      | Some p =>
          let p := advance speed dt p in
          if decide (life p <= 0)
          then projectileLoop speed dt i (delete i ps) (Scene.remove sc (id p))
          else projectileLoop speed dt i (<[i := p]> ps) sc
      end
  end.

(** The "Cooldown timer" block on the timer value. *)
Definition timerStep (c dt : Q) : Q :=
  if decide (0 < c) then Qmax 0 (rnd (c - dt)) else c.

(** [update(dt)]: rotor spin, cooldown timer, projectiles. *)
Definition update (dt : Q) (d : Drone) : option Drone :=
  let rotors' := map (fun r => rnd (r + rnd (dt * 40))) (rotors d) in
  let cooldown' := timerStep (cooldown d) dt in
  match projectileLoop (projectileSpeed d) dt (length (projectiles d))
                       (projectiles d) (scene d) with
  | None => None
  | Some (ps, sc) =>
      Some (mkDrone sc (group d) rotors' ps (projectileSpeed d) (projectileTTL d)
                    cooldown' (cooldownTime d))
  end.

(** Successive frames: [update] once per element of [dts], in order. *)
Fixpoint updates (dts : list Q) (d : Drone) : option Drone :=
  match dts with
  | [] => Some d
  | dt :: rest =>
      match update dt d with
      | None => None
      | Some d' => updates rest d'
      end
  end.

(** What one pass of the loop amounts to. *)
Definition liveAfter (speed dt : Q) (ps : list Projectile) : list Projectile :=
  filter (fun p => ~ life p <= 0) (map (advance speed dt) ps).

Definition sceneAfter (speed dt : Q) (ps : list Projectile) (sc : Scene.Scene) : Scene.Scene :=
  foldr (fun p s => if decide (life (advance speed dt p) <= 0)
                    then Scene.remove s (id p) else s) sc ps.

Definition update_spec (dt : Q) (d : Drone) : Drone :=
  mkDrone (sceneAfter (projectileSpeed d) dt (projectiles d) (scene d))
          (group d)
          (map (fun r => rnd (r + rnd (dt * 40))) (rotors d))
          (liveAfter (projectileSpeed d) dt (projectiles d))
          (projectileSpeed d) (projectileTTL d)
          (timerStep (cooldown d) dt)
          (cooldownTime d).

Fixpoint updates_spec (dts : list Q) (d : Drone) : Drone :=
  match dts with
  | [] => d
  | dt :: rest => updates_spec rest (update_spec dt d)
  end.

(** One projectile per cooldown window, the window measured by the sum
    of the dt: after a successful [fire], a second [fire] is rejected
    when the frames in between sum to less than cooldownTime and succeeds
    when they sum to cooldownTime or more. *)
Definition oneShotPerWindow (camera1 camera2 : Camera) (d : Drone) (dts : list Q) : Prop :=
  let d1 := (fire camera1 "first" d).2 in
  exists d2,
    updates dts d1 = Some d2
    /\ (elapsed dts < cooldownTime d -> fire camera2 "first" d2 = (undefined, d2))
    /\ (cooldownTime d <= elapsed dts ->
          projectiles (fire camera2 "first" d2).2 = projectiles d2 ++ [fired camera2 d2]).

(** A fired projectile is live exactly while the dt of the frames since
    sum to less than its time-to-live. *)
Definition liveUntilTTL (camera : Camera) (d : Drone) (dts : list Q) : Prop :=
  let o := Scene.nextId (scene d) in
  exists dn,
    updates dts (fire camera "first" d).2 = Some dn
    /\ (elapsed dts < projectileTTL d -> isLive o dn)
    /\ (projectileTTL d <= elapsed dts -> ~ isLive o dn).

End Arithmetic.

(** The number of frames of a run, as a number. *)
Fixpoint frames (dts : list Q) : Q :=
  match dts with
  | [] => 0
  | _ :: rest => 1 + frames rest
  end.

End Rounded.

(** ** DroneControls.js *)

Module DroneControls.

(** The [options] argument of the constructor; a field that is not given
    is [None]. *)
Record Options := mkOptions {
  opt_moveSpeed : option Q;
  opt_rotateSpeed : option Q;
  opt_worldSize : option Q;
  opt_heightMax : option Q
}.

(** [options = {}]. *)
Definition noOptions : Options := mkOptions None None None None.

(** Truthiness of a number that may be [undefined]. *)
Definition truthy (v : option Q) : bool :=
  match v with
  | None => false
  | Some q => negb (Qeq_bool q 0)
  end.

(** [a || b] where [b] may itself be [undefined]. *)
Definition orElse (a b : option Q) : option Q := if truthy a then a else b.

(** [a || b] where [b] is a number: the chain ends in a constant of
    Variables.js, so the result is a number. *)
Definition orDefault (a : option Q) (b : Q) : Q :=
  match orElse a (Some b) with
  | Some q => q
  | None => b
  end.

Record DroneControls := mkDroneControls {
  drone : Drone.Drone;
  terrain : Terrain.Terrain;
  keys : gmap string bool;
  moveSpeed : Q;
  rotateSpeed : Q;
  worldSize : Q;
  heightMax : Q;
  basicMultiplier : Q;
  thrustMultiplier : Q
}.

Definition new (drone : Drone.Drone) (terrain : Terrain.Terrain) (options : Options)
  : DroneControls :=
  {| drone := drone;
     terrain := terrain;
     keys := ∅;
     moveSpeed := orDefault (opt_moveSpeed options) DroneVariables.moveSpeed;
     rotateSpeed := orDefault (opt_rotateSpeed options) DroneVariables.rotateSpeed;
     worldSize :=
       orDefault (orElse (opt_worldSize options) (Some (Terrain.size terrain)))
                 TerrainVariables.terrainSize;
     heightMax := orDefault (opt_heightMax options) DroneVariables.heightMax;
     basicMultiplier := DroneVariables.basicMultiplier;
     thrustMultiplier := DroneVariables.thrustMultiplier |}.

Definition setKeys (c : DroneControls) (k : gmap string bool) : DroneControls :=
  mkDroneControls (drone c) (terrain c) k (moveSpeed c) (rotateSpeed c)
                  (worldSize c) (heightMax c) (basicMultiplier c) (thrustMultiplier c).

Definition setDrone (c : DroneControls) (d : Drone.Drone) : DroneControls :=
  mkDroneControls d (terrain c) (keys c) (moveSpeed c) (rotateSpeed c)
                  (worldSize c) (heightMax c) (basicMultiplier c) (thrustMultiplier c).

(** The two keyboard listeners. *)
Definition keydown (code : string) (c : DroneControls) : DroneControls :=
  setKeys c (<[code := true]> (keys c)).

Definition keyup (code : string) (c : DroneControls) : DroneControls :=
  setKeys c (<[code := false]> (keys c)).

(** [this.keys[code]] in a condition. *)
Definition key (c : DroneControls) (code : string) : bool :=
  match keys c !! code with
  | Some b => b
  | None => false
  end.

Definition setY (g : Group) (y : Q) : Group :=
  mkGroup (mkVector3 (vx (position g)) y (vz (position g))) (rotation_y g).

Definition setX (g : Group) (x : Q) : Group :=
  mkGroup (mkVector3 x (vy (position g)) (vz (position g))) (rotation_y g).

Definition setZ (g : Group) (z : Q) : Group :=
  mkGroup (mkVector3 (vx (position g)) (vy (position g)) z) (rotation_y g).

Definition setRotationY (g : Group) (r : Q) : Group :=
  mkGroup (position g) r.

(** The position of the drone. *)
Definition dronePosition (c : DroneControls) : Vector3 :=
  position (Drone.group (drone c)).

Section ApplyInput.

Context `{Object3D}.

(** [move] of [applyInput]. *)
Definition moveStep (dt : Q) (c : DroneControls) : Q :=
  let multiplier :=
    if key c "ShiftLeft" || key c "ShiftRight"
    then thrustMultiplier c else basicMultiplier c in
  moveSpeed c * dt * multiplier.

(** The group after the translation, rotation and altitude controls of
    [applyInput], before the two clamps. *)
Definition applyKeys (dt : Q) (c : DroneControls) : Group :=
  let move := moveStep dt c in
  let rot := rotateSpeed c * dt in
  let g := Drone.group (drone c) in
  let g := if key c "KeyW" then translateZ g (- move) else g in
  let g := if key c "KeyS" then translateZ g move else g in
  let g := if key c "KeyQ" then translateX g (- move) else g in
  let g := if key c "KeyE" then translateX g move else g in
  let g := if key c "KeyA" then setRotationY g (rotation_y g + rot) else g in
  let g := if key c "KeyD" then setRotationY g (rotation_y g - rot) else g in
  let g := if key c "Space" then setY g (vy (position g) + move) else g in
  let g := if key c "ControlLeft" || key c "ControlRight"
           then setY g (vy (position g) - move) else g in
  g.

(** [half] of the "WORLD BOUNDARIES" block. *)
Definition half (c : DroneControls) : Q :=
  worldSize c /
  (TerrainVariables.terrainBorderFactor + TerrainVariables.terrainBorderDelimiter).

(** [groundHeight] of the "TERRAIN COLLISION" block, for a group whose x
    and z are already clamped. *)
Definition groundHeight (c : DroneControls) (g : Group) : Q :=
  getTerrainHeight (vx (position g)) (vz (position g))
                   (Terrain.terrainNoise (terrain c)).

Definition minHeight (c : DroneControls) (g : Group) : Q :=
  Qmax DroneVariables.nullPoint (groundHeight c g + DroneVariables.minAboveGround).

(** [applyInput(dt)]: the drone of the controls is updated in place. *)
Definition applyInput (dt : Q) (c : DroneControls) : DroneControls :=
  let g := applyKeys dt c in
  let half := half c in
  let g := setX g (Qmax (- half) (Qmin half (vx (position g)))) in
  let g := setZ g (Qmax (- half) (Qmin half (vz (position g)))) in
  let minHeight := minHeight c g in
  let g := setY g (Qmax minHeight (Qmin (heightMax c) (vy (position g)))) in
  setDrone c (Drone.setGroup (drone c) g).

(** Successive frames with the keys held. *)
Definition applyInputs (dts : list Q) (c : DroneControls) : DroneControls :=
  foldl (fun c dt => applyInput dt c) c dts.

(** Every frame of the run moves the drone, before the clamp, to or past
    the positive (resp. negative) x border. *)
Fixpoint pushedEast (dts : list Q) (c : DroneControls) : Prop :=
  match dts with
  | [] => True
  | dt :: rest =>
      half c <= vx (position (applyKeys dt c)) /\ pushedEast rest (applyInput dt c)
  end.

Fixpoint pushedWest (dts : list Q) (c : DroneControls) : Prop :=
  match dts with
  | [] => True
  | dt :: rest =>
      vx (position (applyKeys dt c)) <= - half c /\ pushedWest rest (applyInput dt c)
  end.

(** The same for the positive (resp. negative) z border. *)
Fixpoint pushedSouth (dts : list Q) (c : DroneControls) : Prop :=
  match dts with
  | [] => True
  | dt :: rest =>
      half c <= vz (position (applyKeys dt c)) /\ pushedSouth rest (applyInput dt c)
  end.

Fixpoint pushedNorth (dts : list Q) (c : DroneControls) : Prop :=
  match dts with
  | [] => True
  | dt :: rest =>
      vz (position (applyKeys dt c)) <= - half c /\ pushedNorth rest (applyInput dt c)
  end.

(** The world border clamp as an interval bound: after the frame x and z
    lie in [-half, half]. *)
Definition withinBorder (dt : Q) (c : DroneControls) : Prop :=
  let p := dronePosition (applyInput dt c) in
  - half c <= vx p /\ vx p <= half c /\ - half c <= vz p /\ vz p <= half c.

(** The ground clamp as a two-sided bound: after the frame the drone is
    at or above max(0, ground + minAboveGround) at its (x, z) and at or
    below heightMax. *)
Definition groundClamped (dt : Q) (c : DroneControls) : Prop :=
  let p := dronePosition (applyInput dt c) in
  Qmax 0 (getTerrainHeight (vx p) (vz p) (Terrain.terrainNoise (terrain c))
          + DroneVariables.minAboveGround) <= vy p
  /\ vy p <= heightMax c.

End ApplyInput.

End DroneControls.

(** An [Object3D] whose local axes are the world axes (heading 0). *)
Definition axisAligned : Object3D :=
  {| translateX := fun g d => DroneControls.setX g (vx (position g) + d);
     translateZ := fun g d => DroneControls.setZ g (vz (position g) + d) |}.

(** One frame of the animation loop of App.js: the controls move the
    drone, then the drone advances its own state. *)
Definition animate `{Object3D} (dt : Q) (c : DroneControls.DroneControls)
  : option DroneControls.DroneControls :=
  let c := DroneControls.applyInput dt c in
  match Drone.update dt (DroneControls.drone c) with
  | None => None
  | Some d => Some (DroneControls.setDrone c d)
  end.

(** ** Objects of App.js, used as sample inputs *)

Definition origin : Vector3 := mkVector3 0 0 0.

Definition emptyScene : Scene.Scene := Scene.mkScene [] 0%nat.

(** [new Drone(scene, startPosX, startPosY, startPosZ)]. *)
Definition appDrone : Drone.Drone :=
  Drone.new emptyScene StartPositionVariables.startPosX
            StartPositionVariables.startPosY StartPositionVariables.startPosZ.

(** A [THREE.Color] that takes the three bytes of the hex value as
    fractions of 255. *)
Definition byteColor : THREE.Color :=
  {| THREE.r := fun hex => inject_Z (Z.land (Z.shiftr hex 16) 255) / 255;
     THREE.g := fun hex => inject_Z (Z.land (Z.shiftr hex 8) 255) / 255;
     THREE.b := fun hex => inject_Z (Z.land hex 255) / 255 |}.

(** A terrain whose only vertex is the centre of the grid, over a noise
    that vanishes there. *)
Definition centreTerrain : Terrain.Terrain :=
  @Terrain.new byteColor flatNoise [origin].

(** [new DroneControls(drone, terrain, { moveSpeed, rotateSpeed, heightMax })]. *)
Definition appControls : DroneControls.DroneControls :=
  DroneControls.new appDrone centreTerrain
    (DroneControls.mkOptions (Some DroneVariables.moveSpeed)
       (Some DroneVariables.rotateSpeed) None (Some DroneVariables.heightMax)).

(** Controls built with [{ heightMax: 2 }]. *)
Definition lowCeilingControls : DroneControls.DroneControls :=
  DroneControls.new appDrone centreTerrain
    (DroneControls.mkOptions None None None (Some 2)).

(** Controls built with [{ worldSize: -17 }]. *)
Definition negativeWorldControls : DroneControls.DroneControls :=
  DroneControls.new appDrone centreTerrain
    (DroneControls.mkOptions None None (Some (-17)) None).

(** A drone placed at x = 4000 with the strafe-right key held. *)
Definition eastControls : DroneControls.DroneControls :=
  DroneControls.keydown "KeyE"
    (DroneControls.new (Drone.new emptyScene 4000 50 0) centreTerrain
                       DroneControls.noOptions).

(** A noise object that is 0.5 + 2^-30 everywhere, and a terrain and
    controls over it: the ground is at height 65 + 130 * 2^-30, a double
    that is not a single-precision number. *)
Definition hillNoise : ImprovedNoise :=
  mkNoise (fun _ _ _ => (1 # 2) + (1 # 1073741824)).

Definition hillControls : DroneControls.DroneControls :=
  DroneControls.new appDrone (@Terrain.new byteColor hillNoise [origin])
                    DroneControls.noOptions.

(** The drone of App.js as the program holds it: the settings are the
    doubles the literals of Variables.js denote. *)
Definition appDrone64 : Drone.Drone :=
  Drone.mkDrone (Drone.scene appDrone) (Drone.group appDrone) (Drone.rotors appDrone) []
                (round64 DroneVariables.projectileSpeed)
                (round64 DroneVariables.projectileTTL)
                (round64 DroneVariables.cooldown)
                (round64 DroneVariables.cooldownTime).

(** A camera at the drone's start position looking along -z. *)
Definition appCamera : Camera :=
  mkCamera (mkVector3 0 0 (-1)) (mkVector3 0 50 0).

(** ** Browser events and JavaScript helpers *)

(** The fields of a mouse event the handlers read. *)
Record MouseEvent := mkMouseEvent {
  button : Z;
  movementX : Q;
  movementY : Q;
  clientX : Q;
  clientY : Q
}.

(** [domElement.getBoundingClientRect()], the two fields read. *)
Record DOMRect := mkDOMRect { rect_top : Q; rect_height : Q }.

(** [String.prototype.toLowerCase] on key names: the ASCII capitals are
    lowered, every other byte is kept. *)
Definition lowerAscii (a : Ascii.ascii) : Ascii.ascii :=
  let n := Ascii.nat_of_ascii a in
  if (65 <=? n)%nat && (n <=? 90)%nat then Ascii.ascii_of_nat (n + 32) else a.

Fixpoint toLowerCase (s : string) : string :=
  match s with
  | EmptyString => EmptyString
  | String a rest => String (lowerAscii a) (toLowerCase rest)
  end.

(** three.js and [Math] functions the two camera classes call: sine and
    cosine, the view direction of a camera whose quaternion is the
    group's quaternion times a yaw and a pitch turn, the view direction
    after [camera.lookAt(target)] from a position, and the conversions of
    [THREE.Spherical]. *)
Record Spherical := mkSpherical { radius : Q; phi : Q; theta : Q }.

Class CameraMath := {
  PI : Q;
  sin : Q -> Q;
  cos : Q -> Q;
  aimForward : Group -> Q -> Q -> Vector3;
  lookForward : Vector3 -> Vector3 -> Vector3;
  setFromVector3 : Vector3 -> Spherical;
  setFromSpherical : Spherical -> Vector3
}.

(** [THREE.MathUtils.degToRad]: degrees times [Math.PI / 180]. *)
Definition degToRad `{CameraMath} (degrees : Q) : Q := degrees * (PI / 180).

Definition vadd (a b : Vector3) : Vector3 :=
  mkVector3 (vx a + vx b) (vy a + vy b) (vz a + vz b).

Definition vsub (a b : Vector3) : Vector3 :=
  mkVector3 (vx a - vx b) (vy a - vy b) (vz a - vz b).

(** ** DroneCamera.js *)

Module DroneCamera.

(** [groupVisible] is [this.drone.group.visible]; [dispatched] lists the
    details of the "crosshair" events dispatched on the window and
    [logged] the modes written to the console, oldest first. *)
Record DroneCamera := mkDroneCamera {
  mode : string;
  distance : Q;
  yaw : Q;
  pitch : Q;
  isDragging : bool;
  isAiming : bool;
  groupVisible : bool;
  dispatched : list bool;
  logged : list string
}.

(** The constructor; a new group is visible. *)
Definition new : DroneCamera :=
  {| mode := "third"; distance := 30; yaw := 0; pitch := 0.3;
     isDragging := false; isAiming := false;
     groupVisible := true; dispatched := []; logged := [] |}.

Definition onMouseDown (e : MouseEvent) (c : DroneCamera) : DroneCamera :=
  let dragging := if decide (button e = 0%Z) then true else isDragging c in
  let aiming := if decide (button e = 2%Z) then true else isAiming c in
  mkDroneCamera (mode c) (distance c) (yaw c) (pitch c) dragging aiming
                (groupVisible c) (dispatched c) (logged c).

Definition onMouseUp (e : MouseEvent) (c : DroneCamera) : DroneCamera :=
  let dragging := if decide (button e = 0%Z) then false else isDragging c in
  let aiming := if decide (button e = 2%Z) then false else isAiming c in
  mkDroneCamera (mode c) (distance c) (yaw c) (pitch c) dragging aiming
                (groupVisible c) (dispatched c) (logged c).

Definition setAngles (c : DroneCamera) (y p : Q) : DroneCamera :=
  mkDroneCamera (mode c) (distance c) y p (isDragging c) (isAiming c)
                (groupVisible c) (dispatched c) (logged c).

Section Handlers.

Context `{CameraMath}.

(** The "mousemove" listener. *)
Definition onMouseMove (rect : DOMRect) (e : MouseEvent) (c : DroneCamera) : DroneCamera :=
  let c :=
    if bool_decide (mode c = "third"%string) && isDragging c then
      let yaw := yaw c - movementX e * 0.005 in
      let pitch := pitch c - movementY e * 0.005 in
      let pitch := Qmax (- PI / 3) (Qmin (PI / 3) pitch) in
      setAngles c yaw pitch
    else c in
  let c :=
    if bool_decide (mode c = "first"%string) && isAiming c then
      let centerY := rect_top rect + rect_height rect / 2 in
      let dy := (clientY e - centerY) / (rect_height rect / 2) in
      let pitch := degToRad (- dy * 77.5) in
      let pitch := Qmax (degToRad (-67.5)) (Qmin (degToRad 10) pitch) in
      let yaw := yaw c - movementX e * 0.0025 in
      let yaw := Qmax (degToRad (-45)) (Qmin (degToRad 45) yaw) in
      setAngles c yaw pitch
    else c in
  c.

(** [update()]: the camera after the call.  [g] is [this.drone.group]
    when the drone and its group are there. *)
Definition update (c : DroneCamera) (g : option Group) (camera : Camera) : Camera :=
  match g with
  | None => camera
  | Some g =>
      let dronePos := position g in
      if bool_decide (mode c = "first"%string) then
        mkCamera (aimForward g (yaw c) (pitch c)) dronePos
      else
        let offset :=
          mkVector3 (cos (pitch c) * sin (yaw c) * distance c)
                    (sin (pitch c) * distance c + 10)
                    (cos (pitch c) * cos (yaw c) * distance c) in
        let p := vadd dronePos offset in
        mkCamera (lookForward p dronePos) p
  end.

End Handlers.

Definition toggleMode (c : DroneCamera) : DroneCamera :=
  let mode' := if bool_decide (mode c = "first"%string) then "third"%string
               else "first"%string in
  if bool_decide (mode' = "first"%string) then
    mkDroneCamera mode' (distance c) 0 0 (isDragging c) (isAiming c)
                  false (dispatched c ++ [true]) (logged c ++ [mode'])
  else
    mkDroneCamera mode' (distance c) (yaw c) (pitch c) (isDragging c) (isAiming c)
                  true (dispatched c ++ [false]) (logged c ++ [mode']).

(** The "keydown" listener on the window. *)
Definition onKeyDown (key : string) (c : DroneCamera) : DroneCamera :=
  if bool_decide (toLowerCase key = "c"%string) then toggleMode c else c.

End DroneCamera.

(** ** CameraControls.js *)

Module CameraControls.

Record CameraControls := mkCameraControls {
  camera : Camera;
  isRotating : bool;
  isZooming : bool;
  lastX : Q;
  lastY : Q;
  target : Vector3;
  spherical : Spherical
}.

Section Handlers.

Context `{CameraMath}.

Definition new (camera : Camera) : CameraControls :=
  let target := mkVector3 0 0 0 in
  {| camera := camera; isRotating := false; isZooming := false;
     lastX := 0; lastY := 0; target := target;
     spherical := setFromVector3 (vsub (worldPosition camera) target) |}.

Definition updateCamera (c : CameraControls) : CameraControls :=
  let offset := vadd (setFromSpherical (spherical c)) (target c) in
  mkCameraControls (mkCamera (lookForward offset (target c)) offset)
                   (isRotating c) (isZooming c) (lastX c) (lastY c)
                   (target c) (spherical c).

Definition onMouseDown (e : MouseEvent) (c : CameraControls) : CameraControls :=
  let rotating := if decide (button e = 2%Z) then true else isRotating c in
  let zooming := if decide (button e = 0%Z) then true else isZooming c in
  mkCameraControls (camera c) rotating zooming (clientX e) (clientY e)
                   (target c) (spherical c).

Definition onMouseUp (e : MouseEvent) (c : CameraControls) : CameraControls :=
  let rotating := if decide (button e = 2%Z) then false else isRotating c in
  let zooming := if decide (button e = 0%Z) then false else isZooming c in
  mkCameraControls (camera c) rotating zooming (lastX c) (lastY c)
                   (target c) (spherical c).

(** The body shared by [onMouseMove] and [onTouchMove]: the pointer is
    now at (x, y); [rotate] and [zoom] are the two conditions. *)
Definition drag (x y : Q) (rotate zoom : bool) (c : CameraControls) : CameraControls :=
  let dx := x - lastX c in
  let dy := y - lastY c in
  let s := spherical c in
  let s :=
    if rotate then
      let theta := theta s - dx * 0.005 in
      let phi := phi s - dy * 0.005 in
      let phi := Qmax 0.1 (Qmin (PI - 0.1) phi) in
      mkSpherical (radius s) phi theta
    else s in
  let s :=
    if zoom then
      let radius := radius s + dy * 0.1 in
      let radius := Qmax 2 radius in
      mkSpherical radius (phi s) (theta s)
    else s in
  updateCamera (mkCameraControls (camera c) (isRotating c) (isZooming c) x y
                                 (target c) s).

Definition onMouseMove (e : MouseEvent) (c : CameraControls) : CameraControls :=
  drag (clientX e) (clientY e) (isRotating c) (isZooming c) c.

Definition onWheel (deltaY : Q) (c : CameraControls) : CameraControls :=
  let s := spherical c in
  let radius := radius s + deltaY * 0.05 in
  let radius := Qmax 2 radius in
  updateCamera (mkCameraControls (camera c) (isRotating c) (isZooming c)
                                 (lastX c) (lastY c) (target c)
                                 (mkSpherical radius (phi s) (theta s))).

(** Touch handlers; [touches] holds (clientX, clientY) of each touch.
    Reading [e.touches[0]] of an empty list throws: [None]. *)
Definition onTouchStart (touches : list (Q * Q)) (c : CameraControls)
  : option CameraControls :=
  let rotating := if decide (length touches = 1%nat) then true else isRotating c in
  let zooming := if decide (length touches = 2%nat) then true else isZooming c in
  match touches !! 0%nat with
  | None => None
  | Some (x, y) =>
      Some (mkCameraControls (camera c) rotating zooming x y (target c) (spherical c))
  end.

Definition onTouchEnd (c : CameraControls) : CameraControls :=
  mkCameraControls (camera c) false false (lastX c) (lastY c) (target c) (spherical c).

Definition onTouchMove (touches : list (Q * Q)) (c : CameraControls)
  : option CameraControls :=
  match touches !! 0%nat with
  | None => None
  | Some (x, y) =>
      Some (drag x y
                 (isRotating c && bool_decide (length touches = 1%nat))
                 (isZooming c && bool_decide (length touches = 2%nat)) c)
  end.


End Handlers.

End CameraControls.

(** ** Crosshair.js *)

Module Crosshair.

Inductive CssLength :=
| percent (n : Q)
| px (n : Q).

(** The overlay [div]: the style fields the methods write, and the
    corner brackets appended to it, as the (x, y) arguments of
    [makeCorner]. *)
Record Element := mkElement {
  width : CssLength;
  height : CssLength;
  display : string;
  corners : list (string * string)
}.

(** What [onResize] reads of the container. *)
Record Container := mkContainer { clientWidth : Q; clientHeight : Q }.

(** [this.element]; it is missing after the early return of the
    constructor. *)
Record Crosshair := mkCrosshair { element : option Element }.

(** A method that reads [this.element.style] throws when there is no
    element: [None]. *)
Definition onResize (m : Container) (c : Crosshair) : option Crosshair :=
  match element c with
  | None => None
  | Some el =>
      Some (mkCrosshair (Some (mkElement (px (clientWidth m)) (px (clientHeight m))
                                         (display el) (corners el))))
  end.

Definition setDisplay (d : string) (c : Crosshair) : option Crosshair :=
  match element c with
  | None => None
  | Some el => Some (mkCrosshair (Some (mkElement (width el) (height el) d (corners el))))
  end.

Definition show (c : Crosshair) : option Crosshair := setDisplay "block" c.

Definition hide (c : Crosshair) : option Crosshair := setDisplay "none" c.

Definition setVisible (visible : bool) (c : Crosshair) : option Crosshair :=
  setDisplay (if visible then "block" else "none") c.

(** The constructor; [container] is the result of
    [document.querySelector(".canvas-container")]. *)
Definition new (container : option Container) : option Crosshair :=
  match container with
  | None => Some (mkCrosshair None)
  | Some m =>
      let el := mkElement (percent 100) (percent 100) ""
                  [("left", "top"); ("right", "top"); ("left", "bottom");
                   ("right", "bottom")]%string in
      match onResize m (mkCrosshair (Some el)) with
      | None => None
      | Some c => hide c
      end
  end.

End Crosshair.

(** ** App.js *)

Module CameraPositionVariables.

Definition viewport : Q := 50.
Definition startPosX : Q := 0.
Definition startPosY : Q := 10000.
Definition startPosZ : Q := 0.

End CameraPositionVariables.

Module App.

Record App := mkApp {
  controls : DroneControls.DroneControls;
  droneCamera : DroneCamera.DroneCamera;
  camera : Camera;
  crosshair : Crosshair.Crosshair
}.

(** How a listener or a frame ends. *)
Inductive Completion :=
| normal
| typeError.

(** What the browser delivers: key events with [e.code] and [e.key],
    mouse events on the canvas with its bounding rectangle, a resize with
    the container's new size, an animation frame with its dt. *)
Inductive Event :=
| KeyDown (code key : string)
| KeyUp (code key : string)
| MouseDown (e : MouseEvent)
| MouseUp (e : MouseEvent)
| MouseMove (rect : DOMRect) (e : MouseEvent)
| Resize (m : Crosshair.Container)
| Frame (dt : Q).

Definition drone (a : App) : Drone.Drone := DroneControls.drone (controls a).

(** The application after its set-up code, before the first frame.  [sc]
    is the scene as the drone's constructor finds it, [n] and [geometry]
    are what the terrain is built from, [container] is the element the
    crosshair looks up. *)
Definition init `{THREE.Color} (sc : Scene.Scene) (n : ImprovedNoise)
  (geometry : list Vector3) (container : option Crosshair.Container) : option App :=
  let camera := mkCamera (mkVector3 0 0 (-1))
                  (mkVector3 CameraPositionVariables.startPosX
                             CameraPositionVariables.startPosY
                             CameraPositionVariables.startPosZ) in
  let terrain := Terrain.new n geometry in
  let drone := Drone.new sc StartPositionVariables.startPosX
                         StartPositionVariables.startPosY
                         StartPositionVariables.startPosZ in
  let droneControls :=
    DroneControls.new drone terrain
      (DroneControls.mkOptions (Some DroneVariables.moveSpeed)
         (Some DroneVariables.rotateSpeed) None (Some DroneVariables.heightMax)) in
  let droneCamera := DroneCamera.new in
  match Crosshair.new container with
  | None => None
  | Some crosshair => Some (mkApp droneControls droneCamera camera crosshair)
  end.

Section Loop.

Context `{Object3D} `{CameraMath}.

(** The three "keydown" listeners: the controls' on the document, then
    the drone camera's and the fire keybind on the window. *)
Definition keydown (code key : string) (a : App) : App :=
  let controls := DroneControls.keydown code (controls a) in
  let droneCamera := DroneCamera.onKeyDown key (droneCamera a) in
  let drone :=
    if bool_decide (toLowerCase key = "f"%string)
    then (Drone.fire (camera a) (DroneCamera.mode droneCamera)
                     (DroneControls.drone controls)).2
    else DroneControls.drone controls in
  mkApp (DroneControls.setDrone controls drone) droneCamera (camera a) (crosshair a).

(** [animate()]: controls, drone, camera, crosshair; a throw ends the
    frame where it happens and keeps what was done before it. *)
Definition animate (dt : Q) (a : App) : App * Completion :=
  let controls := DroneControls.applyInput dt (controls a) in
  match Drone.update dt (DroneControls.drone controls) with
  | None => (mkApp controls (droneCamera a) (camera a) (crosshair a), typeError)
  | Some d =>
      let controls := DroneControls.setDrone controls d in
      let camera := DroneCamera.update (droneCamera a) (Some (Drone.group d)) (camera a) in
      match Crosshair.setVisible
              (bool_decide (DroneCamera.mode (droneCamera a) = "first"%string))
              (crosshair a) with
      | None => (mkApp controls (droneCamera a) camera (crosshair a), typeError)
      | Some crosshair => (mkApp controls (droneCamera a) camera crosshair, normal)
      end
  end.

Definition handle (ev : Event) (a : App) : App * Completion :=
  match ev with
  | KeyDown code key => (keydown code key a, normal)
  | KeyUp code _ =>
      (mkApp (DroneControls.keyup code (controls a)) (droneCamera a) (camera a)
             (crosshair a), normal)
  | MouseDown e =>
      (mkApp (controls a) (DroneCamera.onMouseDown e (droneCamera a)) (camera a)
             (crosshair a), normal)
  | MouseUp e =>
      (mkApp (controls a) (DroneCamera.onMouseUp e (droneCamera a)) (camera a)
             (crosshair a), normal)
  | MouseMove rect e =>
      (mkApp (controls a) (DroneCamera.onMouseMove rect e (droneCamera a)) (camera a)
             (crosshair a), normal)
  | Resize m =>
      match Crosshair.onResize m (crosshair a) with
      | None => (a, normal)
      | Some crosshair => (mkApp (controls a) (droneCamera a) (camera a) crosshair, normal)
      end
  | Frame dt => animate dt a
  end.

(** The events of a session, in order; the page keeps running after a
    throw. *)
Definition run (evs : list Event) (a : App) : App :=
  foldl (fun a ev => (handle ev a).1) a evs.

End Loop.

(** The key is C in either case. *)
Definition togglesCamera (ev : Event) : bool :=
  match ev with
  | KeyDown _ key => bool_decide (toLowerCase key = "c"%string)
  | _ => false
  end.

End App.

(** A [CameraMath] for sample inputs: the direction functions look along
    -z and the trigonometric functions are those of angle 0. *)
Definition sampleMath : CameraMath :=
  {| PI := 3.14159;
     sin := fun _ => 0;
     cos := fun _ => 1;
     aimForward := fun _ _ _ => mkVector3 0 0 (-1);
     lookForward := fun _ _ => mkVector3 0 0 (-1);
     setFromVector3 := fun v => mkSpherical (vy v) 0 0;
     setFromSpherical := fun s => mkVector3 0 (radius s) 0 |}.

(** ** Predicates on drone states *)

Module DroneState.

Import Drone.

(** The ids of the projectiles in flight, in list order. *)
Definition ids (d : Drone) : list ObjId := map id (projectiles d).

(** A scene whose children are distinct objects created before the id
    counter reached its present value. *)
Definition sceneOk (sc : Scene.Scene) : Prop :=
  NoDup (Scene.children sc)
  /\ Forall (fun o => (o < Scene.nextId sc)%nat) (Scene.children sc).

(** The scene is in order, the projectiles in flight are distinct objects,
    and each of them is a child of the scene. *)
Definition consistent (d : Drone) : Prop :=
  sceneOk (scene d)
  /\ NoDup (ids d)
  /\ Forall (fun o => o ∈ Scene.children (scene d)) (ids d).

(** The cooldown timer is between 0 and the cooldown time. *)
Definition timerInRange (d : Drone) : Prop :=
  0 <= cooldown d /\ cooldown d <= cooldownTime d.

(** The projectiles are listed oldest first: life never decreases along
    the list, and none has more life than a new projectile gets. *)
Fixpoint ascending (ps : list Projectile) : Prop :=
  match ps with
  | [] => True
  | p :: rest => Forall (fun q => life p <= life q) rest /\ ascending rest
  end.

Definition oldestFirst (d : Drone) : Prop :=
  ascending (projectiles d)
  /\ Forall (fun p => life p <= projectileTTL d) (projectiles d).

End DroneState.

(** The application as it starts over a scene with nothing in it, the
    terrain [centreTerrain] and no crosshair container. *)
Definition sampleApp : App.App :=
  App.mkApp appControls DroneCamera.new
            (mkCamera (mkVector3 0 0 (-1)) (mkVector3 0 10000 0))
            (Crosshair.mkCrosshair None).

(** * Proofs *)

(** ** Arithmetic helpers *)

(** Multiplication of fractions commutes on the nose, not only up to
    [==]. *)
Lemma Qmult_comm_eq (a b : Q) : a * b = b * a.
Proof.
  destruct a as [an ad], b as [bn bd]. unfold Qmult; simpl.
  f_equal; [apply Z.mul_comm | apply Pos.mul_comm].
Qed.

Lemma Qmax_cases (a b : Q) : (a <= b /\ Qmax a b = b) \/ (b <= a /\ Qmax a b = a).
Proof.
  unfold Qmax, GenericMinMax.gmax.
  destruct (a ?= b) eqn:E.
  - apply Qeq_alt in E. right. split; [lra | reflexivity].
  - apply Qlt_alt in E. left. split; [lra | reflexivity].
  - apply Qgt_alt in E. right. split; [lra | reflexivity].
Qed.

Lemma Qmin_cases (a b : Q) : (a <= b /\ Qmin a b = a) \/ (b <= a /\ Qmin a b = b).
Proof.
  unfold Qmin, GenericMinMax.gmin.
  destruct (a ?= b) eqn:E.
  - apply Qeq_alt in E. left. split; [lra | reflexivity].
  - apply Qlt_alt in E. left. split; [lra | reflexivity].
  - apply Qgt_alt in E. right. split; [lra | reflexivity].
Qed.

(** [Math.max(lo, Math.min(hi, v))] when [lo <= hi]. *)
Lemma clamp_range (lo hi v : Q) :
  lo <= hi -> lo <= Qmax lo (Qmin hi v) /\ Qmax lo (Qmin hi v) <= hi.
Proof.
  intros Hle.
  destruct (Qmin_cases hi v) as [[? ->] | [? ->]];
    [destruct (Qmax_cases lo hi) as [[? ->] | [? ->]]
    | destruct (Qmax_cases lo v) as [[? ->] | [? ->]]]; lra.
Qed.

Lemma clamp_floor (lo hi v : Q) : lo <= Qmax lo (Qmin hi v).
Proof. destruct (Qmax_cases lo (Qmin hi v)) as [[? ->] | [? ->]]; lra. Qed.

Lemma clamp_above (lo hi v : Q) : lo <= hi -> hi <= v -> Qmax lo (Qmin hi v) == hi.
Proof.
  intros Hle Hv.
  destruct (Qmin_cases hi v) as [[? ->] | [? ->]];
    [destruct (Qmax_cases lo hi) as [[? ->] | [? ->]]
    | destruct (Qmax_cases lo v) as [[? ->] | [? ->]]]; lra.
Qed.

Lemma clamp_below (lo hi v : Q) : lo <= hi -> v <= lo -> Qmax lo (Qmin hi v) == lo.
Proof.
  intros Hle Hv.
  destruct (Qmin_cases hi v) as [[? ->] | [? ->]];
    [destruct (Qmax_cases lo hi) as [[? ->] | [? ->]]
    | destruct (Qmax_cases lo v) as [[? ->] | [? ->]]]; lra.
Qed.

(** ** Floating point: rounding to nearest *)

Lemma two_neq_0 : ~ 2 == 0.
Proof. intros H; discriminate H. Qed.

Lemma pow2_pos (e : Z) : 0 < 2 ^ e.
Proof. apply Qpower_0_lt. reflexivity. Qed.

Lemma pow2_le (a b : Z) : (a <= b)%Z -> 2 ^ a <= 2 ^ b.
Proof. intros H. apply Qpower_le_compat_l; [exact H | discriminate]. Qed.

Lemma pow2_lt (a b : Z) : (a < b)%Z -> 2 ^ a < 2 ^ b.
Proof. intros H. apply Qpower_lt_compat_l; [exact H | reflexivity]. Qed.

Lemma pow2_Z (n : Z) : (0 <= n)%Z -> inject_Z (2 ^ n) == 2 ^ n.
Proof. intros H. apply (Zpower_Qpower 2 n H). Qed.

Lemma scaled (a : Q) (e : Z) : a / 2 ^ e * 2 ^ e == a.
Proof. field. apply Qpower_not_0. exact two_neq_0. Qed.

Lemma mul_le_pos (a b c : Q) : 0 <= c -> a <= b -> a * c <= b * c.
Proof. intros; nra. Qed.

Lemma mul_lt_pos (a b c : Q) : 0 < c -> a < b -> a * c < b * c.
Proof. intros; nra. Qed.

Lemma mul_le_cancel (a b c : Q) : 0 < c -> a * c <= b * c -> a <= b.
Proof. intros; nra. Qed.

Lemma mul_lt_cancel (a b c : Q) : 0 < c -> a * c < b * c -> a < b.
Proof. intros; nra. Qed.

(** The difference of the binary logarithms of numerator and denominator
    is within one of the binary logarithm of the fraction. *)
Lemma log2_bracket (a : Q) :
  0 < a ->
  let k := (Z.log2 (Qnum a) - Z.log2 (Zpos (Qden a)))%Z in
  2 ^ (k - 1) < a /\ a < 2 ^ (k + 1).
Proof.
  intros Ha k.
  destruct a as [n d]. cbn [Qnum Qden] in k.
  assert (Hn : (0 < n)%Z).
  { unfold Qlt in Ha. cbn in Ha. lia. }
  pose proof (Z.log2_spec n Hn) as [Hn1 Hn2].
  pose proof (Z.log2_spec (Zpos d) (Pos2Z.is_pos d)) as [Hd1 Hd2].
  pose proof (Z.log2_nonneg n) as Hln.
  pose proof (Z.log2_nonneg (Zpos d)) as Hld.
  set (ln := Z.log2 n) in *. set (ld := Z.log2 (Zpos d)) in *.
  assert (HN1 : 2 ^ ln <= inject_Z n).
  { rewrite <- pow2_Z by exact Hln. rewrite <- Zle_Qle. exact Hn1. }
  assert (HN2 : inject_Z n < 2 ^ (ln + 1)).
  { rewrite <- pow2_Z by lia. rewrite <- Zlt_Qlt. exact Hn2. }
  assert (HD1 : 2 ^ ld <= inject_Z (Zpos d)).
  { rewrite <- pow2_Z by exact Hld. rewrite <- Zle_Qle. exact Hd1. }
  assert (HD2 : inject_Z (Zpos d) < 2 ^ (ld + 1)).
  { rewrite <- pow2_Z by lia. rewrite <- Zlt_Qlt. exact Hd2. }
  assert (Hq : (n # d) * inject_Z (Zpos d) == inject_Z n).
  { rewrite (Qmake_Qdiv n d). field. intros H; discriminate H. }
  assert (HD0 : 0 < inject_Z (Zpos d)) by reflexivity.
  pose proof (pow2_pos (k + 1)) as Hpk1.
  assert (E1 : 2 ^ (k - 1) * 2 ^ (ld + 1) == 2 ^ ln).
  { rewrite <- Qpower_plus by exact two_neq_0.
    replace (k - 1 + (ld + 1))%Z with ln by (unfold k; lia). reflexivity. }
  assert (E2 : 2 ^ (k + 1) * 2 ^ ld == 2 ^ (ln + 1)).
  { rewrite <- Qpower_plus by exact two_neq_0.
    replace (k + 1 + ld)%Z with (ln + 1)%Z by (unfold k; lia). reflexivity. }
  split.
  - apply (mul_lt_cancel _ _ (inject_Z (Zpos d)) HD0).
    rewrite Hq.
    apply Qlt_le_trans with (2 ^ (k - 1) * 2 ^ (ld + 1)).
    + rewrite !(Qmult_comm (2 ^ (k - 1))). apply mul_lt_pos; [apply pow2_pos | assumption].
    + rewrite E1. exact HN1.
  - apply (mul_lt_cancel _ _ (inject_Z (Zpos d)) HD0).
    rewrite Hq.
    apply Qlt_le_trans with (2 ^ (ln + 1)); [exact HN2 |].
    rewrite <- E2. rewrite !(Qmult_comm (2 ^ (k + 1))).
    apply mul_le_pos; [apply Qlt_le_weak; exact Hpk1 | exact HD1].
Qed.

Lemma nearestEven_cases (q : Q) :
  let f := Qfloor q in
  let r := q - inject_Z f in
  0 <= r /\ r < 1 /\
  ((r < 1 # 2 /\ nearestEven q = f)
   \/ (1 # 2 < r /\ nearestEven q = (f + 1)%Z)
   \/ (r == 1 # 2 /\ nearestEven q = if Z.even f then f else (f + 1)%Z)).
Proof.
  pose proof (Qfloor_le q) as H1. pose proof (Qlt_floor q) as H2.
  rewrite inject_Z_plus in H2. change (inject_Z 1) with 1 in H2.
  unfold nearestEven. cbv zeta.
  set (f := Qfloor q) in *. set (r := q - inject_Z f) in *.
  split; [unfold r; lra |]. split; [unfold r; lra |].
  destruct (Qcompare r (1 # 2)) eqn:Hc.
  - right; right. apply Qeq_alt in Hc. split; [exact Hc | reflexivity].
  - left. apply Qlt_alt in Hc. split; [exact Hc | reflexivity].
  - right; left. apply Qgt_alt in Hc. split; [exact Hc | reflexivity].
Qed.

Lemma nearestEven_near (q : Q) :
  q - (1 # 2) <= inject_Z (nearestEven q) /\ inject_Z (nearestEven q) <= q + (1 # 2).
Proof.
  pose proof (nearestEven_cases q) as (H0 & H1 & H). cbv zeta in *.
  set (f := Qfloor q) in *.
  destruct H as [[Hr ->] | [[Hr ->] | [Hr ->]]].
  - lra.
  - rewrite inject_Z_plus. change (inject_Z 1) with 1. lra.
  - destruct (Z.even f).
    + lra.
    + rewrite inject_Z_plus. change (inject_Z 1) with 1. lra.
Qed.

Lemma nearestEven_mono (q1 q2 : Q) :
  q1 <= q2 -> (nearestEven q1 <= nearestEven q2)%Z.
Proof.
  intros Hq.
  pose proof (Qfloor_resp_le _ _ Hq) as Hf.
  pose proof (nearestEven_cases q1) as (A0 & A1 & A).
  pose proof (nearestEven_cases q2) as (B0 & B1 & B). cbv zeta in *.
  set (f1 := Qfloor q1) in *. set (f2 := Qfloor q2) in *.
  assert (L1 : (f1 <= nearestEven q1 <= f1 + 1)%Z).
  { destruct A as [[_ ->] | [[_ ->] | [_ ->]]]; [lia | lia |]. destruct (Z.even f1); lia. }
  assert (L2 : (f2 <= nearestEven q2 <= f2 + 1)%Z).
  { destruct B as [[_ ->] | [[_ ->] | [_ ->]]]; [lia | lia |]. destruct (Z.even f2); lia. }
  destruct (Z.eq_dec f1 f2) as [E | NE]; [| lia].
  rewrite <- E in *.
  destruct A as [[Ha ->] | [[Ha ->] | [Ha ->]]];
    destruct B as [[Hb ->] | [[Hb ->] | [Hb ->]]];
    try lia; try (exfalso; lra); destruct (Z.even f1); try lia; exfalso; lra.
Qed.

Lemma nearestEven_Z (m : Z) : nearestEven (inject_Z m) = m.
Proof.
  pose proof (nearestEven_cases (inject_Z m)) as (A0 & A1 & A). cbv zeta in *.
  rewrite Qfloor_Z in *.
  destruct A as [[_ ->] | [[Ha _] | [Ha _]]]; [reflexivity | exfalso; lra | exfalso; lra].
Qed.

Lemma nearestEven_comp (q1 q2 : Q) : q1 == q2 -> nearestEven q1 = nearestEven q2.
Proof.
  intros H.
  assert (H1 : q1 <= q2) by lra. assert (H2 : q2 <= q1) by lra.
  pose proof (nearestEven_mono q1 q2 H1).
  pose proof (nearestEven_mono q2 q1 H2). lia.
Qed.

Lemma Qabs_pos_eq (x : Q) : 0 < x -> Qabs x = x.
Proof.
  destruct x as [n d]. unfold Qlt, Qabs; cbn. intros H. f_equal. lia.
Qed.

Lemma Qabs_neg_eq (x : Q) : x < 0 -> Qabs x = - x.
Proof.
  destruct x as [n d]. unfold Qlt, Qabs, Qopp; cbn. intros H. f_equal. lia.
Qed.

Section RoundTo.

Variable p : Z.
Hypothesis Hp : (0 < p)%Z.

(** [a] lies in the binade of exponent [e]. *)
Let inBinade (e : Z) (a : Q) : Prop :=
  2 ^ (p - 1) * 2 ^ e <= a /\ a < 2 ^ p * 2 ^ e.

Lemma exponentOf_binade (a : Q) : 0 < a -> inBinade (exponentOf p a) a.
Proof.
  intros Ha. pose proof (log2_bracket a Ha) as [H1 H2]. cbv zeta in H1, H2.
  unfold exponentOf, inBinade.
  set (k := (Z.log2 (Qnum a) - Z.log2 (Zpos (Qden a)))%Z) in *.
  destruct (Qle_bool (2 ^ k) a) eqn:Hb.
  - apply Qle_bool_iff in Hb.
    rewrite <- !Qpower_plus by exact two_neq_0.
    replace (p - 1 + (k - (p - 1)))%Z with k by lia.
    replace (p + (k - (p - 1)))%Z with (k + 1)%Z by lia.
    split; assumption.
  - assert (Hlt : a < 2 ^ k).
    { apply Qnot_le_lt. intros Hc. apply Qle_bool_iff in Hc. congruence. }
    rewrite <- !Qpower_plus by exact two_neq_0.
    replace (p - 1 + (k - 1 - (p - 1)))%Z with (k - 1)%Z by lia.
    replace (p + (k - 1 - (p - 1)))%Z with k by lia.
    split; [apply Qlt_le_weak |]; assumption.
Qed.

Lemma binade_le (e e' : Z) (a b : Q) :
  inBinade e a -> inBinade e' b -> a <= b -> (e <= e')%Z.
Proof.
  intros [Ha1 Ha2] [Hb1 Hb2] Hab.
  destruct (Z_le_gt_dec e e') as [|Hgt]; [assumption | exfalso].
  assert (H : 2 ^ p * 2 ^ e' <= 2 ^ (p - 1) * 2 ^ e).
  { rewrite <- !Qpower_plus by exact two_neq_0. apply pow2_le. lia. }
  lra.
Qed.

Lemma binade_unique (e e' : Z) (a : Q) :
  inBinade e a -> inBinade e' a -> e = e'.
Proof.
  intros Ha Hb.
  assert (H : a <= a) by lra.
  pose proof (binade_le _ _ _ _ Ha Hb H).
  pose proof (binade_le _ _ _ _ Hb Ha H). lia.
Qed.

Lemma significand_range (a : Q) (e : Z) :
  inBinade e a ->
  (2 ^ (p - 1) <= nearestEven (a / 2 ^ e) <= 2 ^ p)%Z.
Proof.
  intros [H1 H2]. pose proof (pow2_pos e) as He.
  pose proof (scaled a e) as Hs.
  split.
  - rewrite <- (nearestEven_Z (2 ^ (p - 1))). apply nearestEven_mono.
    rewrite pow2_Z by lia.
    apply (mul_le_cancel _ _ (2 ^ e) He). lra.
  - rewrite <- (nearestEven_Z (2 ^ p)). apply nearestEven_mono.
    rewrite pow2_Z by lia.
    apply (mul_le_cancel _ _ (2 ^ e) He). lra.
Qed.

Lemma roundPos_range (a : Q) :
  0 < a ->
  let e := exponentOf p a in
  2 ^ (p - 1) * 2 ^ e <= roundPos p a /\ roundPos p a <= 2 ^ p * 2 ^ e.
Proof.
  intros Ha e. pose proof (exponentOf_binade a Ha) as Hb. fold e in Hb.
  pose proof (significand_range a e Hb) as [H1 H2].
  pose proof (pow2_pos e) as He.
  unfold roundPos. fold e. rewrite Qred_correct.
  rewrite Zle_Qle in H1, H2. rewrite pow2_Z in H1, H2 by lia.
  split; apply mul_le_pos; lra.
Qed.

Lemma roundPos_pos (a : Q) : 0 < a -> 0 < roundPos p a.
Proof.
  intros Ha. pose proof (roundPos_range a Ha) as [H _]. cbv zeta in H.
  pose proof (pow2_pos (p - 1)). pose proof (pow2_pos (exponentOf p a)).
  assert (0 < 2 ^ (p - 1) * 2 ^ exponentOf p a) by nra. lra.
Qed.

Lemma roundPos_near (a : Q) :
  0 < a ->
  a - a * 2 ^ (- p) <= roundPos p a /\ roundPos p a <= a + a * 2 ^ (- p).
Proof.
  intros Ha. pose proof (exponentOf_binade a Ha) as [Hb _].
  set (e := exponentOf p a) in *.
  pose proof (nearestEven_near (a / 2 ^ e)) as [N1 N2].
  pose proof (pow2_pos e) as He. pose proof (scaled a e) as Hs.
  unfold roundPos. fold e. rewrite Qred_correct.
  set (m := inject_Z (nearestEven (a / 2 ^ e))) in *.
  assert (Hu : (1 # 2) * 2 ^ e <= a * 2 ^ (- p)).
  { assert (E : 2 ^ (- p) * 2 ^ (p - 1) == 1 # 2).
    { rewrite <- Qpower_plus by exact two_neq_0.
      replace (- p + (p - 1))%Z with (-1)%Z by lia. reflexivity. }
    pose proof (pow2_pos (- p)) as Hpp.
    assert (2 ^ (- p) * (2 ^ (p - 1) * 2 ^ e) <= 2 ^ (- p) * a) by nra.
    assert (2 ^ (- p) * (2 ^ (p - 1) * 2 ^ e) == (1 # 2) * 2 ^ e).
    { rewrite Qmult_assoc, E. reflexivity. }
    lra. }
  assert (M1 : (a / 2 ^ e - (1 # 2)) * 2 ^ e <= m * 2 ^ e) by (apply mul_le_pos; lra).
  assert (M2 : m * 2 ^ e <= (a / 2 ^ e + (1 # 2)) * 2 ^ e) by (apply mul_le_pos; lra).
  split; lra.
Qed.

Lemma roundPos_mono (a b : Q) : 0 < a -> a <= b -> roundPos p a <= roundPos p b.
Proof.
  intros Ha Hab. assert (Hb : 0 < b) by lra.
  pose proof (exponentOf_binade a Ha) as Ba.
  pose proof (exponentOf_binade b Hb) as Bb.
  pose proof (binade_le _ _ _ _ Ba Bb Hab) as Hle.
  pose proof (roundPos_range a Ha) as [_ Ra].
  pose proof (roundPos_range b Hb) as [Rb _]. cbv zeta in Ra, Rb.
  set (ea := exponentOf p a) in *. set (eb := exponentOf p b) in *.
  destruct (Z.eq_dec ea eb) as [E | NE].
  - unfold roundPos. fold ea eb. rewrite <- E. rewrite !Qred_correct.
    pose proof (pow2_pos ea) as He.
    apply mul_le_pos; [lra |]. rewrite <- Zle_Qle. apply nearestEven_mono.
    apply (mul_le_cancel _ _ (2 ^ ea) He). rewrite !scaled. exact Hab.
  - assert (H : 2 ^ p * 2 ^ ea <= 2 ^ (p - 1) * 2 ^ eb).
    { rewrite <- !Qpower_plus by exact two_neq_0. apply pow2_le. lia. }
    lra.
Qed.

Lemma roundPos_idem (a : Q) : 0 < a -> roundPos p (roundPos p a) == roundPos p a.
Proof.
  intros Ha. pose proof (roundPos_pos a Ha) as Hy.
  pose proof (roundPos_range a Ha) as [R1 R2]. cbv zeta in R1, R2.
  pose proof (exponentOf_binade _ Hy) as By.
  set (y := roundPos p a) in *. set (e := exponentOf p a) in *.
  set (e' := exponentOf p y) in *.
  destruct (Qlt_le_dec y (2 ^ p * 2 ^ e)) as [Hlt | Hge].
  - assert (E : e' = e) by (apply (binade_unique e' e y By); split; assumption).
    unfold roundPos at 1. fold y. fold e'. rewrite E. rewrite Qred_correct.
    assert (Hq : y / 2 ^ e == inject_Z (nearestEven (a / 2 ^ e))).
    { unfold y, roundPos. fold e. rewrite Qred_correct.
      field. apply Qpower_not_0, two_neq_0. }
    rewrite (nearestEven_comp _ _ Hq), nearestEven_Z.
    unfold y, roundPos. fold e. rewrite Qred_correct. reflexivity.
  - assert (Hy2 : y == 2 ^ p * 2 ^ e) by lra.
    assert (Hs : 2 ^ p * 2 ^ e == 2 ^ (p - 1) * 2 ^ (e + 1)).
    { rewrite <- !Qpower_plus by exact two_neq_0.
      replace (p - 1 + (e + 1))%Z with (p + e)%Z by lia. reflexivity. }
    assert (E : e' = (e + 1)%Z).
    { apply (binade_unique e' (e + 1) y By).
      split; [lra |]. rewrite Hy2, Hs.
      apply mul_lt_pos; [apply pow2_pos | apply pow2_lt; lia]. }
    unfold roundPos at 1. fold y. fold e'. rewrite E. rewrite Qred_correct.
    assert (Hq : y / 2 ^ (e + 1) == inject_Z (2 ^ (p - 1))).
    { rewrite pow2_Z by lia.
      assert (Hx : 2 ^ (p - 1) * 2 ^ (e + 1) / 2 ^ (e + 1) == 2 ^ (p - 1)).
      { field. apply Qpower_not_0, two_neq_0. }
      rewrite <- Hx. rewrite Hy2, Hs. reflexivity. }
    rewrite (nearestEven_comp _ _ Hq), nearestEven_Z.
    rewrite pow2_Z by lia. lra.
Qed.

Lemma roundTo_cases (x : Q) :
  (x == 0 /\ roundTo p x = 0)
  \/ (0 < x /\ roundTo p x = roundPos p x)
  \/ (x < 0 /\ roundTo p x = - roundPos p (- x)).
Proof.
  unfold roundTo.
  destruct (Qeq_bool x 0) eqn:E.
  - apply Qeq_bool_iff in E. left. split; [exact E | reflexivity].
  - assert (Hne : ~ x == 0).
    { intros Hc. apply Qeq_bool_iff in Hc. congruence. }
    destruct (Qlt_le_dec x 0) as [H | H].
    + right; right. split; [exact H |]. rewrite (Qabs_neg_eq x H). reflexivity.
    + assert (H' : 0 < x).
      { destruct (Qlt_le_dec 0 x) as [? | Hle]; [assumption |].
        exfalso. apply Hne. lra. }
      right; left. split; [exact H' |]. rewrite (Qabs_pos_eq x H'). reflexivity.
Qed.

Lemma roundoff_range : 0 < 2 ^ (- p) /\ 2 ^ (- p) < 1.
Proof.
  split; [apply pow2_pos |].
  change 1 with (2 ^ 0). apply pow2_lt. lia.
Qed.

Lemma roundTo_near_pos (x : Q) :
  0 <= x -> x * (1 - 2 ^ (- p)) <= roundTo p x /\ roundTo p x <= x * (1 + 2 ^ (- p)).
Proof.
  intros Hx. destruct (roundTo_cases x) as [[H ->] | [[H ->] | [H _]]].
  - pose proof roundoff_range. nra.
  - pose proof (roundPos_near x H). lra.
  - exfalso; lra.
Qed.

Lemma roundTo_near_neg (x : Q) :
  x <= 0 -> x * (1 + 2 ^ (- p)) <= roundTo p x /\ roundTo p x <= x * (1 - 2 ^ (- p)).
Proof.
  intros Hx. destruct (roundTo_cases x) as [[H ->] | [[H _] | [H ->]]].
  - pose proof roundoff_range. nra.
  - exfalso; lra.
  - assert (H' : 0 < - x) by lra. pose proof (roundPos_near (- x) H'). lra.
Qed.

Lemma roundTo_mono (x y : Q) : x <= y -> roundTo p x <= roundTo p y.
Proof.
  intros Hxy.
  destruct (roundTo_cases x) as [[Hx ->] | [[Hx ->] | [Hx ->]]];
    destruct (roundTo_cases y) as [[Hy ->] | [[Hy ->] | [Hy ->]]];
    try (exfalso; lra); try lra.
  - pose proof (roundPos_pos y Hy). lra.
  - apply roundPos_mono; assumption.
  - assert (H' : 0 < - x) by lra. pose proof (roundPos_pos _ H'). lra.
  - assert (H' : 0 < - x) by lra. pose proof (roundPos_pos _ H').
    pose proof (roundPos_pos y Hy). lra.
  - assert (H' : 0 < - y) by lra. assert (H2 : - y <= - x) by lra.
    pose proof (roundPos_mono (- y) (- x) H' H2). lra.
Qed.

Lemma roundTo_idem (x : Q) : roundTo p (roundTo p x) == roundTo p x.
Proof.
  destruct (roundTo_cases x) as [[Hx ->] | [[Hx ->] | [Hx ->]]].
  - reflexivity.
  - pose proof (roundPos_pos x Hx) as Hy.
    destruct (roundTo_cases (roundPos p x)) as [[H _] | [[_ ->] | [H _]]];
      [exfalso; lra | | exfalso; lra].
    apply roundPos_idem; assumption.
  - assert (H' : 0 < - x) by lra. pose proof (roundPos_pos _ H') as Hy.
    destruct (roundTo_cases (- roundPos p (- x))) as [[H _] | [[H _] | [_ ->]]];
      [exfalso; lra | exfalso; lra |].
    assert (E : roundPos p (- - roundPos p (- x)) == roundPos p (roundPos p (- x))).
    { apply Qle_antisym; apply roundPos_mono; lra. }
    rewrite E. rewrite (roundPos_idem _ H'). reflexivity.
Qed.

(** The rounded value is on the grid of [p]-bit significands and within
    half a unit in the last place of the number rounded. *)
Lemma roundPos_grid (a : Q) :
  0 < a ->
  let e := exponentOf p a in
  let m := nearestEven (a / 2 ^ e) in
  roundPos p a == inject_Z m * 2 ^ e
  /\ (0 <= m <= 2 ^ p)%Z
  /\ a - (1 # 2) * 2 ^ e <= roundPos p a
  /\ roundPos p a <= a + (1 # 2) * 2 ^ e.
Proof.
  intros Ha e m. pose proof (exponentOf_binade a Ha) as Hb. fold e in Hb.
  pose proof (significand_range a e Hb) as [H1 H2]. fold m in H1, H2.
  pose proof (nearestEven_near (a / 2 ^ e)) as [N1 N2]. fold m in N1, N2.
  pose proof (pow2_pos e) as He. pose proof (scaled a e) as Hs.
  assert (Hm : (0 <= 2 ^ (p - 1))%Z) by (apply Z.pow_nonneg; lia).
  unfold roundPos. fold e. fold m. rewrite Qred_correct.
  split; [reflexivity |]. split; [lia |].
  assert (M1 : (a / 2 ^ e - (1 # 2)) * 2 ^ e <= inject_Z m * 2 ^ e)
    by (apply mul_le_pos; lra).
  assert (M2 : inject_Z m * 2 ^ e <= (a / 2 ^ e + (1 # 2)) * 2 ^ e)
    by (apply mul_le_pos; lra).
  split; lra.
Qed.

Lemma roundTo_grid (x : Q) :
  exists m e,
    roundTo p x == inject_Z m * 2 ^ e
    /\ (Z.abs m <= 2 ^ p)%Z
    /\ x - (1 # 2) * 2 ^ e <= roundTo p x
    /\ roundTo p x <= x + (1 # 2) * 2 ^ e.
Proof.
  destruct (roundTo_cases x) as [[Hx ->] | [[Hx ->] | [Hx ->]]].
  - exists 0%Z, 0%Z. change (2 ^ 0) with 1.
    split; [reflexivity |]. split; [| split; lra].
    change (Z.abs 0) with 0%Z. apply Z.pow_nonneg. lia.
  - destruct (roundPos_grid x Hx) as (E & Hm & L1 & L2). cbv zeta in *.
    exists (nearestEven (x / 2 ^ exponentOf p x)), (exponentOf p x).
    split; [exact E |]. split; [lia |]. split; assumption.
  - assert (H' : 0 < - x) by lra.
    destruct (roundPos_grid (- x) H') as (E & Hm & L1 & L2). cbv zeta in *.
    exists (- nearestEven (- x / 2 ^ exponentOf p (- x)))%Z, (exponentOf p (- x)).
    split; [rewrite E, inject_Z_opp; ring |]. split; [lia |]. split; lra.
Qed.

(** Rounding to [p] bits has the properties the proofs rely on, with
    unit roundoff [2 ^ (- p)]. *)
Lemma roundTo_faithful : Faithful {| rnd := roundTo p |} (2 ^ (- p)).
Proof.
  pose proof roundoff_range as [H0 H1].
  constructor; cbn [rnd].
  - lra.
  - exact H1.
  - exact roundTo_near_pos.
  - exact roundTo_near_neg.
  - exact roundTo_mono.
  - exact roundTo_idem.
Qed.

End RoundTo.

(** Double precision is rounding to nearest with unit roundoff 2^-53. *)
Lemma binary64_faithful : Faithful binary64 (2 ^ (-53)).
Proof. apply (roundTo_faithful 53). reflexivity. Qed.

Lemma unrounded_faithful : Faithful unrounded 0.
Proof.
  constructor; cbn [rnd unrounded]; intros; try lra; try reflexivity; split; lra.
Qed.

(** Single precision keeps the order, and keeps 1 and -1. *)
Lemma round32_mono (x y : Q) : x <= y -> round32 x <= round32 y.
Proof. apply (roundTo_mono 24). reflexivity. Qed.

Lemma round32_one : round32 1 == 1.
Proof. reflexivity. Qed.

Lemma round32_minus_one : round32 (-1) == -1.
Proof. reflexivity. Qed.

(** ** Terrain: the height sampler *)

(** C7.  For every noise object and every (x, z), [getTerrainHeight] is
    the two-step formula of the height sampler: the unwarped coordinates
    are warped with noise at frequency 0.001, amplitude 128 and layer 50
    for x, 100 for z; the result is the plain sum, over the octave list
    (0.002, 100), (0.01, 25), (0.05, 5), of amplitude times the noise of
    the warped coordinates scaled by the octave's frequency, at layer 0. *)
Theorem getTerrainHeight_is_height_sampler (n : ImprovedNoise) (x z : Q) :
  getTerrainHeight x z n = HeightSampler.height n x z.
Proof.
  unfold getTerrainHeight, HeightSampler.height, HeightSampler.sumOctaves,
    HeightSampler.warp, HeightSampler.octaves, HeightSampler.warpX, HeightSampler.warpZ.
  cbn [foldl HeightSampler.amplitude HeightSampler.frequencyScale
       HeightSampler.warpFreq HeightSampler.warpAmp HeightSampler.warpLayer].
  rewrite !(Qmult_comm_eq 128), (Qmult_comm_eq 100), (Qmult_comm_eq 25),
    (Qmult_comm_eq 5).
  reflexivity.
Qed.

(** ** Terrain: the elevation classifier *)

Section Classifier.

Import ColorVariables TerrainVariables ElevationClassifier.

Ltac unfold_heights :=
  unfold terrainHeight_m50, terrainHeight_m40, terrainHeight_m30, terrainHeight_m20,
    terrainHeight_m10, terrainHeight_0, terrainHeight_p10, terrainHeight_p20,
    terrainHeight_p30, terrainHeight_p40, terrainHeight_p50, terrainHeight_p60,
    terrainHeight_p70, terrainHeight_p80, terrainHeight_p90 in *.

(** The lookup returns the bucket at the index it stops at, whatever the
    table. *)
Lemma classifyIn_firstMatch (t : list (Q * Z)) (h : Q) :
  classifyIn t h =
  match t !! firstMatch t h with Some (_, c) => c | None => catchAll end.
Proof.
  induction t as [| [b c] rest IH]; simpl; [reflexivity |].
  case_decide; [reflexivity | exact IH].
Qed.

(** Every bound before the stopping index was missed: first match. *)
Lemma firstMatch_skips (t : list (Q * Z)) (h : Q) (j : nat) (b : Q) (c : Z) :
  (j < firstMatch t h)%nat -> t !! j = Some (b, c) -> b < h.
Proof.
  revert j. induction t as [| [b0 c0] rest IH]; intros j Hj Hl; simpl in *; [lia |].
  case_decide as Hd; [lia |].
  destruct j as [| j]; simpl in Hl.
  - injection Hl as -> _. apply Qnot_le_lt. exact Hd.
  - apply (IH j); [lia | exact Hl].
Qed.

Lemma inBand_le (h : Q) (i : nat) : inBand i h -> (i <= length table)%nat.
Proof.
  intros [_ Hhi]. destruct (table !! i) as [[b c] |] eqn:E.
  - apply lookup_lt_Some in E. lia.
  - lia.
Qed.

Lemma inBand_firstMatch (h : Q) : inBand (firstMatch table h) h.
Proof.
  unfold firstMatch, table, inBand.
  repeat case_decide; simpl; unfold_heights; split; first [exact I | reflexivity | lra].
Qed.

Lemma classify_band (h : Q) (i : nat) : inBand i h -> classify h = bucketAt i.
Proof.
  intros Hb. pose proof (inBand_le _ _ Hb) as Hi. destruct Hb as [Hlo Hhi].
  do 16 (destruct i as [| i];
    [ unfold classify, classifyIn, table; simpl in Hlo, Hhi; unfold_heights;
      repeat (case_decide; [try reflexivity; exfalso; lra |]);
      try reflexivity; exfalso; lra |]).
  simpl in Hi. lia.
Qed.

(** The sixteen buckets are pairwise different. *)
Lemma bucketAt_inj (i j : nat) :
  (i <= length table)%nat -> (j <= length table)%nat -> bucketAt i = bucketAt j -> i = j.
Proof.
  intros Hi Hj.
  do 16 (destruct i as [| i];
    [ do 16 (destruct j as [| j];
        [ vm_compute; first [reflexivity | discriminate] |]);
      simpl in Hj; lia |]).
  simpl in Hi; lia.
Qed.

(** C8.  Elevation classification: the colour chain of the constructor is
    the first-match lookup over the ordered table of inclusive upper
    bounds; every height lies in exactly one band and gets that band's
    bucket; a height equal to a threshold gets the bucket of that
    threshold (the lower one); a height above the last threshold gets the
    catch-all bucket; and a vertex gets the water surface parameters
    exactly when its height is at most 0. *)
Theorem classification_first_match (h : Q) :
  Terrain.hex h = classify h
  /\ (exists i, inBand i h /\ Terrain.hex h = bucketAt i
                /\ forall j, inBand j h -> j = i)
  /\ (forall j b c, (j < firstMatch table h)%nat -> table !! j = Some (b, c) -> b < h)
  /\ (forall i b c, table !! i = Some (b, c) -> Terrain.hex b = c)
  /\ (terrainHeight_p90 < h -> Terrain.hex h = catchAll)
  /\ (Terrain.surface h = (waterMetalness, waterRoughness) <-> h <= 0)
  /\ (Terrain.surface h = (landMetalness, landRoughness) <-> 0 < h)
  /\ (isSubmerged h = true <-> h <= 0).
Proof.
  assert (Hhex : forall q, Terrain.hex q = classify q) by reflexivity.
  split; [apply Hhex |].
  split.
  { exists (firstMatch table h). split; [apply inBand_firstMatch |].
    split; [rewrite Hhex; apply classify_band, inBand_firstMatch |].
    intros j Hj. apply bucketAt_inj.
    - apply (inBand_le h), Hj.
    - apply (inBand_le h), inBand_firstMatch.
    - rewrite <- (classify_band h j Hj).
      apply classify_band, inBand_firstMatch. }
  split; [intros j b c; apply firstMatch_skips |].
  split.
  { intros i b c Hi. rewrite Hhex.
    rewrite (classify_band b i).
    - unfold bucketAt. rewrite Hi. reflexivity.
    - do 15 (destruct i as [| i];
        [ injection Hi as <- _; unfold inBand, table; simpl; unfold_heights;
          split; first [exact I | lra] |]).
      discriminate Hi. }
  split.
  { intros Hh. rewrite Hhex. apply (classify_band h 15).
    unfold inBand, table; simpl. split; [exact Hh | reflexivity]. }
  unfold Terrain.surface, isSubmerged.
  split; [| split].
  - case_decide; split; intros Hs; try assumption; try reflexivity.
    + discriminate Hs.
    + contradiction.
  - case_decide; split; intros Hs; try reflexivity.
    + discriminate Hs.
    + lra.
    + lra.
  - apply bool_decide_eq_true.
Qed.

(** The classifier at a threshold, between two thresholds and above the
    table. *)
Lemma classification_first_match_witness :
  Terrain.hex 10 = terrainColor_p10
  /\ Terrain.hex 95 = catchAll
  /\ Terrain.surface 0 = (waterMetalness, waterRoughness).
Proof.
  split; [| split].
  - apply (proj1 (proj2 (proj2 (proj2 (classification_first_match 0)))) 6%nat).
    reflexivity.
  - apply (proj1 (proj2 (proj2 (proj2 (proj2 (classification_first_match 95)))))).
    unfold terrainHeight_p90. lra.
  - apply (proj1 (proj2 (proj2 (proj2 (proj2 (proj2 (classification_first_match 0))))))).
    lra.
Defined.

End Classifier.

(** ** Terrain: the heightmap loop of the constructor *)

Section Heightmap.

Context `{THREE.Color}.

Variable n : ImprovedNoise.
Variable geometry : list Vector3.

Let start : Terrain.Attributes :=
  Terrain.mkAttributes geometry [] [] [].

Lemma heightmapStep_Some (i : nat) (a : Terrain.Attributes) (v : Vector3) :
  Terrain.pos a !! i = Some v ->
  Terrain.heightmapStep n i a =
  let h := getTerrainHeight (vx v) (vz v) n in
  Terrain.mkAttributes (<[i := Terrain.place n v]> (Terrain.pos a))
                       (Terrain.colors a ++ Terrain.vertexColor n v)
                       (Terrain.metalnessAttr a ++ [fst (Terrain.surface h)])
                       (Terrain.roughnessAttr a ++ [snd (Terrain.surface h)]).
Proof.
  unfold Terrain.heightmapStep, Terrain.setY. intros ->. reflexivity.
Qed.

(** After [k] passes the first [k] vertices are placed and the others are
    as the geometry gave them. *)
Lemma heightmap_pos (k : nat) :
  (k <= length geometry)%nat ->
  forall i, Terrain.pos (forUpTo k (Terrain.heightmapStep n) start) !! i =
            if decide (i < k)%nat then Terrain.place n <$> geometry !! i
            else geometry !! i.
Proof.
  induction k as [| k IH]; intros Hk i.
  - cbn [forUpTo]. destruct (decide (i < 0)%nat); [lia | reflexivity].
  - assert (Hk' : (k <= length geometry)%nat) by lia.
    specialize (IH Hk'). cbn [forUpTo].
    destruct (lookup_lt_is_Some_2 geometry k) as [v Hv]; [lia |].
    pose proof (IH k) as Hkk. rewrite decide_False, Hv in Hkk by lia.
    rewrite (heightmapStep_Some _ _ _ Hkk). cbn [Terrain.pos].
    destruct (decide (i = k)) as [-> | Hne].
    + rewrite list_lookup_insert_eq.
      * rewrite decide_True by lia. rewrite Hv. reflexivity.
      * apply lookup_lt_is_Some. rewrite Hkk. eauto.
    + rewrite list_lookup_insert_ne by congruence. rewrite IH.
      repeat case_decide; try lia; reflexivity.
Qed.

(** The colour and surface arrays after [k] passes. *)
Lemma heightmap_attrs (k : nat) :
  (k <= length geometry)%nat ->
  Terrain.colors (forUpTo k (Terrain.heightmapStep n) start)
  = concat (map (Terrain.vertexColor n) (take k geometry))
  /\ Terrain.metalnessAttr (forUpTo k (Terrain.heightmapStep n) start)
     = map (fun v => fst (Terrain.surface (getTerrainHeight (vx v) (vz v) n)))
           (take k geometry)
  /\ Terrain.roughnessAttr (forUpTo k (Terrain.heightmapStep n) start)
     = map (fun v => snd (Terrain.surface (getTerrainHeight (vx v) (vz v) n)))
           (take k geometry).
Proof.
  induction k as [| k IH]; intros Hk; cbn [forUpTo].
  - rewrite take_0. auto.
  - assert (Hk' : (k <= length geometry)%nat) by lia.
    destruct (IH Hk') as (Hc & Hm & Hr).
    destruct (lookup_lt_is_Some_2 geometry k) as [v Hv]; [lia |].
    pose proof (heightmap_pos k Hk' k) as Hkk.
    rewrite decide_False, Hv in Hkk by lia.
    rewrite (heightmapStep_Some _ _ _ Hkk).
    cbn [Terrain.colors Terrain.metalnessAttr Terrain.roughnessAttr].
    rewrite (take_S_r _ _ _ Hv), !map_app, Hc, Hm, Hr.
    rewrite concat_app. cbn [map concat]. rewrite app_nil_r. auto.
Qed.

Lemma meshHeight_new (i : nat) (v : Vector3) :
  geometry !! i = Some v ->
  Terrain.meshHeight (Terrain.new n geometry) i =
  Some (round32 (Terrain.fixedHeight (getTerrainHeight (vx v) (vz v) n))).
Proof.
  intros Hv. unfold Terrain.meshHeight, Terrain.new; simpl.
  fold start. rewrite heightmap_pos by lia.
  rewrite decide_True by (apply lookup_lt_Some in Hv; lia).
  rewrite Hv. reflexivity.
Qed.

End Heightmap.

Lemma fixedHeight_cases (h : Q) :
  (h <= -1 /\ Terrain.fixedHeight h = h)
  \/ (-1 < h /\ h < 0 /\ Terrain.fixedHeight h = -1)
  \/ (0 <= h /\ h < 1 /\ Terrain.fixedHeight h = 1)
  \/ (1 <= h /\ Terrain.fixedHeight h = h).
Proof.
  unfold Terrain.fixedHeight.
  destruct (decide (-1 < h)) as [H1 | H1], (decide (h < 0)) as [H2 | H2],
    (decide (0 <= h)) as [H3 | H3], (decide (h < 1)) as [H4 | H4];
    rewrite ?(bool_decide_eq_true_2 _ H1), ?(bool_decide_eq_false_2 _ H1),
      ?(bool_decide_eq_true_2 _ H2), ?(bool_decide_eq_false_2 _ H2),
      ?(bool_decide_eq_true_2 _ H3), ?(bool_decide_eq_false_2 _ H3),
      ?(bool_decide_eq_true_2 _ H4), ?(bool_decide_eq_false_2 _ H4); simpl;
    first [ left; split; [lra | reflexivity]
          | right; left; split; [lra | split; [lra | reflexivity]]
          | right; right; left; split; [lra | split; [lra | reflexivity]]
          | right; right; right; split; [lra | reflexivity]
          | exfalso; lra ].
Qed.

(** C1, as amended.  The Y coordinate written into the mesh at a grid
    point is the single-precision rounding of the height normalisation
    [fixedHeight] applied to the height the collision path reads at the
    same (x, z).  It is -1 for heights strictly between -1 and 0 and 1
    for heights from 0 up to, not including, 1; for every other height it
    is that height rounded to single precision, which is within a
    relative error of 2^-24 of it.  The collision path uses the height
    unchanged, so the two agree exactly when the height is at most -1 or
    at least 1 and is itself a single-precision number. *)
Theorem mesh_height_is_fixed_ground_height `{THREE.Color}
  (n : ImprovedNoise) (geometry : list Vector3) (i : nat) (v : Vector3)
  (c : DroneControls.DroneControls) (g : Group) :
  geometry !! i = Some v ->
  DroneControls.terrain c = Terrain.new n geometry ->
  vx (position g) = vx v -> vz (position g) = vz v ->
  let gh := DroneControls.groundHeight c g in
  gh = getTerrainHeight (vx v) (vz v) n
  /\ Terrain.meshHeight (DroneControls.terrain c) i
     = Some (round32 (Terrain.fixedHeight gh))
  /\ (-1 < gh -> gh < 0 -> round32 (Terrain.fixedHeight gh) == -1)
  /\ (0 <= gh -> gh < 1 -> round32 (Terrain.fixedHeight gh) == 1)
  /\ (gh <= -1 \/ 1 <= gh -> round32 (Terrain.fixedHeight gh) = round32 gh)
  /\ (1 <= gh -> gh * (1 - 2 ^ (-24)) <= round32 gh <= gh * (1 + 2 ^ (-24)))
  /\ (gh <= -1 -> gh * (1 + 2 ^ (-24)) <= round32 gh <= gh * (1 - 2 ^ (-24)))
  /\ (round32 (Terrain.fixedHeight gh) == gh
      <-> (gh <= -1 \/ 1 <= gh) /\ round32 gh == gh)
  /\ (exists m e,
        round32 (Terrain.fixedHeight gh) == inject_Z m * 2 ^ e
        /\ (Z.abs m <= 2 ^ 24)%Z
        /\ Terrain.fixedHeight gh - (1 # 2) * 2 ^ e <= round32 (Terrain.fixedHeight gh)
        /\ round32 (Terrain.fixedHeight gh) <= Terrain.fixedHeight gh + (1 # 2) * 2 ^ e).
Proof.
  intros Hv Ht Hx Hz gh.
  assert (Hgh : gh = getTerrainHeight (vx v) (vz v) n).
  { unfold gh, DroneControls.groundHeight. rewrite Ht, Hx, Hz. reflexivity. }
  split; [exact Hgh |].
  split; [rewrite Ht, Hgh; apply meshHeight_new, Hv |].
  clearbody gh. clear Hgh.
  assert (Hp : (0 < 24)%Z) by reflexivity.
  pose proof round32_one as H1. pose proof round32_minus_one as Hm1.
  pose proof (roundTo_grid 24 Hp (Terrain.fixedHeight gh)) as Hgrid.
  fold round32 in Hgrid. revert Hgrid.
  generalize (exists m e,
        round32 (Terrain.fixedHeight gh) == inject_Z m * 2 ^ e
        /\ (Z.abs m <= 2 ^ 24)%Z
        /\ Terrain.fixedHeight gh - (1 # 2) * 2 ^ e <= round32 (Terrain.fixedHeight gh)
        /\ round32 (Terrain.fixedHeight gh) <= Terrain.fixedHeight gh + (1 # 2) * 2 ^ e).
  intros G HG.
  cut ((-1 < gh -> gh < 0 -> round32 (Terrain.fixedHeight gh) == -1)
  /\ (0 <= gh -> gh < 1 -> round32 (Terrain.fixedHeight gh) == 1)
  /\ (gh <= -1 \/ 1 <= gh -> round32 (Terrain.fixedHeight gh) = round32 gh)
  /\ (1 <= gh -> gh * (1 - 2 ^ (-24)) <= round32 gh <= gh * (1 + 2 ^ (-24)))
  /\ (gh <= -1 -> gh * (1 + 2 ^ (-24)) <= round32 gh <= gh * (1 - 2 ^ (-24)))
  /\ (round32 (Terrain.fixedHeight gh) == gh
      <-> (gh <= -1 \/ 1 <= gh) /\ round32 gh == gh)).
  { intros (A & B & C & D & E & F). repeat (split; [assumption |]). exact HG. }
  clear G HG.
  destruct (fixedHeight_cases gh) as [[? ->] | [(? & ? & ->) | [(? & ? & ->) | [? ->]]]].
  - split; [intros; exfalso; lra |]. split; [intros; exfalso; lra |].
    split; [reflexivity |]. split; [intros; exfalso; lra |].
    split; [intros _; apply (roundTo_near_neg 24 Hp); lra |].
    split; [intros Hq; split; [left |]; assumption | intros [_ Hq]; exact Hq].
  - split; [intros; exact Hm1 |]. split; [intros; exfalso; lra |].
    split; [intros [? | ?]; exfalso; lra |]. split; [intros; exfalso; lra |].
    split; [intros; exfalso; lra |].
    split; [intros Hq; exfalso; lra | intros [[? | ?] _]; exfalso; lra].
  - split; [intros; exfalso; lra |]. split; [intros; exact H1 |].
    split; [intros [? | ?]; exfalso; lra |]. split; [intros; exfalso; lra |].
    split; [intros; exfalso; lra |].
    split; [intros Hq; exfalso; lra | intros [[? | ?] _]; exfalso; lra].
  - split; [intros; exfalso; lra |]. split; [intros; exfalso; lra |].
    split; [reflexivity |].
    split; [intros _; apply (roundTo_near_pos 24 Hp); lra |].
    split; [intros; exfalso; lra |].
    split; [intros Hq; split; [right |]; assumption | intros [_ Hq]; exact Hq].
Qed.

(** C1, the claim as stated, fails at the centre of the grid: the noise is
    0 there, so the collision path reads height 0 while the mesh vertex is
    written at height 1. *)
Lemma mesh_is_not_height_field :
  ~ @Terrain.meshIsHeightField byteColor flatNoise [origin].
Proof.
  intros Hc. destruct (Hc 0%nat origin eq_refl) as [y [Hy Hq]].
  vm_compute in Hy. injection Hy as <-.
  vm_compute in Hq. discriminate Hq.
Qed.

(** Over ground of height 65 + 130 * 2^-30 the vertex is stored at 65,
    the nearest single-precision number. *)
Lemma mesh_height_is_fixed_ground_height_witness :
  DroneControls.groundHeight hillControls (Drone.group appDrone)
  == 65 + 130 * (1 # 1073741824)
  /\ Terrain.meshHeight (DroneControls.terrain hillControls) 0
     = Some (round32 (Terrain.fixedHeight
                        (DroneControls.groundHeight hillControls (Drone.group appDrone))))
  /\ round32 (Terrain.fixedHeight
                (DroneControls.groundHeight hillControls (Drone.group appDrone)))
     == 65.
Proof.
  split; [vm_compute; reflexivity |].
  split; [| vm_compute; reflexivity].
  apply (proj1 (proj2 (@mesh_height_is_fixed_ground_height byteColor
                         hillNoise [origin] 0 origin hillControls (Drone.group appDrone)
                         eq_refl eq_refl eq_refl eq_refl))).
Defined.

(** The single-precision number nearest to the double 15.99 is
    8383365 / 524288 = 15.98999977111816..., and rounding it again
    changes nothing. *)
Lemma round32_sample :
  round32 (round64 15.99) == 8383365 # 524288
  /\ round32 (8383365 # 524288) == 8383365 # 524288
  /\ round64 0.1 == 3602879701896397 # 36028797018963968.
Proof. repeat split; vm_compute; reflexivity. Qed.

(** ** Flight: the clamps of [applyInput] *)

Section Flight.

Context `{Object3D}.

Import DroneControls.

(** The position [applyInput] leaves the drone at, in terms of the group
    the key handling produced. *)
Lemma applyInput_position (dt : Q) (c : DroneControls) :
  let g := applyKeys dt c in
  let x := Qmax (- half c) (Qmin (half c) (vx (position g))) in
  let z := Qmax (- half c) (Qmin (half c) (vz (position g))) in
  let floor := Qmax DroneVariables.nullPoint
                    (getTerrainHeight x z (Terrain.terrainNoise (terrain c))
                     + DroneVariables.minAboveGround) in
  dronePosition (applyInput dt c)
  = mkVector3 x (Qmax floor (Qmin (heightMax c) (vy (position g)))) z.
Proof. reflexivity. Qed.

(** [applyInput] changes nothing but the drone's group. *)
Lemma applyInput_config (dt : Q) (c : DroneControls) :
  worldSize (applyInput dt c) = worldSize c
  /\ heightMax (applyInput dt c) = heightMax c
  /\ terrain (applyInput dt c) = terrain c
  /\ keys (applyInput dt c) = keys c.
Proof. repeat split. Qed.

Lemma half_applyInput (dt : Q) (c : DroneControls) : half (applyInput dt c) = half c.
Proof. reflexivity. Qed.

Lemma half_value (c : DroneControls) : half c == worldSize c * (8 # 17).
Proof.
  unfold half, TerrainVariables.terrainBorderFactor,
    TerrainVariables.terrainBorderDelimiter.
  field.
Qed.

Lemma half_nonneg (c : DroneControls) : 0 <= worldSize c -> - half c <= half c.
Proof. intros Hw. pose proof (half_value c). lra. Qed.

(** Without a translation key the key handling leaves x and z alone. *)
Lemma applyKeys_no_translation (dt : Q) (c : DroneControls) :
  key c "KeyW" = false -> key c "KeyS" = false ->
  key c "KeyQ" = false -> key c "KeyE" = false ->
  vx (position (applyKeys dt c)) = vx (dronePosition c)
  /\ vz (position (applyKeys dt c)) = vz (dronePosition c).
Proof.
  intros HW HS HQ HE. unfold applyKeys. rewrite HW, HS, HQ, HE.
  destruct (key c "KeyA"), (key c "KeyD"), (key c "Space"),
    (key c "ControlLeft" || key c "ControlRight"); split; reflexivity.
Qed.

(** C2, as amended.  After every call to [applyInput], for any dt and any
    key state, the drone's y is at least
    max(0, getTerrainHeight(x, z) + minAboveGround) at its final (x, z).
    It is at most heightMax whenever that floor does not exceed heightMax;
    when the floor exceeds heightMax the drone sits on the floor. *)
Theorem ground_clamp_floor_first (dt : Q) (c : DroneControls) :
  let p := dronePosition (applyInput dt c) in
  let floor := Qmax 0 (getTerrainHeight (vx p) (vz p) (Terrain.terrainNoise (terrain c))
                       + DroneVariables.minAboveGround) in
  floor <= vy p
  /\ (floor <= heightMax c -> vy p <= heightMax c)
  /\ (heightMax c < floor -> vy p == floor).
Proof.
  intros p floor. subst p floor. rewrite applyInput_position.
  cbn [vx vy vz].
  set (floor := Qmax 0 _).
  change DroneVariables.nullPoint with 0. fold floor.
  set (y := vy (position (applyKeys dt c))).
  split; [apply clamp_floor |].
  split.
  - intros Hle. apply clamp_range, Hle.
  - intros Hlt.
    destruct (Qmin_cases (heightMax c) y) as [[? ->] | [? ->]];
      [destruct (Qmax_cases floor (heightMax c)) as [[? ->] | [? ->]]
      | destruct (Qmax_cases floor y) as [[? ->] | [? ->]]]; lra.
Qed.

(** Runs of frames that push the drone to or past one border. *)
Lemma applyInputs_half (dts : list Q) (c : DroneControls) :
  half (applyInputs dts c) = half c.
Proof.
  revert c. induction dts as [| d dts IH]; intros c; [reflexivity |].
  unfold applyInputs in *. cbn [foldl]. rewrite IH. apply half_applyInput.
Qed.

(** C3, as amended.  half is worldSize / (borderFactor + borderDelimiter),
    with borderFactor 2 and borderDelimiter 0.125.  For a world of
    non-negative size, after every call to [applyInput] the drone's x and
    z lie in [-half, half]; a drone the keys moved to or past a border
    ends exactly on it; clamping the result again changes nothing; over
    any run of frames that each push the drone to or past the same x or z
    border, the drone is exactly on that border after the run, and after
    any run it is within the borders; for worldSize 8192 half is 3855.1
    to one decimal place, which is where a drone at x = 4000 ends after
    one update with no translation key held.  For a negative worldSize
    half is negative, the interval [-half, half] is empty, and every
    update puts x and z at -half, outside it. *)
Theorem world_border_clamp (dt : Q) (c : DroneControls) :
  let g := applyKeys dt c in
  let p := dronePosition (applyInput dt c) in
  (half c = worldSize c / (TerrainVariables.terrainBorderFactor
                           + TerrainVariables.terrainBorderDelimiter)
   /\ TerrainVariables.terrainBorderFactor == 2
   /\ TerrainVariables.terrainBorderDelimiter == 0.125)
  /\ (0 <= worldSize c ->
      (- half c <= vx p /\ vx p <= half c /\ - half c <= vz p /\ vz p <= half c)
      /\ (half c <= vx (position g) -> vx p == half c)
      /\ (vx (position g) <= - half c -> vx p == - half c)
      /\ (half c <= vz (position g) -> vz p == half c)
      /\ (vz (position g) <= - half c -> vz p == - half c)
      /\ (Qmax (- half c) (Qmin (half c) (vx p)) == vx p
          /\ Qmax (- half c) (Qmin (half c) (vz p)) == vz p
          /\ Qmax (- half c) (Qmin (half c) (half c)) == half c
          /\ Qmax (- half c) (Qmin (half c) (- half c)) == - half c)
      /\ (forall dts, dts <> [] -> pushedEast dts c ->
            vx (dronePosition (applyInputs dts c)) == half c)
      /\ (forall dts, dts <> [] -> pushedWest dts c ->
            vx (dronePosition (applyInputs dts c)) == - half c)
      /\ (forall dts, dts <> [] -> pushedSouth dts c ->
            vz (dronePosition (applyInputs dts c)) == half c)
      /\ (forall dts, dts <> [] -> pushedNorth dts c ->
            vz (dronePosition (applyInputs dts c)) == - half c)
      /\ (forall dts, dts <> [] ->
            let q := dronePosition (applyInputs dts c) in
            - half c <= vx q /\ vx q <= half c /\ - half c <= vz q /\ vz q <= half c)
      /\ (worldSize c = TerrainVariables.terrainSize ->
            3855.05 <= half c /\ half c < 3855.15
            /\ (key c "KeyW" = false -> key c "KeyS" = false ->
                key c "KeyQ" = false -> key c "KeyE" = false ->
                vx (dronePosition c) == 4000 -> vx p == half c)))
  /\ (worldSize c < 0 ->
      half c < 0 /\ vx p == - half c /\ vz p == - half c /\ ~ vx p <= half c).
Proof.
  intros g p.
  pose proof (half_value c) as Hv.
  split.
  { split; [reflexivity |]. split; reflexivity. }
  split.
  - intros Hw.
    pose proof (half_nonneg c Hw) as Hh.
    assert (Hrange : forall c' dt', half c' = half c ->
              let q := dronePosition (applyInput dt' c') in
              - half c <= vx q /\ vx q <= half c /\ - half c <= vz q /\ vz q <= half c).
    { intros c' dt' Hc' q. subst q. rewrite applyInput_position, Hc'. cbn [vx vz].
      pose proof (clamp_range (- half c) (half c) (vx (position (applyKeys dt' c'))) Hh).
      pose proof (clamp_range (- half c) (half c) (vz (position (applyKeys dt' c'))) Hh).
      tauto. }
    assert (Hnn : forall c', half c' = half c -> - half c' <= half c').
    { intros c' ->. exact Hh. }
    split; [apply (Hrange c dt eq_refl) |].
    subst p. rewrite applyInput_position. cbn [vx vz]. fold g.
    split; [intros Hg; apply clamp_above; assumption |].
    split; [intros Hg; apply clamp_below; assumption |].
    split; [intros Hg; apply clamp_above; assumption |].
    split; [intros Hg; apply clamp_below; assumption |].
    split.
    { pose proof (clamp_range (- half c) (half c) (vx (position g)) Hh) as [Hx1 Hx2].
      pose proof (clamp_range (- half c) (half c) (vz (position g)) Hh) as [Hz1 Hz2].
      set (x := Qmax (- half c) (Qmin (half c) (vx (position g)))) in *.
      set (z := Qmax (- half c) (Qmin (half c) (vz (position g)))) in *.
      repeat split.
      - destruct (Qmin_cases (half c) x) as [[? ->] | [? ->]];
          [destruct (Qmax_cases (- half c) (half c)) as [[? ->] | [? ->]]
          | destruct (Qmax_cases (- half c) x) as [[? ->] | [? ->]]]; lra.
      - destruct (Qmin_cases (half c) z) as [[? ->] | [? ->]];
          [destruct (Qmax_cases (- half c) (half c)) as [[? ->] | [? ->]]
          | destruct (Qmax_cases (- half c) z) as [[? ->] | [? ->]]]; lra.
      - apply clamp_above; lra.
      - apply clamp_below; lra. }
    assert (Hsize : forall dt' c', worldSize (applyInput dt' c') = worldSize c')
      by reflexivity.
    assert (Hruns : forall dts c', 0 <= worldSize c' -> dts <> [] ->
              (pushedEast dts c' -> vx (dronePosition (applyInputs dts c')) == half c')
              /\ (pushedWest dts c' -> vx (dronePosition (applyInputs dts c')) == - half c')
              /\ (pushedSouth dts c' -> vz (dronePosition (applyInputs dts c')) == half c')
              /\ (pushedNorth dts c' -> vz (dronePosition (applyInputs dts c')) == - half c')).
    { clear. intros dts. induction dts as [| d dts IH]; intros c' Hw' Hne; [congruence |].
      pose proof (half_nonneg c' Hw') as Hh'.
      unfold applyInputs. cbn [foldl].
      destruct dts as [| d' dts].
      - cbn [foldl pushedEast pushedWest pushedSouth pushedNorth].
        rewrite applyInput_position. cbn [vx vz].
        repeat split; intros [Hd _];
          first [apply clamp_above; assumption | apply clamp_below; assumption].
      - fold (applyInputs (d' :: dts) (applyInput d c')).
        destruct (IH (applyInput d c') Hw' ltac:(discriminate)) as (E & W & S & N).
        rewrite (half_applyInput d c') in E, W, S, N.
        repeat split; intros [_ Hrest]; auto. }
    split; [intros dts Hne; apply (Hruns dts c Hw Hne) |].
    split; [intros dts Hne; apply (Hruns dts c Hw Hne) |].
    split; [intros dts Hne; apply (Hruns dts c Hw Hne) |].
    split; [intros dts Hne; apply (Hruns dts c Hw Hne) |].
    split.
    { intros dts Hne.
      destruct (exists_last Hne) as (front & d & ->).
      unfold applyInputs. rewrite foldl_app. cbn [foldl].
      apply Hrange. apply (applyInputs_half front c). }
    intros Hs. rewrite Hs in Hv.
    unfold TerrainVariables.terrainSize in Hv.
    split; [lra |]. split; [lra |].
    intros HW HS HQ HE Hx. apply clamp_above; [assumption |].
    subst g. rewrite (proj1 (applyKeys_no_translation dt c HW HS HQ HE)). lra.
  - intros Hw. assert (Hh : half c < 0) by lra.
    split; [exact Hh |].
    subst p. rewrite applyInput_position. cbn [vx vz]. fold g.
    assert (Hc : forall v, Qmax (- half c) (Qmin (half c) v) == - half c).
    { intros v.
      destruct (Qmin_cases (half c) v) as [[? ->] | [? ->]];
        [destruct (Qmax_cases (- half c) (half c)) as [[? ->] | [? ->]]
        | destruct (Qmax_cases (- half c) v) as [[? ->] | [? ->]]]; lra. }
    split; [apply Hc |]. split; [apply Hc |].
    rewrite Hc. lra.
Qed.

End Flight.

(** C2, the claim as stated, fails for controls built with
    [{ heightMax: 2 }]: over ground of height 0 the floor is 4, and the
    drone is put at y = 4, above heightMax. *)
Lemma ground_clamp_exceeds_heightMax :
  ~ @DroneControls.groundClamped axisAligned 0.016 lowCeilingControls.
Proof.
  intros [_ Hy]. vm_compute in Hy. apply Hy. reflexivity.
Qed.

Lemma ground_clamp_floor_first_witness :
  let p := DroneControls.dronePosition
             (@DroneControls.applyInput axisAligned 0.016 appControls) in
  vy p <= DroneControls.heightMax appControls.
Proof.
  apply (proj1 (proj2 (@ground_clamp_floor_first axisAligned 0.016 appControls))).
  vm_compute. discriminate.
Defined.

(** C3, the claim as stated, fails for controls built with
    [{ worldSize: -17 }]: half is -8, and a drone at x = 0 is put at
    x = 8, outside [-half, half]. *)
Lemma border_clamp_leaves_interval :
  ~ @DroneControls.withinBorder axisAligned 0.016 negativeWorldControls.
Proof.
  intros (_ & Hx & _). vm_compute in Hx. apply Hx. reflexivity.
Qed.

Lemma world_border_clamp_witness :
  0 <= DroneControls.worldSize eastControls
  /\ vx (DroneControls.dronePosition
           (@DroneControls.applyInputs axisAligned [1; 1] eastControls))
     == DroneControls.half eastControls
  /\ 3855.05 <= DroneControls.half eastControls
  /\ DroneControls.half eastControls < 3855.15.
Proof.
  assert (Hw : 0 <= DroneControls.worldSize eastControls) by (vm_compute; discriminate).
  split; [exact Hw |].
  destruct (proj1 (proj2 (@world_border_clamp axisAligned 1 eastControls)) Hw)
    as (_ & _ & _ & _ & _ & _ & Heast & _ & _ & _ & _ & Hsize).
  split.
  - apply (Heast [1; 1]); [discriminate |].
    vm_compute. repeat split; discriminate.
  - destruct (Hsize eq_refl) as (H1 & H2 & _). split; assumption.
Defined.

(** ** Controls: defaulting of the constructor options *)

Section Defaults.

Import DroneControls.

Lemma orDefault_zero (z b : Q) : z == 0 -> orDefault (Some z) b = b.
Proof.
  intros Hz. unfold orDefault, orElse, truthy.
  rewrite (Qeq_eq_bool _ _ Hz). reflexivity.
Qed.

(** C10.  For every options object, a field moveSpeed, rotateSpeed,
    worldSize or heightMax whose value is 0 is ignored by the constructor:
    the field of the controls takes the default of Variables.js (for
    worldSize, the size of the terrain, which the Terrain constructor
    sets to that default).  With heightMax: 0 the controls get 2048. *)
Theorem zero_option_takes_default `{THREE.Color}
  (d : Drone.Drone) (n : ImprovedNoise) (geometry : list Vector3)
  (o : Options) (z : Q) :
  z == 0 ->
  let t := Terrain.new n geometry in
  (opt_moveSpeed o = Some z -> moveSpeed (new d t o) = DroneVariables.moveSpeed)
  /\ (opt_rotateSpeed o = Some z -> rotateSpeed (new d t o) = DroneVariables.rotateSpeed)
  /\ (opt_worldSize o = Some z -> worldSize (new d t o) = TerrainVariables.terrainSize)
  /\ (opt_heightMax o = Some z -> heightMax (new d t o) = DroneVariables.heightMax)
  /\ DroneVariables.heightMax = 2048.
Proof.
  intros Hz t. unfold new; cbn [moveSpeed rotateSpeed worldSize heightMax].
  repeat split; try (intros ->; apply orDefault_zero, Hz).
  intros ->. unfold orElse at 1, truthy. rewrite (Qeq_eq_bool _ _ Hz). reflexivity.
Qed.

Lemma zero_option_takes_default_witness :
  heightMax (new appDrone (@Terrain.new byteColor flatNoise [origin])
                 (mkOptions None None None (Some 0))) = 2048.
Proof.
  apply (proj1 (proj2 (proj2 (proj2
           (@zero_option_takes_default byteColor appDrone flatNoise [origin]
              (mkOptions None None None (Some 0)) 0 (Qeq_refl 0)))))).
  reflexivity.
Defined.

End Defaults.

(** ** Drone: the update loop *)

Section UpdateLoop.

Import Drone.

Variables speed dt : Q.

Lemma liveAfter_app (l1 l2 : list Projectile) :
  liveAfter speed dt (l1 ++ l2) = liveAfter speed dt l1 ++ liveAfter speed dt l2.
Proof. unfold liveAfter. rewrite map_app, filter_app. reflexivity. Qed.

Lemma sceneAfter_app (l1 l2 : list Projectile) (sc : Scene.Scene) :
  sceneAfter speed dt (l1 ++ l2) sc = sceneAfter speed dt l1 (sceneAfter speed dt l2 sc).
Proof. unfold sceneAfter. apply foldr_app. Qed.

(** The backward loop with in-place writes and [splice] visits the slots
    [pre] still has before it, leaves the slots [post] behind it alone,
    never reads a missing slot, and ends with the survivors of [pre] in
    their order. *)
Lemma projectileLoop_spec (pre post : list Projectile) (sc : Scene.Scene) :
  projectileLoop speed dt (length pre) (pre ++ post) sc
  = Some (liveAfter speed dt pre ++ post, sceneAfter speed dt pre sc).
Proof.
  revert post sc. induction pre as [| p pre IH] using rev_ind; intros post sc.
  - reflexivity.
  - rewrite length_app, Nat.add_comm. cbn [length Nat.add projectileLoop].
    rewrite <- app_assoc. cbn [app].
    rewrite list_lookup_middle by reflexivity.
    rewrite liveAfter_app, sceneAfter_app.
    unfold liveAfter at 2. cbn [map]. unfold sceneAfter at 2. cbn [foldr].
    destruct (decide (life (advance speed dt p) <= 0)) as [Hd | Hd].
    + rewrite filter_cons_False by (intros Hn; apply Hn, Hd).
      rewrite filter_nil, app_nil_r.
      replace (delete (length pre) (pre ++ p :: post)) with (pre ++ post).
      * apply IH.
      * rewrite delete_middle. reflexivity.
    + rewrite filter_cons_True by exact Hd.
      rewrite filter_nil, <- app_assoc. cbn [app].
      replace (<[length pre := advance speed dt p]> (pre ++ p :: post))
        with (pre ++ advance speed dt p :: post).
      * apply IH.
      * rewrite insert_app_r_alt by lia.
        rewrite Nat.sub_diag. reflexivity.
Qed.

End UpdateLoop.

Section DroneUpdate.

Import Drone.

(** [update] always returns, and what it returns is [update_spec]. *)
Lemma update_is_spec (dt : Q) (d : Drone) : update dt d = Some (update_spec dt d).
Proof.
  unfold update, update_spec.
  pose proof (projectileLoop_spec (projectileSpeed d) dt (projectiles d) [] (scene d)) as Hl.
  rewrite !app_nil_r in Hl. rewrite Hl. reflexivity.
Qed.

Lemma updates_is_spec (dts : list Q) (d : Drone) :
  updates dts d = Some (updates_spec dts d).
Proof.
  revert d. induction dts as [| dt dts IH]; intros d; cbn [updates updates_spec].
  - reflexivity.
  - rewrite update_is_spec. apply IH.
Qed.

Lemma cooldown_update_spec (dt : Q) (d : Drone) :
  cooldown (update_spec dt d)
  = if decide (0 < cooldown d) then Qmax 0 (cooldown d - dt) else cooldown d.
Proof. reflexivity. Qed.

Lemma elapsed_nonneg (dts : list Q) : Forall (fun dt => 0 <= dt) dts -> 0 <= elapsed dts.
Proof.
  induction 1 as [| x l Hx Hl IH]; [cbn; lra |].
  change (elapsed (x :: l)) with (x + elapsed l). lra.
Qed.

End DroneUpdate.

(** ** Drone: firing *)

Section Fire.

Import Drone.

Variable camera : Camera.

Lemma fire_cooling (mode : string) (d : Drone) :
  0 < cooldown d -> fire camera mode d = (undefined, d).
Proof. intros Hc. unfold fire. rewrite decide_True by exact Hc. reflexivity. Qed.

Lemma fire_other_mode (mode : string) (d : Drone) :
  mode <> "first"%string -> fire camera mode d = (undefined, d).
Proof.
  intros Hm. unfold fire. destruct (decide (0 < cooldown d)); [reflexivity |].
  rewrite bool_decide_eq_false_2 by exact Hm. reflexivity.
Qed.

Lemma fire_first (d : Drone) :
  cooldown d <= 0 ->
  fire camera "first" d
  = (undefined,
     mkDrone (Scene.add (Scene.alloc (scene d)).2 (Scene.nextId (scene d)))
             (group d) (rotors d) (projectiles d ++ [fired camera d])
             (projectileSpeed d) (projectileTTL d) (cooldownTime d) (cooldownTime d)).
Proof.
  intros Hc. unfold fire. rewrite decide_False by (intros Hp; lra). reflexivity.
Qed.

(** C9.  For every call to [fire] whose mode argument is not "first", no
    projectile is created and the drone (cooldown, live set, scene) is
    left as it was, whatever the cooldown, so also when it has expired. *)
Theorem fire_needs_first_person (mode : string) (d : Drone) :
  mode <> "first"%string ->
  fire camera mode d = (undefined, d)
  /\ projectiles (fire camera mode d).2 = projectiles d
  /\ cooldown (fire camera mode d).2 = cooldown d
  /\ scene (fire camera mode d).2 = scene d.
Proof.
  intros Hm. rewrite (fire_other_mode mode d Hm). repeat split.
Qed.

(** C4, as amended.  [fire] returns undefined on every path.  When the
    cooldown has expired (cooldown <= 0) and the mode is "first" it
    creates a projectile: the projectile is appended to the live set and
    added to the scene, and the cooldown is set to cooldownTime.  When the
    cooldown has not expired it leaves the drone unchanged.  The caller
    tells the two outcomes apart by the drone's state, whose live set has
    grown by one after a success, not by the value of the call. *)
Theorem fire_outcomes (mode : string) (d : Drone) :
  (fire camera mode d).1 = undefined
  /\ (cooldown d <= 0 -> mode = "first"%string ->
        projectiles (fire camera mode d).2 = projectiles d ++ [fired camera d]
        /\ Scene.children (scene (fire camera mode d).2)
           = Scene.children (scene d) ++ [Scene.nextId (scene d)]
        /\ cooldown (fire camera mode d).2 = cooldownTime d
        /\ length (projectiles (fire camera mode d).2) = S (length (projectiles d))
        /\ (fire camera mode d).2 <> d)
  /\ (0 < cooldown d -> (fire camera mode d).2 = d).
Proof.
  split.
  { unfold fire. destruct (decide (0 < cooldown d)); [reflexivity |].
    destruct (negb (bool_decide (mode = "first"%string))); reflexivity. }
  split.
  - intros Hc ->. rewrite (fire_first d Hc). cbn [snd projectiles scene cooldown].
    assert (Hlen : length (projectiles d ++ [fired camera d]) = S (length (projectiles d))).
    { rewrite length_app. cbn [length]. lia. }
    repeat split; try exact Hlen.
    intros Heq. apply (f_equal (fun e => length (projectiles e))) in Heq.
    cbn [projectiles] in Heq. lia.
  - intros Hc. rewrite (fire_cooling mode d Hc). reflexivity.
Qed.

End Fire.

(** C4, the claim as stated, fails on a freshly built drone in
    first-person mode: the cooldown is 0, a projectile is created, and
    the call returns undefined. *)
Lemma fire_returns_no_projectile :
  ~ Drone.fireReturnsProjectile appCamera "first" appDrone.
Proof.
  intros Hc. destruct Hc as [p Hp].
  - vm_compute. discriminate.
  - vm_compute in Hp. discriminate Hp.
Qed.

Lemma fire_outcomes_witness :
  length (Drone.projectiles (Drone.fire appCamera "first" appDrone).2) = 1%nat.
Proof.
  apply (proj1 (proj2 (proj2 (proj2
           (proj1 (proj2 (fire_outcomes appCamera "first" appDrone))
              ltac:(vm_compute; discriminate) eq_refl))))).
Defined.

Lemma fire_needs_first_person_witness :
  Drone.cooldown appDrone <= 0
  /\ Drone.fire appCamera "third" appDrone = (undefined, appDrone).
Proof.
  split; [vm_compute; discriminate |].
  apply (proj1 (fire_needs_first_person appCamera "third" appDrone
                  ltac:(discriminate))).
Defined.

(** ** Drone: cooldown window and projectile lifetime *)

Section Lifetime.

Import Drone.

Lemma elem_of_liveAfter (speed dt : Q) (ps : list Projectile) (q : Projectile) :
  q ∈ liveAfter speed dt ps <->
  ~ life q <= 0 /\ exists p, q = advance speed dt p /\ p ∈ ps.
Proof.
  unfold liveAfter. rewrite list_elem_of_filter, list_elem_of_In, in_map_iff.
  split.
  - intros [Hl (p & <- & Hp)]. split; [exact Hl |].
    exists p. split; [reflexivity | apply list_elem_of_In, Hp].
  - intros [Hl (p & -> & Hp)]. split; [exact Hl |].
    exists p. split; [reflexivity | apply list_elem_of_In, Hp].
Qed.

End Lifetime.

(** ** Drone in double precision: the update loop *)

Section RoundedLoop.

Context `{Rounding}.

Import Drone.

Variables speed dt : Q.

Lemma rounded_liveAfter_app (l1 l2 : list Projectile) :
  Rounded.liveAfter speed dt (l1 ++ l2)
  = Rounded.liveAfter speed dt l1 ++ Rounded.liveAfter speed dt l2.
Proof. unfold Rounded.liveAfter. rewrite map_app, filter_app. reflexivity. Qed.

Lemma rounded_sceneAfter_app (l1 l2 : list Projectile) (sc : Scene.Scene) :
  Rounded.sceneAfter speed dt (l1 ++ l2) sc
  = Rounded.sceneAfter speed dt l1 (Rounded.sceneAfter speed dt l2 sc).
Proof. unfold Rounded.sceneAfter. apply foldr_app. Qed.

Lemma rounded_projectileLoop_spec (pre post : list Projectile) (sc : Scene.Scene) :
  Rounded.projectileLoop speed dt (length pre) (pre ++ post) sc
  = Some (Rounded.liveAfter speed dt pre ++ post, Rounded.sceneAfter speed dt pre sc).
Proof.
  revert post sc. induction pre as [| p pre IH] using rev_ind; intros post sc.
  - reflexivity.
  - rewrite length_app, Nat.add_comm. cbn [length Nat.add Rounded.projectileLoop].
    rewrite <- app_assoc. cbn [app].
    rewrite list_lookup_middle by reflexivity.
    rewrite rounded_liveAfter_app, rounded_sceneAfter_app.
    unfold Rounded.liveAfter at 2. cbn [map]. unfold Rounded.sceneAfter at 2. cbn [foldr].
    destruct (decide (life (Rounded.advance speed dt p) <= 0)) as [Hd | Hd].
    + rewrite filter_cons_False by (intros Hn; apply Hn, Hd).
      rewrite filter_nil, app_nil_r.
      replace (delete (length pre) (pre ++ p :: post)) with (pre ++ post).
      * apply IH.
      * rewrite delete_middle. reflexivity.
    + rewrite filter_cons_True by exact Hd.
      rewrite filter_nil, <- app_assoc. cbn [app].
      replace (<[length pre := Rounded.advance speed dt p]> (pre ++ p :: post))
        with (pre ++ Rounded.advance speed dt p :: post).
      * apply IH.
      * rewrite insert_app_r_alt by lia.
        rewrite Nat.sub_diag. reflexivity.
Qed.

End RoundedLoop.

Section RoundedUpdate.

Context `{Rounding}.

Import Drone.

Lemma rounded_update_is_spec (dt : Q) (d : Drone) :
  Rounded.update dt d = Some (Rounded.update_spec dt d).
Proof.
  unfold Rounded.update, Rounded.update_spec.
  pose proof (rounded_projectileLoop_spec (projectileSpeed d) dt (projectiles d) []
                                          (scene d)) as Hl.
  rewrite !app_nil_r in Hl. rewrite Hl. reflexivity.
Qed.

Lemma rounded_updates_is_spec (dts : list Q) (d : Drone) :
  Rounded.updates dts d = Some (Rounded.updates_spec dts d).
Proof.
  revert d. induction dts as [| dt dts IH]; intros d;
    cbn [Rounded.updates Rounded.updates_spec].
  - reflexivity.
  - rewrite rounded_update_is_spec. apply IH.
Qed.

Lemma rounded_updates_cooldown (dts : list Q) (d : Drone) :
  cooldown (Rounded.updates_spec dts d) = foldl Rounded.timerStep (cooldown d) dts.
Proof.
  revert d. induction dts as [| dt dts IH]; intros d; [reflexivity |].
  cbn [Rounded.updates_spec foldl]. rewrite IH. reflexivity.
Qed.

Lemma rounded_elem_of_liveAfter (speed dt : Q) (ps : list Projectile) (q : Projectile) :
  q ∈ Rounded.liveAfter speed dt ps <->
  ~ life q <= 0 /\ exists p, q = Rounded.advance speed dt p /\ p ∈ ps.
Proof.
  unfold Rounded.liveAfter. rewrite list_elem_of_filter, list_elem_of_In, in_map_iff.
  split.
  - intros [Hl (p & <- & Hp)]. split; [exact Hl |].
    exists p. split; [reflexivity | apply list_elem_of_In, Hp].
  - intros [Hl (p & -> & Hp)]. split; [exact Hl |].
    exists p. split; [reflexivity | apply list_elem_of_In, Hp].
Qed.

(** An update creates no projectile: whoever is live afterwards was live
    before. *)
Lemma rounded_isLive_before (dts : list Q) (o : ObjId) (d : Drone) :
  isLive o (Rounded.updates_spec dts d) -> isLive o d.
Proof.
  revert d. induction dts as [| dt dts IH]; intros d; [auto |].
  cbn [Rounded.updates_spec]. intros Hl. apply IH in Hl.
  destruct Hl as (q & Hq & Hid). cbn [Rounded.update_spec projectiles] in Hq.
  apply rounded_elem_of_liveAfter in Hq. destruct Hq as [_ (p & -> & Hp)].
  exists p. split; [exact Hp | exact Hid].
Qed.

Lemma rounded_updates_spec_app (dts more : list Q) (d : Drone) :
  Rounded.updates_spec (dts ++ more) d
  = Rounded.updates_spec more (Rounded.updates_spec dts d).
Proof.
  revert d. induction dts as [| dt dts IH]; intros d; [reflexivity |].
  cbn [app Rounded.updates_spec]. apply IH.
Qed.

Lemma frames_nonneg (dts : list Q) : 0 <= Rounded.frames dts.
Proof. induction dts as [| dt dts IH]; cbn [Rounded.frames]; lra. Qed.

Variable u : Q.
Hypothesis HF : Faithful _ u.

Lemma rnd_zero : rnd 0 == 0.
Proof. destruct (rnd_near_pos _ u HF 0); lra. Qed.

Lemma rnd_positive (x : Q) : 0 < x -> 0 < rnd x.
Proof.
  intros Hx. destruct (rnd_near_pos _ u HF x) as [H1 _]; [lra |].
  pose proof (roundoff_small _ u HF). nra.
Qed.

Lemma rnd_nonpositive (x : Q) : x <= 0 -> rnd x <= 0.
Proof.
  intros Hx. destruct (rnd_near_neg _ u HF x Hx) as [_ H1].
  pose proof (roundoff_small _ u HF). nra.
Qed.

Lemma rnd_below (x c : Q) : x <= c -> rnd c == c -> rnd x <= c.
Proof. intros Hx Hc. pose proof (rnd_mono _ u HF x c Hx). lra. Qed.

(** The error of one subtraction whose operands lie in [[0, B]]. *)
Lemma rnd_sub_near (x B : Q) :
  0 <= x -> x <= B -> x - u * B <= rnd x /\ rnd x <= x + u * B.
Proof.
  intros H0 HB. destruct (rnd_near_pos _ u HF x H0) as [H1 H2].
  pose proof (roundoff_nonneg _ u HF). split; nra.
Qed.

(** One step of the cooldown timer. *)
Lemma timerStep_bounds (c dt C : Q) :
  0 <= dt -> 0 <= c -> c <= C -> rnd c == c ->
  let c' := Rounded.timerStep c dt in
  0 <= c' /\ c' <= c /\ rnd c' == c'
  /\ c - dt - u * C <= c'
  /\ (0 < c' -> c' <= c - dt + u * C)
  /\ (dt < c -> 0 < c')
  /\ (c <= dt -> c' <= 0).
Proof.
  intros Hdt Hc HC Hr c'. subst c'. unfold Rounded.timerStep.
  pose proof (roundoff_nonneg _ u HF) as Hu.
  assert (HuC : 0 <= u * C) by nra.
  destruct (decide (0 < c)) as [Hpos | Hnpos].
  - assert (Hxc : c - dt <= c) by lra.
    pose proof (rnd_below (c - dt) c Hxc Hr) as Hle.
    destruct (Qlt_le_dec 0 (c - dt)) as [Hx | Hx].
    + pose proof (rnd_positive _ Hx) as Hp.
      assert (Hx0 : 0 <= c - dt) by lra. assert (HxC : c - dt <= C) by lra.
      destruct (rnd_sub_near (c - dt) C Hx0 HxC) as [N1 N2].
      destruct (Qmax_cases 0 (rnd (c - dt))) as [[? ->] | [? ->]].
      * repeat split; try lra. apply (rnd_idem _ u HF).
      * exfalso; lra.
    + pose proof (rnd_nonpositive _ Hx) as Hn.
      destruct (Qmax_cases 0 (rnd (c - dt))) as [[? ->] | [? ->]].
      * repeat split; try lra. apply (rnd_idem _ u HF).
      * repeat split; try lra. apply rnd_zero.
  - repeat split; try lra.
Qed.

(** The cooldown timer over a run of frames. *)
Lemma timer_bounds (dts : list Q) (c C : Q) :
  Forall (fun dt => 0 <= dt) dts ->
  0 <= c -> c <= C -> rnd c == c ->
  let c' := foldl Rounded.timerStep c dts in
  0 <= c' /\ c' <= c
  /\ c - elapsed dts - Rounded.frames dts * (u * C) <= c'
  /\ (0 < c' -> c' <= c - elapsed dts + Rounded.frames dts * (u * C)).
Proof.
  intros Hdts. revert c. induction Hdts as [| dt dts Hdt Hdts IH]; intros c Hc HC Hr.
  - cbn [foldl Drone.elapsed foldr Rounded.frames]. repeat split; lra.
  - cbn [foldl Rounded.frames]. change (elapsed (dt :: dts)) with (dt + elapsed dts).
    destruct (timerStep_bounds c dt C Hdt Hc HC Hr) as (T0 & T1 & T2 & T3 & T4 & _).
    set (c1 := Rounded.timerStep c dt) in *.
    assert (Hc1 : c1 <= C) by lra.
    destruct (IH c1 T0 Hc1 T2) as (I0 & I1 & I2 & I3).
    set (c' := foldl Rounded.timerStep c1 dts) in *.
    set (k := Rounded.frames dts * (u * C)) in *.
    assert (Hk : (1 + Rounded.frames dts) * (u * C) == u * C + k) by (unfold k; ring).
    rewrite Hk.
    split; [lra |]. split; [lra |]. split; [lra |].
    intros Hpos. pose proof (I3 Hpos). assert (Hp1 : 0 < c1) by lra.
    pose proof (T4 Hp1). lra.
Qed.

End RoundedUpdate.

Section RoundedLifetime.

Context `{Rounding}.

Import Drone.

Variable u : Q.
Hypothesis HF : Faithful _ u.

(** A projectile with more life than the run lasts, rounding errors
    included, is still in the live set at the end. *)
Lemma rounded_survives (dts : list Q) (d : Drone) (p : Projectile) (B : Q) :
  Forall (fun dt => 0 <= dt) dts ->
  p ∈ projectiles d ->
  0 <= B -> life p <= B -> rnd (life p) == life p ->
  elapsed dts + Rounded.frames dts * (u * B) < life p ->
  exists q, q ∈ projectiles (Rounded.updates_spec dts d)
            /\ id q = id p
            /\ dir q = dir p
            /\ life p - elapsed dts - Rounded.frames dts * (u * B) <= life q
            /\ life q <= life p - elapsed dts + Rounded.frames dts * (u * B).
Proof.
  intros Hdts. revert d p.
  induction Hdts as [| dt dts Hdt Hdts IH]; intros d p Hin HB0 HB Hr Hlife.
  - exists p. cbn [Rounded.updates_spec elapsed foldr Rounded.frames].
    repeat split; try assumption; lra.
  - change (elapsed (dt :: dts)) with (dt + elapsed dts) in *.
    cbn [Rounded.frames] in *.
    pose proof (elapsed_nonneg dts Hdts) as He.
    pose proof (frames_nonneg dts) as Hn.
    pose proof (roundoff_nonneg _ u HF) as Hu.
    assert (HuB : 0 <= u * B) by nra.
    assert (Hk0 : 0 <= Rounded.frames dts * (u * B)) by nra.
    assert (Hx0 : 0 < life p - dt) by lra.
    assert (Hx1 : 0 <= life p - dt) by lra.
    assert (HxB : life p - dt <= B) by lra.
    assert (Hxp : life p - dt <= life p) by lra.
    pose proof (rnd_positive u HF _ Hx0) as Hpos.
    destruct (rnd_sub_near u HF _ B Hx1 HxB) as [N1 N2].
    pose proof (rnd_below u HF _ _ Hxp Hr) as Hle.
    cbn [Rounded.updates_spec].
    destruct (IH (Rounded.update_spec dt d) (Rounded.advance (projectileSpeed d) dt p))
      as (q & Hq & Hid & Hdir & Hl1 & Hl2).
    + cbn [Rounded.update_spec projectiles]. apply rounded_elem_of_liveAfter.
      split; [cbn [Rounded.advance life]; lra |].
      exists p. split; [reflexivity | exact Hin].
    + exact HB0.
    + cbn [Rounded.advance life]. lra.
    + cbn [Rounded.advance life]. apply (rnd_idem _ u HF).
    + cbn [Rounded.advance life]. lra.
    + exists q. split; [exact Hq |].
      cbn [Rounded.advance id dir life] in Hid, Hdir, Hl1, Hl2.
      split; [exact Hid |]. split; [exact Hdir |]. split; lra.
Qed.

(** When every projectile carrying id [o] has at most [L] of life left
    and the run lasts at least [L] plus the rounding errors, none carries
    [o] at the end. *)
Lemma rounded_expires (dts : list Q) (d : Drone) (o : ObjId) (L B : Q) :
  dts <> [] ->
  Forall (fun dt => 0 <= dt) dts ->
  (forall p, p ∈ projectiles d -> id p = o ->
     life p <= L /\ life p <= B /\ rnd (life p) == life p) ->
  L + Rounded.frames dts * (u * B) <= elapsed dts ->
  ~ isLive o (Rounded.updates_spec dts d).
Proof.
  intros Hne Hdts. revert d L Hne.
  induction Hdts as [| dt dts Hdt Hdts IH]; intros d L Hne Hall HL; [congruence |].
  change (elapsed (dt :: dts)) with (dt + elapsed dts) in HL.
  cbn [Rounded.frames] in HL.
  cbn [Rounded.updates_spec].
  assert (Hall' : forall q, q ∈ projectiles (Rounded.update_spec dt d) -> id q = o ->
            (life q <= L - dt + u * B /\ life q <= B /\ rnd (life q) == life q)
            /\ 0 < life q).
  { intros q Hq Hid. cbn [Rounded.update_spec projectiles] in Hq.
    apply rounded_elem_of_liveAfter in Hq. destruct Hq as [Hl (p & -> & Hp)].
    cbn [Rounded.advance id life] in *.
    destruct (Hall p Hp Hid) as (H1 & H2 & H3).
    assert (Hpos : 0 < rnd (life p - dt)) by lra.
    assert (Hx0 : 0 < life p - dt).
    { destruct (Qlt_le_dec 0 (life p - dt)) as [| Hx]; [assumption |].
      pose proof (rnd_nonpositive u HF _ Hx). exfalso; lra. }
    assert (Hx1 : 0 <= life p - dt) by lra.
    assert (HxB : life p - dt <= B) by lra.
    assert (Hxp : life p - dt <= life p) by lra.
    destruct (rnd_sub_near u HF _ B Hx1 HxB) as [N1 N2].
    pose proof (rnd_below u HF _ _ Hxp H3) as Hle.
    split; [| exact Hpos].
    split; [lra |]. split; [lra |]. apply (rnd_idem _ u HF). }
  destruct dts as [| dt' dts].
  - cbn [Rounded.updates_spec]. intros (q & Hq & Hid).
    destruct (Hall' q Hq Hid) as [(H1 & _) Hpos].
    cbn [elapsed foldr Rounded.frames] in HL. lra.
  - apply (IH (Rounded.update_spec dt d) (L - dt + u * B)); [discriminate | |].
    + intros q Hq Hid. apply (Hall' q Hq Hid).
    + lra.
Qed.

End RoundedLifetime.

(** C5, as amended.  The window is measured by the drone's own timer,
    kept in double precision.  After a successful [fire] in a drone whose
    cooldownTime is a non-negative double, the frames in between (each
    dt >= 0) always complete and leave the timer at the value the loop
    computes, starting from cooldownTime and replacing it by
    max(0, timer - dt), the difference rounded, while it is positive.  A
    second [fire] is rejected and changes nothing while that timer is
    positive, so that exactly one projectile has been created, and
    succeeds once it is <= 0.  With n frames and unit roundoff u (2^-53)
    the timer is positive when the dt sum to less than
    cooldownTime * (1 - n * u) and is <= 0 when they sum to
    cooldownTime * (1 + n * u) or more; with a single frame this is
    exactly dt < cooldownTime and dt >= cooldownTime.  Between the two
    bounds the rounded subtractions decide. *)
Theorem one_projectile_per_cooldown_window `{Rounding} (u : Q)
  (camera1 camera2 : Camera) (d : Drone.Drone) (dts : list Q) :
  Faithful _ u ->
  Drone.cooldown d <= 0 ->
  0 <= Drone.cooldownTime d ->
  rnd (Drone.cooldownTime d) == Drone.cooldownTime d ->
  Forall (fun dt => 0 <= dt) dts ->
  let d1 := (Drone.fire camera1 "first" d).2 in
  let slack := Rounded.frames dts * (u * Drone.cooldownTime d) in
  exists d2,
    Rounded.updates dts d1 = Some d2
    /\ length (Drone.projectiles d1) = S (length (Drone.projectiles d))
    /\ Drone.cooldown d2
       = foldl (fun c dt => if decide (0 < c) then Qmax 0 (rnd (c - dt)) else c)
               (Drone.cooldownTime d) dts
    /\ (0 < Drone.cooldown d2 -> Drone.fire camera2 "first" d2 = (undefined, d2))
    /\ (Drone.cooldown d2 <= 0 ->
          Drone.projectiles (Drone.fire camera2 "first" d2).2
          = Drone.projectiles d2 ++ [Drone.fired camera2 d2])
    /\ (Drone.elapsed dts + slack < Drone.cooldownTime d -> 0 < Drone.cooldown d2)
    /\ (Drone.cooldownTime d + slack <= Drone.elapsed dts -> Drone.cooldown d2 <= 0)
    /\ (forall dt, dts = [dt] ->
          (dt < Drone.cooldownTime d -> 0 < Drone.cooldown d2)
          /\ (Drone.cooldownTime d <= dt -> Drone.cooldown d2 <= 0)).
Proof.
  intros HF Hc HC Hr Hdts d1 slack. exists (Rounded.updates_spec dts d1).
  split; [apply rounded_updates_is_spec |].
  assert (Hc1 : Drone.cooldown d1 = Drone.cooldownTime d).
  { subst d1. rewrite (fire_first camera1 d Hc). reflexivity. }
  split.
  { subst d1. rewrite (fire_first camera1 d Hc). cbn [snd Drone.projectiles].
    rewrite length_app. cbn [length]. lia. }
  rewrite rounded_updates_cooldown, Hc1.
  split; [reflexivity |].
  change (foldl (fun c dt => if decide (0 < c) then Qmax 0 (rnd (c - dt)) else c)
                (Drone.cooldownTime d) dts)
    with (foldl Rounded.timerStep (Drone.cooldownTime d) dts).
  assert (Hcd : Drone.cooldown (Rounded.updates_spec dts d1)
                = foldl Rounded.timerStep (Drone.cooldownTime d) dts).
  { rewrite rounded_updates_cooldown, Hc1. reflexivity. }
  split.
  { intros Hpos. apply fire_cooling. rewrite Hcd. exact Hpos. }
  split.
  { intros Hexp.
    assert (He : Drone.cooldown (Rounded.updates_spec dts d1) <= 0)
      by (rewrite Hcd; exact Hexp).
    rewrite (fire_first camera2 _ He). reflexivity. }
  assert (HCC : Drone.cooldownTime d <= Drone.cooldownTime d) by lra.
  destruct (timer_bounds u HF dts _ _ Hdts HC HCC Hr) as (B0 & B1 & B2 & B3).
  fold slack in B2, B3.
  split; [intros Hlt; lra |].
  split.
  { intros Hge.
    destruct (Qlt_le_dec 0 (foldl Rounded.timerStep (Drone.cooldownTime d) dts))
      as [Hpos |]; [| assumption].
    pose proof (B3 Hpos). lra. }
  intros dt ->. cbn [foldl].
  inversion Hdts as [| ? ? Hdt _]; subst.
  destruct (timerStep_bounds u HF (Drone.cooldownTime d) dt _ Hdt HC HCC Hr)
    as (_ & _ & _ & _ & _ & T5 & T6).
  split; assumption.
Qed.

(** C5, the claim as stated, fails in double precision: with
    cooldownTime 0.3, frames of 0.01 and 0.29 sum to less than 0.3, yet
    0.3 - 0.01 rounds to 0.29 and the timer is 0 after the second frame,
    so the second [fire] creates a second projectile. *)
Lemma second_shot_inside_window :
  ~ @Rounded.oneShotPerWindow binary64 appCamera appCamera appDrone64
      [round64 0.01; round64 0.29].
Proof.
  intros (d2 & Hrun & Hrej & _).
  vm_compute in Hrun. injection Hrun as <-.
  assert (Hlt : Drone.elapsed [round64 0.01; round64 0.29] < Drone.cooldownTime appDrone64)
    by (vm_compute; reflexivity).
  specialize (Hrej Hlt). vm_compute in Hrej. discriminate Hrej.
Qed.

Lemma one_projectile_per_cooldown_window_witness :
  exists d2,
    @Rounded.updates binary64 [round64 0.1; round64 0.1]
      (Drone.fire appCamera "first" appDrone64).2 = Some d2
    /\ Drone.fire appCamera "first" d2 = (undefined, d2).
Proof.
  destruct (@one_projectile_per_cooldown_window binary64 (2 ^ (-53))
              appCamera appCamera appDrone64 [round64 0.1; round64 0.1])
    as (d2 & Hrun & _ & _ & Hrej & _ & Hin & _).
  - exact binary64_faithful.
  - vm_compute. discriminate.
  - vm_compute. discriminate.
  - vm_compute. reflexivity.
  - repeat constructor; vm_compute; discriminate.
  - exists d2. split; [exact Hrun |]. apply Hrej, Hin. vm_compute. reflexivity.
Defined.

(** C6, as amended.  Each [update] returns, having moved every
    projectile by direction * (projectileSpeed * dt), decreased its life
    by dt and dropped the ones whose life is then <= 0; every product,
    sum and difference is rounded to double precision.  A projectile
    fired with a positive time-to-live T (a double) is in the live set
    after n frames of non-negative dt summing to t when
    t < T * (1 - n * u), with a remaining life within n * u * T of T - t,
    and is not in the live set when t >= T * (1 + n * u), where u is the
    unit roundoff 2^-53; with a single frame it is live exactly when
    dt < T.  Between the two bounds the rounded subtractions decide.
    A projectile that has left the live set never returns. *)
Theorem projectile_lifetime `{Rounding} (u : Q)
  (camera : Camera) (d : Drone.Drone) (dts : list Q) :
  Faithful _ u ->
  Drone.wf d ->
  Drone.cooldown d <= 0 ->
  0 < Drone.projectileTTL d ->
  rnd (Drone.projectileTTL d) == Drone.projectileTTL d ->
  Forall (fun dt => 0 <= dt) dts ->
  let o := Scene.nextId (Drone.scene d) in
  let T := Drone.projectileTTL d in
  let t := Drone.elapsed dts in
  let slack := Rounded.frames dts * (u * T) in
  (forall dt e, exists e',
      Rounded.update dt e = Some e'
      /\ Drone.projectiles e'
         = filter (fun p => ~ Drone.life p <= 0)
             (map (fun p =>
                     let s := rnd (Drone.projectileSpeed e * dt) in
                     Drone.mkProjectile (Drone.id p)
                       (mkVector3
                          (rnd (vx (Drone.p_position p) + rnd (vx (Drone.dir p) * s)))
                          (rnd (vy (Drone.p_position p) + rnd (vy (Drone.dir p) * s)))
                          (rnd (vz (Drone.p_position p) + rnd (vz (Drone.dir p) * s))))
                       (Drone.dir p) (rnd (Drone.life p - dt)))
                  (Drone.projectiles e)))
  /\ Drone.isLive o (Drone.fire camera "first" d).2
  /\ exists dn,
       Rounded.updates dts (Drone.fire camera "first" d).2 = Some dn
       /\ (t + slack < T ->
             exists p, p ∈ Drone.projectiles dn /\ Drone.id p = o
                       /\ Drone.dir p = forward camera
                       /\ T - t - slack <= Drone.life p
                       /\ Drone.life p <= T - t + slack)
       /\ (T + slack <= t -> ~ Drone.isLive o dn)
       /\ (forall dt, dts = [dt] ->
             (dt < T ->
                exists p, p ∈ Drone.projectiles dn /\ Drone.id p = o
                  /\ Drone.life p = rnd (T - dt)
                  /\ Drone.p_position p
                     = let s := rnd (Drone.projectileSpeed d * dt) in
                       mkVector3
                         (rnd (vx (worldPosition camera) + rnd (vx (forward camera) * s)))
                         (rnd (vy (worldPosition camera) + rnd (vy (forward camera) * s)))
                         (rnd (vz (worldPosition camera) + rnd (vz (forward camera) * s))))
             /\ (T <= dt -> ~ Drone.isLive o dn))
       /\ (forall more dm,
             Rounded.updates more dn = Some dm -> Drone.isLive o dm -> Drone.isLive o dn).
Proof.
  intros HF Hwf Hc HT Hr Hdts o T t slack.
  split.
  { intros dt e. exists (Rounded.update_spec dt e).
    split; [apply rounded_update_is_spec | reflexivity]. }
  rewrite (fire_first camera d Hc). cbn [snd].
  set (d1 := Drone.mkDrone _ _ _ _ _ _ _ _).
  assert (Hin : Drone.fired camera d ∈ Drone.projectiles d1).
  { cbn [d1 Drone.projectiles]. apply elem_of_app. right. apply list_elem_of_singleton.
    reflexivity. }
  assert (Honly : forall p, p ∈ Drone.projectiles d1 -> Drone.id p = o ->
                            p = Drone.fired camera d).
  { intros p Hp Hid. cbn [d1 Drone.projectiles] in Hp.
    apply elem_of_app in Hp. destruct Hp as [Hp | Hp].
    - unfold Drone.wf in Hwf. rewrite Forall_forall in Hwf.
      specialize (Hwf p Hp). subst o. lia.
    - apply list_elem_of_singleton in Hp. exact Hp. }
  split; [exists (Drone.fired camera d); split; [exact Hin | reflexivity] |].
  exists (Rounded.updates_spec dts d1). split; [apply rounded_updates_is_spec |].
  assert (HT0 : 0 <= T) by (subst T; lra).
  assert (HTT : T <= T) by lra.
  split.
  { intros Hlt.
    destruct (rounded_survives u HF dts d1 (Drone.fired camera d) T Hdts Hin HT0 HTT Hr)
      as (q & Hq & Hid & Hdir & Hl1 & Hl2).
    { exact Hlt. }
    exists q. split; [exact Hq |]. split; [exact Hid |]. split; [exact Hdir |].
    split; assumption. }
  split.
  { intros Hge. apply (rounded_expires u HF dts d1 o T T).
    - intros ->. cbn [Drone.elapsed foldr Rounded.frames] in *. subst t slack T. lra.
    - exact Hdts.
    - intros p Hp Hid. rewrite (Honly p Hp Hid). cbn [Drone.fired Drone.life].
      split; [exact HTT |]. split; [exact HTT | exact Hr].
    - exact Hge. }
  split.
  { intros dt ->. cbn [Rounded.updates_spec]. split.
    - intros Hlt.
      exists (Rounded.advance (Drone.projectileSpeed d1) dt (Drone.fired camera d)).
      split; [| repeat split].
      cbn [Rounded.update_spec Drone.projectiles]. apply rounded_elem_of_liveAfter.
      split.
      + cbn [Rounded.advance Drone.life Drone.fired].
        assert (Hx : 0 < T - dt) by lra.
        pose proof (rnd_positive u HF _ Hx). fold T. lra.
      + exists (Drone.fired camera d). split; [reflexivity | exact Hin].
    - intros Hge (q & Hq & Hid).
      cbn [Rounded.update_spec Drone.projectiles] in Hq.
      apply rounded_elem_of_liveAfter in Hq. destruct Hq as [Hl (p & -> & Hp)].
      cbn [Rounded.advance Drone.id] in Hid.
      rewrite (Honly p Hp Hid) in Hl. cbn [Rounded.advance Drone.life Drone.fired] in Hl.
      assert (Hx : T - dt <= 0) by lra.
      pose proof (rnd_nonpositive u HF _ Hx). fold T in Hl. lra. }
  intros more dm Hrun Hlive.
  rewrite rounded_updates_is_spec in Hrun. injection Hrun as <-.
  apply (rounded_isLive_before more o _ Hlive).
Qed.

(** C6, the claim as stated, fails in double precision: with T = 4,
    frames of 0.1 and 3.9 sum to less than 4, yet 4 - 0.1 rounds to 3.9
    and the life is 0 after the second frame, so the projectile is gone
    before the cumulative time has reached T. *)
Lemma projectile_gone_before_ttl :
  ~ @Rounded.liveUntilTTL binary64 appCamera appDrone64 [round64 0.1; round64 3.9].
Proof.
  intros (dn & Hrun & Hlive & _).
  vm_compute in Hrun. injection Hrun as <-.
  assert (Hlt : Drone.elapsed [round64 0.1; round64 3.9] < Drone.projectileTTL appDrone64)
    by (vm_compute; reflexivity).
  destruct (Hlive Hlt) as (p & Hp & _). cbn [Drone.projectiles] in Hp.
  apply elem_of_nil in Hp. exact Hp.
Qed.

Lemma projectile_lifetime_witness :
  exists dn,
    @Rounded.updates binary64 [round64 1; round64 2; round64 0.5]
      (Drone.fire appCamera "first" appDrone64).2 = Some dn
    /\ exists p, p ∈ Drone.projectiles dn /\ Drone.id p = 21%nat
                 /\ 0.4999 <= Drone.life p /\ Drone.life p <= 0.5001.
Proof.
  destruct (@projectile_lifetime binary64 (2 ^ (-53)) appCamera appDrone64
              [round64 1; round64 2; round64 0.5])
    as (_ & _ & dn & Hrun & Hlive & _).
  - exact binary64_faithful.
  - constructor.
  - vm_compute. discriminate.
  - vm_compute. reflexivity.
  - vm_compute. reflexivity.
  - repeat constructor; vm_compute; discriminate.
  - exists dn. split; [exact Hrun |].
    destruct Hlive as (p & Hp & Hid & _ & Hl1 & Hl2); [vm_compute; reflexivity |].
    exists p. split; [exact Hp |]. split; [exact Hid |].
    split.
    + eapply Qle_trans; [| exact Hl1]. vm_compute. discriminate.
    + eapply Qle_trans; [exact Hl2 |]. vm_compute. discriminate.
Defined.

(** With the rounding [unrounded] the rounded update is the update of
    [Drone]. *)
Lemma rounded_exact_update (dt : Q) (d : Drone.Drone) :
  @Rounded.update unrounded dt d = Drone.update dt d.
Proof. reflexivity. Qed.

(** * Further properties of the code *)

(** ** Terrain: what the constructor leaves in the mesh *)

Lemma heightmap_pos_all `{THREE.Color} (n : ImprovedNoise) (geometry : list Vector3) :
  Terrain.pos (Terrain.mesh (Terrain.new n geometry)) = map (Terrain.place n) geometry.
Proof.
  apply list_eq. intros i. unfold Terrain.new; cbn [Terrain.mesh].
  rewrite heightmap_pos by lia.
  change (map (Terrain.place n) geometry) with (Terrain.place n <$> geometry).
  rewrite list_lookup_fmap.
  destruct (decide (i < length geometry)%nat) as [Hi | Hi]; [reflexivity |].
  rewrite (lookup_ge_None_2 geometry i) by lia. reflexivity.
Qed.

(** Entry [j] of the [i]-th block of an array filled three numbers at a
    time. *)
Lemma lookup_triples {A : Type} (f : A -> list Q) (l : list A) (i j : nat) (v : A) :
  (forall x, length (f x) = 3%nat) ->
  l !! i = Some v -> (j < 3)%nat ->
  concat (map f l) !! (3 * i + j)%nat = f v !! j.
Proof.
  intros Hf. revert i. induction l as [| x l IH]; intros i Hi Hj.
  - rewrite lookup_nil in Hi. discriminate.
  - cbn [map concat]. destruct i as [| i].
    + cbn in Hi. injection Hi as ->.
      rewrite lookup_app_l by (rewrite Hf; lia). f_equal.
    + cbn in Hi. rewrite lookup_app_r by (rewrite Hf; lia).
      rewrite Hf. replace (3 * S i + j - 3)%nat with (3 * i + j)%nat by lia.
      apply IH; assumption.
Qed.

Lemma length_triples {A : Type} (f : A -> list Q) (l : list A) :
  (forall x, length (f x) = 3%nat) ->
  length (concat (map f l)) = (3 * length l)%nat.
Proof.
  intros Hf. induction l as [| x l IH]; [reflexivity |].
  cbn [map concat length]. rewrite length_app, Hf, IH. lia.
Qed.

(** X1.  The heightmap loop keeps the vertex count and the x and z of
    every vertex.  It fills the colour array with three numbers per
    vertex, in vertex order: the r, g and b of the [THREE.Color] made
    from the colour of the height sampled at that vertex.  The metalness
    and roughness arrays get one entry per vertex, the surface parameters
    of that height. *)
Theorem terrain_attributes_per_vertex `{THREE.Color}
  (n : ImprovedNoise) (geometry : list Vector3) :
  let m := Terrain.mesh (Terrain.new n geometry) in
  length (Terrain.pos m) = length geometry
  /\ (forall i v, geometry !! i = Some v ->
        exists w, Terrain.pos m !! i = Some w /\ vx w = vx v /\ vz w = vz v)
  /\ length (Terrain.colors m) = (3 * length geometry)%nat
  /\ (forall i v, geometry !! i = Some v ->
        let c := Terrain.hex (getTerrainHeight (vx v) (vz v) n) in
        Terrain.colors m !! (3 * i)%nat = Some (THREE.r c)
        /\ Terrain.colors m !! (3 * i + 1)%nat = Some (THREE.g c)
        /\ Terrain.colors m !! (3 * i + 2)%nat = Some (THREE.b c))
  /\ Terrain.metalnessAttr m
     = map (fun v => fst (Terrain.surface (getTerrainHeight (vx v) (vz v) n))) geometry
  /\ Terrain.roughnessAttr m
     = map (fun v => snd (Terrain.surface (getTerrainHeight (vx v) (vz v) n))) geometry.
Proof.
  intros m. subst m. rewrite heightmap_pos_all.
  split; [apply length_map |].
  split.
  { intros i v Hv. exists (Terrain.place n v). split; [| split; reflexivity].
    change (map (Terrain.place n) geometry) with (Terrain.place n <$> geometry).
    rewrite list_lookup_fmap, Hv. reflexivity. }
  unfold Terrain.new; cbn [Terrain.mesh].
  pose proof (heightmap_attrs n geometry (length geometry) (le_n _)) as (Hc & Hm & Hr).
  rewrite firstn_all in Hc, Hm, Hr. rewrite Hc.
  assert (Hf : forall x, length (Terrain.vertexColor n x) = 3%nat) by reflexivity.
  split; [apply length_triples, Hf |].
  split; [| split; assumption].
  intros i v Hv.
  pose proof (lookup_triples _ _ i 0 v Hf Hv ltac:(lia)) as H0.
  pose proof (lookup_triples _ _ i 1 v Hf Hv ltac:(lia)) as H1.
  pose proof (lookup_triples _ _ i 2 v Hf Hv ltac:(lia)) as H2.
  rewrite Nat.add_0_r in H0.
  split; [exact H0 |]. split; [exact H1 | exact H2].
Qed.

(** X2.  No mesh vertex is written at a height strictly between -1 and 1,
    so none lies at the level of the water plane (y = 0.02): a vertex
    whose sampled height is 0 or more is at y >= 1, one whose sampled
    height is negative is at y <= -1. *)
Theorem mesh_avoids_water_level `{THREE.Color}
  (n : ImprovedNoise) (geometry : list Vector3) (i : nat) (y : Q) :
  Terrain.meshHeight (Terrain.new n geometry) i = Some y ->
  (y <= -1 \/ 1 <= y)
  /\ ~ y == Terrain.waterY (Terrain.new n geometry)
  /\ exists v, geometry !! i = Some v
       /\ (0 <= getTerrainHeight (vx v) (vz v) n -> 1 <= y)
       /\ (getTerrainHeight (vx v) (vz v) n < 0 -> y <= -1).
Proof.
  unfold Terrain.meshHeight. rewrite heightmap_pos_all.
  change (map (Terrain.place n) geometry) with (Terrain.place n <$> geometry).
  rewrite list_lookup_fmap.
  destruct (geometry !! i) as [v |] eqn:Hv; [| discriminate].
  cbn. intros [= <-].
  pose proof round32_one as H1. pose proof round32_minus_one as Hm1.
  set (h := getTerrainHeight (vx v) (vz v) n).
  assert (Hy : (h < 0 /\ round32 (Terrain.fixedHeight h) <= -1)
               \/ (0 <= h /\ 1 <= round32 (Terrain.fixedHeight h))).
  { destruct (fixedHeight_cases h) as [[? ->] | [(? & ? & ->) | [(? & ? & ->) | [? ->]]]].
    - left. split; [lra |]. rewrite <- Hm1. apply round32_mono. assumption.
    - left. split; [lra |]. lra.
    - right. split; [lra |]. lra.
    - right. split; [lra |]. rewrite <- H1. apply round32_mono. assumption. }
  unfold h in *.
  destruct Hy as [[? ?] | [? ?]].
  all: split; [lra |]; split; [lra |]; exists v; split; [reflexivity |]; split; intros; lra.
Qed.

Lemma mesh_avoids_water_level_witness :
  Terrain.meshHeight centreTerrain 0 = Some 1
  /\ ~ 1 == Terrain.waterY centreTerrain.
Proof.
  split; [reflexivity |].
  apply (proj1 (proj2 (@mesh_avoids_water_level byteColor flatNoise [origin] 0 1 eq_refl))).
Defined.

(** X3.  The height normalisation keeps the order of heights and is
    stable: normalising a normalised height changes nothing. *)
Theorem fixedHeight_monotone_stable (h1 h2 : Q) :
  (h1 <= h2 -> Terrain.fixedHeight h1 <= Terrain.fixedHeight h2)
  /\ Terrain.fixedHeight (Terrain.fixedHeight h1) == Terrain.fixedHeight h1.
Proof.
  split.
  - intros Hle.
    destruct (fixedHeight_cases h1) as [[? ->] | [(? & ? & ->) | [(? & ? & ->) | [? ->]]]];
      destruct (fixedHeight_cases h2) as [[? ->] | [(? & ? & ->) | [(? & ? & ->) | [? ->]]]];
      lra.
  - destruct (fixedHeight_cases h1) as [[? E] | [(? & ? & E) | [(? & ? & E) | [? E]]]];
      rewrite E;
      destruct (fixedHeight_cases (Terrain.fixedHeight h1))
        as [[? E'] | [(? & ? & E') | [(? & ? & E') | [? E']]]];
      rewrite E in *; rewrite ?E'; lra.
Qed.

Ltac unfold_thresholds :=
  unfold TerrainVariables.terrainHeight_m50, TerrainVariables.terrainHeight_m40,
    TerrainVariables.terrainHeight_m30, TerrainVariables.terrainHeight_m20,
    TerrainVariables.terrainHeight_m10, TerrainVariables.terrainHeight_0,
    TerrainVariables.terrainHeight_p10, TerrainVariables.terrainHeight_p20,
    TerrainVariables.terrainHeight_p30, TerrainVariables.terrainHeight_p40,
    TerrainVariables.terrainHeight_p50, TerrainVariables.terrainHeight_p60,
    TerrainVariables.terrainHeight_p70, TerrainVariables.terrainHeight_p80,
    TerrainVariables.terrainHeight_p90 in *.

(** X4.  Colour and surface agree: a vertex gets the water metalness and
    roughness exactly when its colour is one of the six colours of the
    thresholds -50 to 0, and a higher point never gets an earlier bucket
    than a lower one. *)
Theorem water_surface_iff_water_colour (h : Q) :
  (Terrain.surface h = (ColorVariables.waterMetalness, ColorVariables.waterRoughness)
   <-> In (Terrain.hex h)
          [ColorVariables.terrainColor_m50; ColorVariables.terrainColor_m40;
           ColorVariables.terrainColor_m30; ColorVariables.terrainColor_m20;
           ColorVariables.terrainColor_m10; ColorVariables.terrainColor_0])
  /\ forall h', h <= h' ->
       (ElevationClassifier.firstMatch ElevationClassifier.table h
        <= ElevationClassifier.firstMatch ElevationClassifier.table h')%nat.
Proof.
  split.
  - unfold Terrain.surface, Terrain.hex.
    destruct (decide (h <= 0)) as [Hw | Hw].
    + split; [intros _ | reflexivity].
      repeat (case_decide; [simpl; tauto |]).
      unfold_thresholds. lra.
    + split; [discriminate |].
      unfold_thresholds.
      repeat (case_decide; [try lra |]);
        simpl; intros Hin; repeat (destruct Hin as [Hin | Hin]; [discriminate Hin |]);
        destruct Hin.
  - intros h' Hle. unfold ElevationClassifier.firstMatch, ElevationClassifier.table.
    unfold_thresholds.
    repeat case_decide; first [lia | exfalso; lra].
Qed.

Lemma getTerrainHeight_range (n : ImprovedNoise) (x z : Q) :
  (forall a b c, -1 <= noise n a b c /\ noise n a b c <= 1) ->
  -130 <= getTerrainHeight x z n /\ getTerrainHeight x z n <= 130.
Proof.
  intros Hb. unfold getTerrainHeight.
  set (wx := x + _). set (wz := z + _).
  pose proof (Hb (wx * 0.002) (wz * 0.002) 0).
  pose proof (Hb (wx * 0.01) (wz * 0.01) 0).
  pose proof (Hb (wx * 0.05) (wz * 0.05) 0).
  lra.
Qed.

(** X5.  With a noise that stays in [-1, 1] the terrain height stays in
    [-130, 130], the sum of the octave amplitudes, whatever the domain
    warp does to the coordinates. *)
Theorem terrain_height_bounded (n : ImprovedNoise) (x z : Q) :
  (forall a b c, -1 <= noise n a b c /\ noise n a b c <= 1) ->
  -130 <= getTerrainHeight x z n /\ getTerrainHeight x z n <= 130.
Proof. apply getTerrainHeight_range. Qed.

Lemma terrain_height_bounded_witness :
  -130 <= getTerrainHeight 0 0 flatNoise /\ getTerrainHeight 0 0 flatNoise <= 130.
Proof.
  apply (terrain_height_bounded flatNoise 0 0).
  intros a b c. cbn. lra.
Defined.

(** X6.  Over a terrain whose noise stays in [-1, 1], controls whose
    heightMax is at least 134 (as the default 2048 is) keep the drone
    between 0 and heightMax after every [applyInput]. *)
Theorem drone_stays_under_ceiling `{Object3D}
  (dt : Q) (c : DroneControls.DroneControls) :
  (forall a b e, -1 <= noise (Terrain.terrainNoise (DroneControls.terrain c)) a b e
                 /\ noise (Terrain.terrainNoise (DroneControls.terrain c)) a b e <= 1) ->
  134 <= DroneControls.heightMax c ->
  let p := DroneControls.dronePosition (DroneControls.applyInput dt c) in
  0 <= vy p /\ vy p <= DroneControls.heightMax c.
Proof.
  intros Hb Hmax p. subst p. rewrite applyInput_position. cbn [vy].
  set (x := Qmax (- DroneControls.half c)
              (Qmin (DroneControls.half c) (vx (position (DroneControls.applyKeys dt c))))).
  set (z := Qmax (- DroneControls.half c)
              (Qmin (DroneControls.half c) (vz (position (DroneControls.applyKeys dt c))))).
  pose proof (getTerrainHeight_range _ x z Hb) as [Hlo Hhi].
  set (floor := Qmax DroneVariables.nullPoint _).
  assert (Hfloor : 0 <= floor /\ floor <= 134).
  { subst floor. unfold DroneVariables.nullPoint, DroneVariables.minAboveGround.
    destruct (Qmax_cases 0 (getTerrainHeight x z
                (Terrain.terrainNoise (DroneControls.terrain c)) + 4))
      as [[? ->] | [? ->]]; lra. }
  pose proof (clamp_range floor (DroneControls.heightMax c)
                (vy (position (DroneControls.applyKeys dt c))) ltac:(lra)).
  lra.
Qed.

Lemma drone_stays_under_ceiling_witness :
  vy (DroneControls.dronePosition
        (@DroneControls.applyInput axisAligned 0.016
           (DroneControls.keydown "Space" appControls))) <= 2048.
Proof.
  apply (@drone_stays_under_ceiling axisAligned 0.016
           (DroneControls.keydown "Space" appControls)).
  - intros a b e. cbn. lra.
  - vm_compute. discriminate.
Defined.

(** ** Controls: keys, idle frames, options *)

Section ControlsFacts.

Context `{Object3D}.

Import DroneControls.

(** X7.  The key state is a faithful record of the listeners: after
    keydown a code reads pressed, after keyup released, other codes keep
    their state, a code never seen reads released, and neither listener
    touches the drone or the settings. *)
Theorem key_state_round_trip (c : DroneControls) (code other : string) :
  key (keydown code c) code = true
  /\ key (keyup code c) code = false
  /\ key (keyup code (keydown code c)) code = false
  /\ (other <> code ->
        key (keydown code c) other = key c other
        /\ key (keyup code c) other = key c other)
  /\ (keys c !! other = None -> key c other = false)
  /\ (forall d t o, key (new d t o) other = false)
  /\ drone (keydown code c) = drone c /\ drone (keyup code c) = drone c
  /\ heightMax (keydown code c) = heightMax c /\ worldSize (keyup code c) = worldSize c.
Proof.
  unfold key, keydown, keyup, setKeys; cbn [keys drone heightMax worldSize].
  rewrite !lookup_insert_eq.
  repeat split; try reflexivity.
  - rewrite lookup_insert_ne by congruence. reflexivity.
  - rewrite lookup_insert_ne by congruence. reflexivity.
  - intros ->. reflexivity.
Qed.

Lemma clamp_inside (lo hi v : Q) : lo <= v -> v <= hi -> Qmax lo (Qmin hi v) == v.
Proof.
  intros Hlo Hhi.
  destruct (Qmin_cases hi v) as [[? ->] | [? ->]];
    [destruct (Qmax_cases lo hi) as [[? ->] | [? ->]]
    | destruct (Qmax_cases lo v) as [[? ->] | [? ->]]]; lra.
Qed.

Lemma clamp_strictly_inside (lo hi v : Q) : lo < v -> v < hi -> Qmax lo (Qmin hi v) = v.
Proof.
  intros Hlo Hhi.
  destruct (Qmin_cases hi v) as [[? E] | [? ->]]; [lra |].
  destruct (Qmax_cases lo v) as [[? ->] | [? E]]; [reflexivity | lra].
Qed.

Lemma applyKeys_idle (dt : Q) (c : DroneControls) :
  (forall code, key c code = false) -> applyKeys dt c = Drone.group (drone c).
Proof. intros Hk. unfold applyKeys. rewrite !Hk. reflexivity. Qed.

(** X8.  A frame with no key held does not move a drone that is strictly
    inside the world borders and within its altitude range: x, z and the
    heading are untouched and y keeps its value. *)
Theorem idle_frame_keeps_drone (dt : Q) (c : DroneControls) :
  (forall code, key c code = false) ->
  let g := Drone.group (drone c) in
  - half c < vx (position g) -> vx (position g) < half c ->
  - half c < vz (position g) -> vz (position g) < half c ->
  minHeight c g <= vy (position g) -> vy (position g) <= heightMax c ->
  let g' := Drone.group (drone (applyInput dt c)) in
  vx (position g') = vx (position g)
  /\ vz (position g') = vz (position g)
  /\ vy (position g') == vy (position g)
  /\ rotation_y g' = rotation_y g.
Proof.
  intros Hk g Hx1 Hx2 Hz1 Hz2 Hy1 Hy2 g'. subst g'.
  unfold applyInput. rewrite (applyKeys_idle dt c Hk). fold g.
  cbn [setDrone drone Drone.setGroup Drone.group setX setY setZ position
       rotation_y vx vy vz].
  rewrite !(clamp_strictly_inside _ _ _ Hx1 Hx2), !(clamp_strictly_inside _ _ _ Hz1 Hz2).
  repeat split.
  apply clamp_inside; [| exact Hy2].
  unfold minHeight, groundHeight in *. destruct g as [[x y z] r]. exact Hy1.
Qed.


End ControlsFacts.

Lemma idle_frame_keeps_drone_witness :
  vy (position (Drone.group (DroneControls.drone
        (@DroneControls.applyInput axisAligned 0.016 appControls)))) == 50.
Proof.
  apply (@idle_frame_keeps_drone axisAligned 0.016 appControls).
  - intros code. reflexivity.
  - vm_compute. reflexivity.
  - vm_compute. reflexivity.
  - vm_compute. reflexivity.
  - vm_compute. reflexivity.
  - vm_compute. discriminate.
  - vm_compute. discriminate.
Defined.


Section OptionsFacts.

Import DroneControls.

Lemma orDefault_nonzero (v b : Q) : ~ v == 0 -> orDefault (Some v) b = v.
Proof.
  intros Hv. unfold orDefault, orElse, truthy.
  destruct (Qeq_bool v 0) eqn:E; [apply Qeq_bool_eq in E; contradiction |].
  reflexivity.
Qed.

(** X10.  A non-zero option is taken as given, negative values included;
    a non-zero worldSize option wins over the size of the terrain; and
    with no options at all every setting is the default of
    Variables.js. *)
Theorem nonzero_option_is_taken `{THREE.Color}
  (d : Drone.Drone) (t : Terrain.Terrain) (o : Options) (v : Q) :
  ~ v == 0 ->
  (opt_moveSpeed o = Some v -> moveSpeed (new d t o) = v)
  /\ (opt_rotateSpeed o = Some v -> rotateSpeed (new d t o) = v)
  /\ (opt_worldSize o = Some v -> worldSize (new d t o) = v)
  /\ (opt_heightMax o = Some v -> heightMax (new d t o) = v)
  /\ (opt_worldSize o = None -> Terrain.size t = v -> worldSize (new d t o) = v)
  /\ (forall n geometry,
        let c := new d (Terrain.new n geometry) noOptions in
        moveSpeed c = DroneVariables.moveSpeed
        /\ rotateSpeed c = DroneVariables.rotateSpeed
        /\ worldSize c = TerrainVariables.terrainSize
        /\ heightMax c = DroneVariables.heightMax).
Proof.
  intros Hv. unfold new; cbn [moveSpeed rotateSpeed worldSize heightMax].
  repeat split; try (intros ->; apply orDefault_nonzero, Hv).
  - intros ->. unfold orElse at 1, truthy.
    destruct (Qeq_bool v 0) eqn:E; [apply Qeq_bool_eq in E; contradiction |].
    apply orDefault_nonzero, Hv.
  - intros -> ->. unfold orElse at 1. cbn [truthy]. apply orDefault_nonzero, Hv.
Qed.

Lemma nonzero_option_is_taken_witness :
  heightMax (new appDrone centreTerrain (mkOptions None None None (Some (-5)))) = -5.
Proof.
  apply (proj1 (proj2 (proj2 (proj2
           (@nonzero_option_is_taken byteColor appDrone centreTerrain
              (mkOptions None None None (Some (-5))) (-5)
              ltac:(vm_compute; discriminate)))))).
  reflexivity.
Defined.

End OptionsFacts.

(** ** One frame: controls and drone *)

Lemma applyKeys_setDrone `{Object3D} (dt : Q) (c : DroneControls.DroneControls)
  (d : Drone.Drone) :
  Drone.group d = Drone.group (DroneControls.drone c) ->
  DroneControls.applyKeys dt (DroneControls.setDrone c d) = DroneControls.applyKeys dt c.
Proof.
  intros Hg. unfold DroneControls.applyKeys, DroneControls.moveStep, DroneControls.key.
  cbn [DroneControls.setDrone DroneControls.drone DroneControls.keys
       DroneControls.moveSpeed DroneControls.rotateSpeed
       DroneControls.thrustMultiplier DroneControls.basicMultiplier].
  rewrite Hg. reflexivity.
Qed.

(** X11.  The two halves of a frame do not interfere: [animate] always
    completes; its drone has the group [applyInput] computes and the
    scene, rotors, projectiles and cooldown [Drone.update] computes from
    the drone as it was; the settings and keys are untouched; and running
    the drone's update before the controls gives the same state. *)
Theorem frame_halves_commute `{Object3D} (dt : Q) (c : DroneControls.DroneControls) :
  exists c',
    animate dt c = Some c'
    /\ Drone.group (DroneControls.drone c')
       = Drone.group (DroneControls.drone (DroneControls.applyInput dt c))
    /\ Drone.update dt (DroneControls.drone c)
       = Some (Drone.setGroup (DroneControls.drone c')
                              (Drone.group (DroneControls.drone c)))
    /\ DroneControls.keys c' = DroneControls.keys c
    /\ DroneControls.worldSize c' = DroneControls.worldSize c
    /\ DroneControls.heightMax c' = DroneControls.heightMax c
    /\ exists d, Drone.update dt (DroneControls.drone c) = Some d
         /\ DroneControls.applyInput dt (DroneControls.setDrone c d) = c'.
Proof.
  unfold animate. rewrite update_is_spec.
  eexists. split; [reflexivity |].
  split; [reflexivity |].
  split; [rewrite update_is_spec; reflexivity |].
  repeat (split; [reflexivity |]).
  exists (Drone.update_spec dt (DroneControls.drone c)).
  split; [apply update_is_spec |].
  unfold DroneControls.applyInput.
  rewrite applyKeys_setDrone by reflexivity.
  reflexivity.
Qed.

(** ** Drone: scene and live set *)

Section SceneFacts.

Import Drone DroneState.

Lemma removeFirst_subset (o x : ObjId) (l : list ObjId) :
  x ∈ Scene.removeFirst o l -> x ∈ l.
Proof.
  induction l as [| a l IH]; cbn [Scene.removeFirst]; [auto |].
  destruct (decide (a = o)); rewrite !elem_of_cons; intuition.
Qed.

Lemma removeFirst_NoDup (o : ObjId) (l : list ObjId) :
  NoDup l -> NoDup (Scene.removeFirst o l).
Proof.
  induction 1 as [| a l Ha Hl IH]; cbn [Scene.removeFirst]; [constructor |].
  destruct (decide (a = o)); [exact Hl |].
  constructor; [| exact IH]. intros Hin. apply Ha. eapply removeFirst_subset, Hin.
Qed.

Lemma elem_of_removeFirst (o x : ObjId) (l : list ObjId) :
  NoDup l -> x ∈ Scene.removeFirst o l <-> x ∈ l /\ x <> o.
Proof.
  induction 1 as [| a l Ha Hl IH]; cbn [Scene.removeFirst].
  - rewrite elem_of_nil. tauto.
  - destruct (decide (a = o)) as [-> | Hne]; rewrite !elem_of_cons.
    + split; [intros Hx; split; [auto | intros ->; contradiction] | intros [[-> | Hx] Hn]; [contradiction | exact Hx]].
    + rewrite IH. split; [intros [-> | [Hx Hn]]; auto | intros [[-> | Hx] Hn]; auto].
Qed.

Lemma removeFirst_comm (a b : ObjId) (l : list ObjId) :
  Scene.removeFirst a (Scene.removeFirst b l) = Scene.removeFirst b (Scene.removeFirst a l).
Proof.
  induction l as [| x l IH]; cbn [Scene.removeFirst]; [reflexivity |].
  destruct (decide (x = b)) as [Hb | Hb], (decide (x = a)) as [Ha | Ha];
    cbn [Scene.removeFirst];
    rewrite ?decide_True by assumption; rewrite ?decide_False by assumption;
    try reflexivity; congruence.
Qed.

Variables speed dt : Q.

Lemma sceneAfter_nextId (ps : list Projectile) (sc : Scene.Scene) :
  Scene.nextId (sceneAfter speed dt ps sc) = Scene.nextId sc.
Proof.
  induction ps as [| p ps IH]; cbn [sceneAfter foldr]; [reflexivity |].
  fold (sceneAfter speed dt ps sc). case_decide; [cbn; exact IH | exact IH].
Qed.

Lemma sceneAfter_NoDup (ps : list Projectile) (sc : Scene.Scene) :
  NoDup (Scene.children sc) -> NoDup (Scene.children (sceneAfter speed dt ps sc)).
Proof.
  intros Hsc. induction ps as [| p ps IH]; cbn [sceneAfter foldr]; [exact Hsc |].
  fold (sceneAfter speed dt ps sc). case_decide; [| exact IH].
  cbn. apply removeFirst_NoDup, IH.
Qed.

(** The children after the loop: those of before, less the meshes of the
    projectiles that expired. *)
Lemma elem_of_sceneAfter (ps : list Projectile) (sc : Scene.Scene) (x : ObjId) :
  NoDup (Scene.children sc) ->
  x ∈ Scene.children (sceneAfter speed dt ps sc)
  <-> x ∈ Scene.children sc
      /\ forall p, p ∈ ps -> life (advance speed dt p) <= 0 -> id p <> x.
Proof.
  intros Hsc. induction ps as [| p ps IH].
  - cbn. split; [intros Hx; split; [exact Hx | intros p Hp; inversion Hp] | tauto].
  - cbn [sceneAfter foldr]. fold (sceneAfter speed dt ps sc).
    case_decide as Hd.
    + cbn [Scene.remove Scene.children advance id].
      rewrite elem_of_removeFirst by apply sceneAfter_NoDup, Hsc.
      rewrite IH. split.
      * intros [[Hx Hall] Hne]. split; [exact Hx |].
        intros q Hq Hexp. apply elem_of_cons in Hq. destruct Hq as [-> | Hq].
        -- congruence.
        -- apply Hall; assumption.
      * intros [Hx Hall]. split; [split; [exact Hx |] |].
        -- intros q Hq. apply Hall. apply elem_of_cons. auto.
        -- intros ->. apply (Hall p); [apply elem_of_cons; auto | exact Hd | reflexivity].
    + rewrite IH. split.
      * intros [Hx Hall]. split; [exact Hx |].
        intros q Hq Hexp. apply elem_of_cons in Hq. destruct Hq as [-> | Hq].
        -- contradiction.
        -- apply Hall; assumption.
      * intros [Hx Hall]. split; [exact Hx |].
        intros q Hq. apply Hall. apply elem_of_cons. auto.
Qed.

Lemma ids_liveAfter_subset (ps : list Projectile) (o : ObjId) :
  o ∈ map id (liveAfter speed dt ps) ->
  exists p, p ∈ ps /\ id p = o /\ ~ life (advance speed dt p) <= 0.
Proof.
  rewrite list_elem_of_In, in_map_iff. intros (q & <- & Hq).
  apply list_elem_of_In, elem_of_liveAfter in Hq. destruct Hq as [Hl (p & -> & Hp)].
  exists p. split; [exact Hp |]. split; [reflexivity | exact Hl].
Qed.

Lemma ids_liveAfter_NoDup (ps : list Projectile) :
  NoDup (map id ps) -> NoDup (map id (liveAfter speed dt ps)).
Proof.
  induction ps as [| p ps IH]; [intros _; constructor |].
  cbn [map]. intros Hnd. apply NoDup_cons in Hnd. destruct Hnd as [Hp Hnd].
  unfold liveAfter. cbn [map].
  destruct (decide (~ life (advance speed dt p) <= 0)) as [Hd | Hd].
  - rewrite filter_cons_True by exact Hd. cbn [map]. apply NoDup_cons. split.
    + intros Hin. apply Hp.
      destruct (ids_liveAfter_subset ps _ Hin) as (q & Hq & Hid & _).
      cbn [advance id] in Hid. rewrite <- Hid.
      apply list_elem_of_In, in_map, list_elem_of_In, Hq.
    + apply IH, Hnd.
  - rewrite filter_cons_False by exact Hd. apply IH, Hnd.
Qed.

Lemma id_inj_of_NoDup (ps : list Projectile) (p q : Projectile) :
  NoDup (map id ps) -> p ∈ ps -> q ∈ ps -> id p = id q -> p = q.
Proof.
  induction ps as [| a ps IH]; [intros _ Hp; inversion Hp |].
  cbn [map]. intros Hnd Hp Hq Hid. apply NoDup_cons in Hnd. destruct Hnd as [Ha Hnd].
  apply elem_of_cons in Hp. apply elem_of_cons in Hq.
  destruct Hp as [-> | Hp], Hq as [-> | Hq].
  - reflexivity.
  - exfalso. apply Ha. rewrite Hid. apply list_elem_of_In, in_map, list_elem_of_In, Hq.
  - exfalso. apply Ha. rewrite <- Hid. apply list_elem_of_In, in_map, list_elem_of_In, Hp.
  - apply IH; assumption.
Qed.

End SceneFacts.

Section DroneInvariants.

Import Drone DroneState.

Lemma sceneOk_add_fresh (sc : Scene.Scene) :
  sceneOk sc -> sceneOk (Scene.add (Scene.alloc sc).2 (Scene.nextId sc)).
Proof.
  intros [Hnd Hlt]. unfold sceneOk, Scene.add, Scene.alloc; cbn.
  split.
  - apply NoDup_app. split; [exact Hnd |]. split; [| apply NoDup_singleton].
    intros x Hx Hn. apply list_elem_of_singleton in Hn. subst x.
    rewrite Forall_forall in Hlt. specialize (Hlt _ Hx). lia.
  - apply Forall_app. split.
    + eapply Forall_impl; [exact Hlt |]. cbn. intros; lia.
    + repeat constructor.
Qed.

Lemma consistent_fire (camera : Camera) (mode : string) (d : Drone) :
  consistent d -> consistent (fire camera mode d).2.
Proof.
  intros Hc.
  destruct (decide (0 < cooldown d)) as [Hcool | Hcool];
    [rewrite fire_cooling by exact Hcool; exact Hc |].
  destruct (decide (mode = "first"%string)) as [-> | Hm];
    [| rewrite fire_other_mode by exact Hm; exact Hc].
  rewrite fire_first by (apply Qnot_lt_le, Hcool). cbn [snd].
  destruct Hc as (Hsc & Hnd & Hin).
  unfold consistent, ids; cbn [scene projectiles].
  split; [apply sceneOk_add_fresh, Hsc |].
  rewrite map_app. cbn [map fired id].
  destruct Hsc as [Hsnd Hlt]. rewrite Forall_forall in Hlt, Hin.
  split.
  - apply NoDup_app. split; [exact Hnd |]. split; [| apply NoDup_singleton].
    intros x Hx Hn. apply list_elem_of_singleton in Hn. subst x.
    specialize (Hlt _ (Hin _ Hx)). lia.
  - apply Forall_app. split.
    + apply Forall_forall. intros x Hx. unfold Scene.add; cbn.
      apply elem_of_app. left. apply Hin, Hx.
    + repeat constructor. unfold Scene.add; cbn. apply elem_of_app. right.
      apply list_elem_of_singleton. reflexivity.
Qed.

Lemma consistent_update_spec (dt : Q) (d : Drone) :
  consistent d -> consistent (update_spec dt d).
Proof.
  intros ((Hsnd & Hlt) & Hnd & Hin).
  unfold consistent, sceneOk, ids, update_spec; cbn [scene projectiles].
  rewrite sceneAfter_nextId.
  split; [split |]; [apply sceneAfter_NoDup, Hsnd | | split].
  - rewrite Forall_forall in Hlt |- *. intros x Hx.
    apply elem_of_sceneAfter in Hx; [| exact Hsnd]. apply Hlt, Hx.
  - apply ids_liveAfter_NoDup, Hnd.
  - apply Forall_forall. intros o Ho.
    destruct (ids_liveAfter_subset _ _ _ _ Ho) as (p & Hp & <- & Hlive).
    apply elem_of_sceneAfter; [exact Hsnd |]. split.
    + rewrite Forall_forall in Hin. apply Hin.
      apply list_elem_of_In, in_map, list_elem_of_In, Hp.
    + intros q Hq Hexp Hid.
      assert (q = p) by (eapply id_inj_of_NoDup; eassumption).
      subst q. contradiction.
Qed.

Lemma consistent_new (sc : Scene.Scene) (x y z : Q) :
  sceneOk sc -> consistent (new sc x y z).
Proof.
  intros Hsc. pose proof (sceneOk_add_fresh sc Hsc) as [Hnd Hlt].
  unfold consistent, sceneOk, ids, new; cbn in *.
  split; [split; [exact Hnd |] | split; constructor].
  eapply Forall_impl; [exact Hlt |]. cbn. intros; lia.
Qed.

(** X12.  The drone keeps its scene and live set consistent: built on a
    scene of distinct objects it starts consistent, and [fire] (in any
    mode) and [update] keep it so: the scene's children are distinct
    and older than the id counter, the projectiles in flight are distinct
    objects, and each of them is a child of the scene. *)
Theorem drone_consistency_invariant
  (sc : Scene.Scene) (x y z : Q) (camera : Camera) (mode : string) (dt : Q) (d : Drone) :
  (sceneOk sc -> consistent (new sc x y z))
  /\ (consistent d -> consistent (fire camera mode d).2)
  /\ (consistent d -> exists d', update dt d = Some d' /\ consistent d')
  /\ (consistent d -> wf d).
Proof.
  split; [| split; [| split]].
  - apply consistent_new.
  - apply consistent_fire.
  - intros Hc. exists (update_spec dt d). split; [apply update_is_spec |].
    apply consistent_update_spec, Hc.
  - intros ((_ & Hlt) & _ & Hin). unfold wf. apply Forall_forall. intros p Hp.
    rewrite Forall_forall in Hlt, Hin. apply Hlt, Hin.
    apply list_elem_of_In, in_map, list_elem_of_In, Hp.
Qed.

(** X13.  Under that invariant an [update] takes out of the scene exactly
    the meshes of the projectiles whose life ran out: a child stays a
    child unless it is such a mesh, an expired projectile is neither in
    the live set nor in the scene afterwards, and a surviving one is in
    both. *)
Theorem expired_projectiles_leave_scene (dt : Q) (d : Drone) :
  consistent d ->
  exists d',
    update dt d = Some d'
    /\ (forall o, o ∈ Scene.children (scene d') <->
                  o ∈ Scene.children (scene d)
                  /\ ~ exists p, p ∈ projectiles d /\ id p = o /\ life p - dt <= 0)
    /\ (forall p, p ∈ projectiles d -> life p - dt <= 0 ->
                  (id p ∉ Scene.children (scene d')) /\ ~ isLive (id p) d')
    /\ (forall p, p ∈ projectiles d -> ~ life p - dt <= 0 ->
                  (id p ∈ Scene.children (scene d')) /\ isLive (id p) d').
Proof.
  intros Hc. pose proof Hc as ((Hsnd & Hlt) & Hnd & Hin).
  exists (update_spec dt d). split; [apply update_is_spec |].
  assert (Hchild : forall o, o ∈ Scene.children (scene (update_spec dt d)) <->
                  o ∈ Scene.children (scene d)
                  /\ ~ exists p, p ∈ projectiles d /\ id p = o /\ life p - dt <= 0).
  { intros o. unfold update_spec; cbn [scene].
    rewrite elem_of_sceneAfter by exact Hsnd. split.
    - intros [Ho Hall]. split; [exact Ho |]. intros (p & Hp & Hid & Hexp).
      apply (Hall p Hp Hexp Hid).
    - intros [Ho Hno]. split; [exact Ho |]. intros p Hp Hexp Hid.
      apply Hno. exists p. auto. }
  split; [exact Hchild |]. split.
  - intros p Hp Hexp. split.
    + intros Ho. apply Hchild in Ho. destruct Ho as [_ Hno]. apply Hno. exists p. auto.
    + intros (q & Hq & Hid). unfold update_spec in Hq; cbn [projectiles] in Hq.
      apply elem_of_liveAfter in Hq. destruct Hq as [Hl (p' & -> & Hp')].
      cbn [advance id life] in Hid, Hl.
      assert (p' = p) by (eapply id_inj_of_NoDup; eassumption).
      subst p'. contradiction.
  - intros p Hp Hlive. split.
    + apply Hchild. split.
      * rewrite Forall_forall in Hin. apply Hin.
        apply list_elem_of_In, in_map, list_elem_of_In, Hp.
      * intros (q & Hq & Hid & Hexp).
        assert (q = p) by (eapply id_inj_of_NoDup; eassumption).
        subst q. contradiction.
    + exists (advance (projectileSpeed d) dt p). split; [| reflexivity].
      unfold update_spec; cbn [projectiles]. apply elem_of_liveAfter.
      split; [exact Hlive |]. exists p. auto.
Qed.

(** X14.  The cooldown timer stays between 0 and cooldownTime: [fire]
    keeps it there, and so does [update] for dt >= 0, which also never
    raises it. *)
Theorem cooldown_stays_in_range (camera : Camera) (mode : string) (dt : Q) (d : Drone) :
  timerInRange d ->
  0 <= dt ->
  timerInRange (fire camera mode d).2
  /\ exists d', update dt d = Some d' /\ timerInRange d' /\ cooldown d' <= cooldown d.
Proof.
  intros [Hlo Hhi] Hdt. split.
  - destruct (decide (0 < cooldown d)) as [Hcool | Hcool];
      [rewrite fire_cooling by exact Hcool; split; assumption |].
    destruct (decide (mode = "first"%string)) as [-> | Hm];
      [| rewrite fire_other_mode by exact Hm; split; assumption].
    rewrite fire_first by (apply Qnot_lt_le, Hcool).
    unfold timerInRange; cbn [snd cooldown cooldownTime]. lra.
  - exists (update_spec dt d). split; [apply update_is_spec |].
    unfold timerInRange. rewrite cooldown_update_spec.
    unfold update_spec; cbn [cooldownTime].
    destruct (decide (0 < cooldown d)) as [Hcool | Hcool].
    + destruct (Qmax_cases 0 (cooldown d - dt)) as [[? ->] | [? ->]]; lra.
    + lra.
Qed.

End DroneInvariants.

Lemma cooldown_stays_in_range_witness :
  DroneState.timerInRange (Drone.fire appCamera "first" appDrone).2.
Proof.
  apply (cooldown_stays_in_range appCamera "first" 0.016 appDrone).
  - split; vm_compute; discriminate.
  - vm_compute. discriminate.
Defined.

Lemma expired_projectiles_leave_scene_witness :
  exists d',
    Drone.update 5 (Drone.fire appCamera "first" appDrone).2 = Some d'
    /\ 21%nat ∉ Scene.children (Drone.scene d').
Proof.
  destruct (expired_projectiles_leave_scene 5 (Drone.fire appCamera "first" appDrone).2)
    as (d' & Hup & _ & Hgone & _).
  - apply consistent_fire, consistent_new. split; constructor.
  - exists d'. split; [exact Hup |].
    apply (Hgone (Drone.fired appCamera appDrone)).
    + apply list_elem_of_In. left. reflexivity.
    + vm_compute. discriminate.
Defined.

(** ** Drone: projectiles leave oldest first *)

Section OldestFirst.

Import Drone DroneState.

Lemma ascending_liveAfter (speed dt : Q) (ps : list Projectile) :
  ascending ps -> ascending (liveAfter speed dt ps).
Proof.
  induction ps as [| p ps IH]; [intros _; exact I |].
  cbn [ascending]. intros [Hall Hasc]. unfold liveAfter. cbn [map].
  fold (liveAfter speed dt ps).
  destruct (decide (~ life (advance speed dt p) <= 0)) as [Hd | Hd].
  - rewrite filter_cons_True by exact Hd. fold (liveAfter speed dt ps).
    cbn [ascending]. split; [| apply IH, Hasc].
    apply Forall_forall. intros q Hq. apply elem_of_liveAfter in Hq.
    destruct Hq as [_ (q' & -> & Hq')]. rewrite Forall_forall in Hall.
    specialize (Hall q' Hq'). cbn [advance life]. lra.
  - rewrite filter_cons_False by exact Hd. apply IH, Hasc.
Qed.

Lemma ascending_snoc (ps : list Projectile) (x : Projectile) :
  ascending ps -> Forall (fun p => life p <= life x) ps -> ascending (ps ++ [x]).
Proof.
  induction ps as [| p ps IH]; cbn [app ascending]; [intros; split; [constructor | exact I] |].
  intros [Hall Hasc] Hle. apply Forall_cons in Hle. destruct Hle as [Hp Hle].
  split; [| apply IH; assumption].
  apply Forall_app. split; [exact Hall | repeat constructor; exact Hp].
Qed.

(** When the oldest projectile survives the frame, all do. *)
Lemma liveAfter_prefix (speed dt : Q) (ps : list Projectile) :
  ascending ps ->
  exists k, liveAfter speed dt ps = map (advance speed dt) (drop k ps)
            /\ Forall (fun p => life p - dt <= 0) (take k ps).
Proof.
  induction ps as [| p ps IH]; [intros _; exists 0%nat; split; [reflexivity | constructor] |].
  cbn [ascending]. intros [Hall Hasc]. unfold liveAfter. cbn [map].
  fold (liveAfter speed dt ps).
  destruct (decide (~ life (advance speed dt p) <= 0)) as [Hd | Hd].
  - exists 0%nat. cbn [drop take map]. split; [| constructor].
    rewrite filter_cons_True by exact Hd. f_equal.
    clear IH Hasc. induction ps as [| q ps IHq]; [reflexivity |].
    apply Forall_cons in Hall. destruct Hall as [Hq Hall]. cbn [map].
    rewrite filter_cons_True by (cbn [advance life] in *; lra).
    f_equal. apply IHq, Hall.
  - destruct (IH Hasc) as (k & Hk & Hex). exists (S k). cbn [drop take].
    rewrite filter_cons_False by exact Hd. split; [exact Hk |].
    constructor; [| exact Hex].
    cbn [advance life] in Hd. destruct (Qlt_le_dec 0 (life p - dt)); [| assumption].
    exfalso. apply Hd. lra.
Qed.

(** X16.  Projectiles leave in the order they were fired.  The live
    list stays sorted oldest first, by remaining life, none with more
    than projectileTTL: [fire] and every [update] with dt >= 0 keep it
    so, and an [update] removes a prefix of the list, the projectiles
    fired longest ago, and advances all the others. *)
Theorem projectiles_expire_oldest_first
  (camera : Camera) (mode : string) (dt : Q) (d : Drone) :
  oldestFirst d ->
  0 <= dt ->
  oldestFirst (fire camera mode d).2
  /\ exists d' k,
       update dt d = Some d'
       /\ oldestFirst d'
       /\ projectiles d' = map (advance (projectileSpeed d) dt) (drop k (projectiles d))
       /\ Forall (fun p => life p - dt <= 0) (take k (projectiles d)).
Proof.
  intros [Hasc Hle] Hdt. split.
  - destruct (decide (0 < cooldown d)) as [Hcool | Hcool];
      [rewrite fire_cooling by exact Hcool; split; assumption |].
    destruct (decide (mode = "first"%string)) as [-> | Hm];
      [| rewrite fire_other_mode by exact Hm; split; assumption].
    rewrite fire_first by (apply Qnot_lt_le, Hcool).
    unfold oldestFirst; cbn [snd projectiles projectileTTL]. split.
    + apply ascending_snoc; [exact Hasc |]. cbn [fired life]. exact Hle.
    + apply Forall_app. split; [exact Hle |]. repeat constructor. cbn [fired life]. lra.
  - destruct (liveAfter_prefix (projectileSpeed d) dt (projectiles d) Hasc) as (k & Hk & Hex).
    exists (update_spec dt d), k. split; [apply update_is_spec |].
    split; [| split; [exact Hk | exact Hex]].
    unfold oldestFirst, update_spec; cbn [projectiles projectileTTL]. split.
    + apply ascending_liveAfter, Hasc.
    + apply Forall_forall. intros q Hq. apply elem_of_liveAfter in Hq.
      destruct Hq as [_ (p & -> & Hp)]. rewrite Forall_forall in Hle.
      specialize (Hle p Hp). cbn [advance life]. lra.
Qed.

End OldestFirst.

Lemma projectiles_expire_oldest_first_witness :
  DroneState.oldestFirst (Drone.fire appCamera "first" appDrone).2.
Proof.
  apply (projectiles_expire_oldest_first appCamera "first" 0.016 appDrone).
  - split; [exact I | constructor].
  - vm_compute. discriminate.
Defined.

(** ** Key names *)

Ltac single_key_cases :=
  let a := fresh "a" in let Hx := fresh "Hx" in
  intros [| a [| ? ?]]; cbn [toLowerCase]; intros Hx; try discriminate Hx;
  destruct a as [[] [] [] [] [] [] [] []]; vm_compute in Hx;
  first [discriminate Hx | left; reflexivity | right; reflexivity].

Lemma toLowerCase_c (key : string) :
  toLowerCase key = "c"%string <-> key = "c"%string \/ key = "C"%string.
Proof.
  split; [revert key; single_key_cases | intros [-> | ->]; reflexivity].
Qed.

Lemma toLowerCase_f (key : string) :
  toLowerCase key = "f"%string <-> key = "f"%string \/ key = "F"%string.
Proof.
  split; [revert key; single_key_cases | intros [-> | ->]; reflexivity].
Qed.

(** ** DroneCamera *)

Section DroneCameraFacts.

Import DroneCamera.

Lemma toggleMode_first (c : DroneCamera) :
  mode c = "first"%string ->
  toggleMode c
  = mkDroneCamera "third" (distance c) (yaw c) (pitch c) (isDragging c) (isAiming c)
                  true (dispatched c ++ [false]) (logged c ++ ["third"%string]).
Proof.
  intros Hm. unfold toggleMode. rewrite (bool_decide_eq_true_2 _ Hm).
  rewrite bool_decide_eq_false_2 by discriminate. reflexivity.
Qed.

Lemma toggleMode_other (c : DroneCamera) :
  mode c <> "first"%string ->
  toggleMode c
  = mkDroneCamera "first" (distance c) 0 0 (isDragging c) (isAiming c)
                  false (dispatched c ++ [true]) (logged c ++ ["first"%string]).
Proof.
  intros Hm. unfold toggleMode. rewrite (bool_decide_eq_false_2 _ Hm).
  rewrite bool_decide_eq_true_2 by reflexivity. reflexivity.
Qed.

(** X17.  [toggleMode] alternates between the two views: the mode after a
    toggle is "first" or "third" and differs from the one before, the
    drone is hidden exactly in first person, the event dispatched carries
    whether the new mode is first person, entering first person zeroes
    yaw and pitch, and so a round trip from third person comes back to
    third person with the drone visible but with yaw and pitch 0, not
    the orbit angles it left with. *)
Theorem camera_mode_toggle (c : DroneCamera) :
  let c1 := toggleMode c in
  let c2 := toggleMode c1 in
  (mode c1 = "first"%string \/ mode c1 = "third"%string)
  /\ mode c1 <> mode c
  /\ groupVisible c1 = negb (bool_decide (mode c1 = "first"%string))
  /\ dispatched c1 = dispatched c ++ [bool_decide (mode c1 = "first"%string)]
  /\ (mode c1 = "first"%string -> yaw c1 = 0 /\ pitch c1 = 0)
  /\ (mode c1 = "third"%string -> yaw c1 = yaw c /\ pitch c1 = pitch c)
  /\ (mode c = "first"%string \/ mode c = "third"%string -> mode c2 = mode c)
  /\ (mode c = "third"%string ->
        groupVisible c2 = true /\ yaw c2 = 0 /\ pitch c2 = 0)
  /\ isDragging c1 = isDragging c /\ isAiming c1 = isAiming c
  /\ distance c1 = distance c.
Proof.
  intros c1 c2. subst c1 c2.
  destruct (decide (mode c = "first"%string)) as [Hm | Hm].
  - rewrite (toggleMode_first c Hm).
    rewrite toggleMode_other by (cbn [mode]; discriminate).
    cbn [mode yaw pitch groupVisible dispatched isDragging isAiming distance].
    rewrite bool_decide_eq_false_2 by discriminate.
    repeat split; intros; try congruence; try discriminate; auto;
      try (rewrite Hm; discriminate).
  - rewrite (toggleMode_other c Hm).
    rewrite toggleMode_first by reflexivity.
    cbn [mode yaw pitch groupVisible dispatched isDragging isAiming distance].
    rewrite bool_decide_eq_true_2 by reflexivity.
    repeat split; intros; try congruence; try discriminate; auto;
      try (match goal with Hor : _ \/ _ |- _ => destruct Hor; congruence end).
Qed.

(** X19.  The camera's key listener toggles the mode for the key C in
    either case and does nothing for any other key. *)
Theorem camera_toggle_key (key : string) (c : DroneCamera) :
  (key = "c"%string \/ key = "C"%string -> onKeyDown key c = toggleMode c)
  /\ (key <> "c"%string -> key <> "C"%string -> onKeyDown key c = c).
Proof.
  unfold onKeyDown. split.
  - intros Hk. rewrite bool_decide_eq_true_2 by (apply toLowerCase_c, Hk). reflexivity.
  - intros H1 H2. rewrite bool_decide_eq_false_2; [reflexivity |].
    rewrite toLowerCase_c. tauto.
Qed.

Context `{CameraMath}.

Lemma degToRad_mono (a b : Q) : 0 < PI -> a <= b -> degToRad a <= degToRad b.
Proof.
  intros Hpi Hab. unfold degToRad.
  assert (0 < PI / 180) by (apply Qlt_shift_div_l; lra).
  nra.
Qed.

Lemma third_person_pitch_range : 0 < PI -> - PI / 3 <= PI / 3.
Proof.
  intros Hpi.
  assert (E1 : PI / 3 == PI * (1 # 3)) by field.
  assert (E2 : - PI / 3 == - (PI * (1 # 3))) by field.
  lra.
Qed.

(** X18.  The mouse never turns the camera past its limits.  For a
    positive [Math.PI] and a canvas of positive height: dragging in third
    person turns yaw by -0.005 per pixel and leaves pitch within
    [-PI/3, PI/3]; aiming in first person sets pitch from the pointer's
    height alone, within [-67.5, 10] degrees, and leaves yaw within
    [-45, 45] degrees; a move with neither drag nor aim changes
    nothing. *)
Theorem camera_angles_stay_clamped (rect : DOMRect) (e : MouseEvent) (c : DroneCamera) :
  0 < PI ->
  0 < rect_height rect ->
  let c' := onMouseMove rect e c in
  mode c' = mode c
  /\ (mode c = "third"%string -> isDragging c = true ->
        - PI / 3 <= pitch c' /\ pitch c' <= PI / 3
        /\ yaw c' == yaw c - movementX e * 0.005)
  /\ (mode c = "first"%string -> isAiming c = true ->
        degToRad (-67.5) <= pitch c' /\ pitch c' <= degToRad 10
        /\ degToRad (-45) <= yaw c' /\ yaw c' <= degToRad 45
        /\ pitch c' = pitch (onMouseMove rect e (setAngles c (yaw c) 0)))
  /\ ((mode c <> "third"%string \/ isDragging c = false) ->
      (mode c <> "first"%string \/ isAiming c = false) -> c' = c).
Proof.
  intros Hpi Hh c'. subst c'. unfold onMouseMove.
  destruct (decide (mode c = "third"%string)) as [H3 | H3];
    destruct (decide (mode c = "first"%string)) as [H1 | H1];
    try (rewrite H3 in H1; discriminate H1).
  - (* third person *)
    rewrite (bool_decide_eq_true_2 _ H3).
    destruct (isDragging c) eqn:Hd; cbn [andb setAngles mode isAiming].
    + rewrite (bool_decide_eq_false_2 _ H1). cbn [andb mode yaw pitch].
      split; [reflexivity |]. split; [| split].
      * intros _ _.
        pose proof (clamp_range (- PI / 3) (PI / 3) (pitch c - movementY e * 0.005)
                      (third_person_pitch_range Hpi)) as [? ?].
        repeat split; try assumption; reflexivity.
      * intros; congruence.
      * intros [? | ?]; congruence.
    + rewrite (bool_decide_eq_false_2 _ H1). cbn [andb].
      split; [reflexivity |]. split; [intros; congruence |].
      split; [intros; congruence | reflexivity].
  - (* first person *)
    rewrite (bool_decide_eq_false_2 _ H3). cbn [andb].
    rewrite (bool_decide_eq_true_2 _ H1).
    destruct (isAiming c) eqn:Ha; cbn [andb setAngles mode yaw pitch isAiming].
    + split; [reflexivity |]. split; [intros; congruence |]. split.
      * intros _ _.
        pose proof (degToRad_mono (-67.5) 10 Hpi ltac:(lra)) as Hp.
        pose proof (degToRad_mono (-45) 45 Hpi ltac:(lra)) as Hy.
        pose proof (clamp_range _ _
          (degToRad (- ((clientY e - (rect_top rect + rect_height rect / 2))
                        / (rect_height rect / 2)) * 77.5)) Hp) as [? ?].
        pose proof (clamp_range _ _ (yaw c - movementX e * 0.0025) Hy) as [? ?].
        repeat split; try assumption.
        rewrite ?(bool_decide_eq_false_2 _ H3); cbn [andb];
          rewrite ?(bool_decide_eq_true_2 _ H1);
          cbn [setAngles isAiming mode yaw pitch andb]; rewrite ?Ha;
          cbn [andb setAngles pitch]; reflexivity.
      * intros _ [? | ?]; congruence.
    + split; [reflexivity |]. split; [intros; congruence |].
      split; [intros; congruence | reflexivity].
  - rewrite (bool_decide_eq_false_2 _ H3), (bool_decide_eq_false_2 _ H1). cbn [andb].
    split; [reflexivity |]. split; [intros; congruence |].
    split; [intros; congruence | reflexivity].
Qed.

End DroneCameraFacts.


Lemma camera_angles_stay_clamped_witness :
  let c := DroneCamera.onMouseDown (mkMouseEvent 0 0 0 0 0) DroneCamera.new in
  let e := mkMouseEvent 0 40 (-900) 400 300 in
  DroneCamera.pitch (@DroneCamera.onMouseMove sampleMath (mkDOMRect 0 600) e c)
  <= @PI sampleMath / 3.
Proof.
  apply (@camera_angles_stay_clamped sampleMath (mkDOMRect 0 600)
           (mkMouseEvent 0 40 (-900) 400 300)
           (DroneCamera.onMouseDown (mkMouseEvent 0 0 0 0 0) DroneCamera.new)).
  - vm_compute. reflexivity.
  - vm_compute. reflexivity.
  - reflexivity.
  - reflexivity.
Defined.

(** ** CameraControls *)

Section CameraControlsFacts.

Import CameraControls.

Context `{CameraMath}.

Lemma drag_fields (x y : Q) (rotate zoom : bool) (c : CameraControls) :
  lastX (drag x y rotate zoom c) = x
  /\ lastY (drag x y rotate zoom c) = y
  /\ isRotating (drag x y rotate zoom c) = isRotating c
  /\ isZooming (drag x y rotate zoom c) = isZooming c
  /\ target (drag x y rotate zoom c) = target c.
Proof. repeat split. Qed.

Lemma drag_spherical (x y : Q) (rotate zoom : bool) (c : CameraControls) :
  spherical (drag x y rotate zoom c)
  = let s := spherical c in
    let s := if rotate
             then mkSpherical (radius s)
                    (Qmax 0.1 (Qmin (PI - 0.1) (phi s - (y - lastY c) * 0.005)))
                    (theta s - (x - lastX c) * 0.005)
             else s in
    if zoom then mkSpherical (Qmax 2 (radius s + (y - lastY c) * 0.1)) (phi s) (theta s)
    else s.
Proof. reflexivity. Qed.

(** X20.  The orbit camera keeps its limits: after a wheel step, and
    after a move while zooming, the radius is at least 2; after a move
    while rotating, and for [Math.PI] at least 0.2, the polar angle is
    within [0.1, PI - 0.1]; a move with no button held changes only the
    remembered pointer position; and every handler that moves the camera
    leaves it at the spherical offset from the target. *)
Theorem orbit_camera_limits (e : MouseEvent) (deltaY : Q) (c : CameraControls) :
  0.2 <= PI ->
  2 <= radius (spherical (onWheel deltaY c))
  /\ phi (spherical (onWheel deltaY c)) = phi (spherical c)
  /\ theta (spherical (onWheel deltaY c)) = theta (spherical c)
  /\ (isZooming c = true -> 2 <= radius (spherical (onMouseMove e c)))
  /\ (isRotating c = true ->
        0.1 <= phi (spherical (onMouseMove e c))
        /\ phi (spherical (onMouseMove e c)) <= PI - 0.1)
  /\ (isRotating c = false -> isZooming c = false ->
        spherical (onMouseMove e c) = spherical c)
  /\ lastX (onMouseMove e c) = clientX e /\ lastY (onMouseMove e c) = clientY e
  /\ worldPosition (camera (onMouseMove e c))
     = vadd (setFromSpherical (spherical (onMouseMove e c))) (target c)
  /\ worldPosition (camera (onWheel deltaY c))
     = vadd (setFromSpherical (spherical (onWheel deltaY c))) (target c).
Proof.
  intros Hpi.
  split; [cbn; apply Q.le_max_l |].
  split; [reflexivity |]. split; [reflexivity |].
  unfold onMouseMove. rewrite drag_spherical.
  split.
  { intros ->. destruct (isRotating c); cbn; apply Q.le_max_l. }
  split.
  { intros ->. cbn zeta.
    assert (Hq : 0.1 <= PI - 0.1) by lra.
    pose proof (clamp_range 0.1 (PI - 0.1)
                  (phi (spherical c) - (clientY e - lastY c) * 0.005) Hq) as [? ?].
    destruct (isZooming c); cbn [phi]; split; assumption. }
  split; [intros -> ->; reflexivity |].
  repeat split.
Qed.





(** X22.  The touch handlers need a first touch: with an empty touch list
    [onTouchStart] and [onTouchMove] throw before changing anything, with
    a non-empty one they complete.  One finger starts a rotation and two
    start a zoom; a move rotates only with exactly one touch and zooms
    only with exactly two, keeping the radius at 2 or more; with three or
    more touches it changes nothing but the remembered position; and
    [onTouchEnd] ends both gestures. *)
Theorem touch_gestures (touches : list (Q * Q)) (c : CameraControls) :
  onTouchStart [] c = None /\ onTouchMove [] c = None
  /\ (touches <> [] ->
        exists c1 c2, onTouchStart touches c = Some c1 /\ onTouchMove touches c = Some c2
          /\ (length touches = 1%nat -> isRotating c1 = true /\ isZooming c1 = isZooming c)
          /\ (length touches = 2%nat -> isZooming c1 = true /\ isRotating c1 = isRotating c)
          /\ spherical c1 = spherical c
          /\ (length touches <> 1%nat -> theta (spherical c2) = theta (spherical c)
                                         /\ phi (spherical c2) = phi (spherical c))
          /\ (length touches <> 2%nat -> radius (spherical c2) = radius (spherical c))
          /\ (length touches = 2%nat -> isZooming c = true -> 2 <= radius (spherical c2)))
  /\ isRotating (onTouchEnd c) = false /\ isZooming (onTouchEnd c) = false
  /\ spherical (onTouchEnd c) = spherical c.
Proof.
  split; [reflexivity |]. split; [reflexivity |].
  split; [| repeat split].
  intros Hne. destruct touches as [| [x y] rest]; [congruence |].
  unfold onTouchStart, onTouchMove. cbn [lookup list_lookup].
  eexists. eexists. split; [reflexivity |]. split; [reflexivity |].
  cbn [isRotating isZooming spherical]. rewrite drag_spherical.
  split.
  { intros Hl. rewrite decide_True by exact Hl. rewrite decide_False by lia. auto. }
  split.
  { intros Hl. rewrite decide_True by exact Hl. rewrite decide_False by lia. auto. }
  split; [reflexivity |].
  split.
  { intros Hl. rewrite (bool_decide_eq_false_2 _ Hl), andb_false_r.
    destruct (isZooming c && _); split; reflexivity. }
  split.
  { intros Hl. rewrite (bool_decide_eq_false_2 _ Hl), andb_false_r.
    destruct (isRotating c && _); reflexivity. }
  intros Hl ->. rewrite (bool_decide_eq_true_2 _ Hl). cbn [andb].
  destruct (isRotating c && _); cbn; apply Q.le_max_l.
Qed.

End CameraControlsFacts.

Lemma orbit_camera_limits_witness :
  2 <= radius (CameraControls.spherical
                 (@CameraControls.onWheel sampleMath (-1000)
                    (@CameraControls.new sampleMath appCamera))).
Proof.
  apply (@orbit_camera_limits sampleMath (mkMouseEvent 0 0 0 0 0) (-1000)
           (@CameraControls.new sampleMath appCamera)).
  vm_compute. discriminate.
Defined.

(** ** Crosshair *)

Section CrosshairFacts.

Import Crosshair.

(** X23.  A crosshair built inside a container starts hidden, spans the
    container in pixels and has its four corner brackets; from then on no
    method throws, [setVisible] shows it exactly for a true argument and
    never resizes it, and [onResize] never changes whether it is shown.
    A crosshair built without a container has no overlay, and every
    method that touches the overlay throws. *)
Theorem crosshair_lifecycle (m m' : Container) (visible : bool) (c : Crosshair) :
  (exists el,
      new (Some m) = Some (mkCrosshair (Some el))
      /\ display el = "none"%string
      /\ width el = px (clientWidth m) /\ height el = px (clientHeight m)
      /\ length (corners el) = 4%nat)
  /\ (forall el, element c = Some el ->
        exists el1 el2,
          setVisible visible c = Some (mkCrosshair (Some el1))
          /\ display el1 = (if visible then "block" else "none")%string
          /\ width el1 = width el /\ height el1 = height el
          /\ onResize m' c = Some (mkCrosshair (Some el2))
          /\ display el2 = display el
          /\ width el2 = px (clientWidth m') /\ height el2 = px (clientHeight m'))
  /\ show c = setVisible true c /\ hide c = setVisible false c
  /\ new None = Some (mkCrosshair None)
  /\ (element c = None ->
        show c = None /\ hide c = None /\ setVisible visible c = None
        /\ onResize m' c = None).
Proof.
  split.
  { eexists. split; [reflexivity |]. repeat split. }
  split.
  { intros el Hel. unfold setVisible, setDisplay, onResize. rewrite Hel.
    eexists. eexists. repeat split. }
  repeat split; unfold show, hide, setVisible, setDisplay, onResize;
    match goal with Hn : element c = None |- _ => rewrite Hn end; reflexivity.
Qed.

End CrosshairFacts.

(** ** The application *)

Section AppFacts.

Abbreviation controlsFrame := animate (only parsing).

Import App.

Context `{Object3D} `{CameraMath}.

Lemma keydown_other_key (code key : string) (a : App) :
  toLowerCase key <> "c"%string ->
  DroneCamera.mode (droneCamera a) <> "first"%string ->
  droneCamera (keydown code key a) = droneCamera a
  /\ drone (keydown code key a) = drone a.
Proof.
  intros Hc Hm. unfold keydown, drone.
  unfold DroneCamera.onKeyDown. rewrite (bool_decide_eq_false_2 _ Hc).
  cbn [droneCamera controls DroneControls.setDrone DroneControls.drone].
  split; [reflexivity |].
  case_bool_decide; [| reflexivity].
  rewrite fire_other_mode by exact Hm. reflexivity.
Qed.

Lemma animate_drone (dt : Q) (a : App) :
  drone (animate dt a).1
  = Drone.update_spec dt
      (DroneControls.drone (DroneControls.applyInput dt (controls a)))
  /\ droneCamera (animate dt a).1 = droneCamera a
  /\ camera (animate dt a).1
     = DroneCamera.update (droneCamera a)
         (Some (Drone.group
                  (DroneControls.drone (DroneControls.applyInput dt (controls a)))))
         (camera a).
Proof.
  unfold animate, drone. rewrite update_is_spec.
  destruct (Crosshair.setVisible _ _); repeat split.
Qed.

(** The state in which no shot has been fired and none can be: third
    person, nothing in flight. *)
Let quiet (a : App) : Prop :=
  DroneCamera.mode (droneCamera a) = "third"%string
  /\ Drone.projectiles (drone a) = [].

Lemma handle_quiet (ev : Event) (a : App) :
  togglesCamera ev = false -> quiet a -> quiet (handle ev a).1.
Proof.
  intros Hev [Hm Hp]. unfold quiet.
  assert (Hnf : DroneCamera.mode (droneCamera a) <> "first"%string)
    by (rewrite Hm; discriminate).
  destruct ev as [code key | code key | e | e | rect e | m | dt]; cbn [handle fst].
  - cbn [togglesCamera] in Hev. apply bool_decide_eq_false in Hev.
    destruct (keydown_other_key code key a Hev Hnf) as [-> ->]. auto.
  - auto.
  - auto.
  - auto.
  - split; [| exact Hp]. cbn [droneCamera].
    unfold DroneCamera.onMouseMove. rewrite (bool_decide_eq_true_2 _ Hm).
    destruct (DroneCamera.isDragging (droneCamera a)); cbn [andb];
      cbn [DroneCamera.setAngles DroneCamera.mode];
      rewrite (bool_decide_eq_false_2 _ Hnf); cbn [andb DroneCamera.mode]; exact Hm.
  - destruct (Crosshair.onResize m (crosshair a)); cbn [fst]; auto.
  - destruct (animate_drone dt a) as (-> & -> & _). split; [exact Hm |].
    unfold Drone.update_spec; cbn [Drone.projectiles].
    change (Drone.projectiles
              (DroneControls.drone (DroneControls.applyInput dt (controls a))))
      with (Drone.projectiles (drone a)).
    rewrite Hp. reflexivity.
Qed.

(** X24.  No shot is possible before the camera has been switched to
    first person: from the start of the application, over any run of
    events that contains no C key press (frames, F presses, other keys,
    mouse input, resizes), the camera stays in third person and the live
    set stays empty. *)
Theorem no_shot_before_first_person `{THREE.Color}
  (sc : Scene.Scene) (n : ImprovedNoise) (geometry : list Vector3)
  (container : option Crosshair.Container) (a : App) (evs : list Event) :
  init sc n geometry container = Some a ->
  Forall (fun ev => togglesCamera ev = false) evs ->
  DroneCamera.mode (droneCamera (run evs a)) = "third"%string
  /\ Drone.projectiles (drone (run evs a)) = [].
Proof.
  intros Hinit Hevs.
  assert (Hq : quiet a).
  { unfold init in Hinit. destruct (Crosshair.new container); [| discriminate].
    injection Hinit as <-. split; reflexivity. }
  clear Hinit. revert a Hq.
  induction Hevs as [| ev evs Hev Hevs IH]; intros a Hq; [exact Hq |].
  unfold run in *. cbn [foldl]. apply IH. apply handle_quiet; assumption.
Qed.

(** X25.  In first person a shot starts at the drone.  After a frame in
    first-person mode the camera sits at the drone's position; an F key
    press then, with the cooldown expired, adds one projectile to the
    live set, placed at the drone's position and heading the way the
    camera looks. *)
Theorem first_person_shot_starts_at_drone (dt : Q) (code key : string) (a : App) :
  DroneCamera.mode (droneCamera a) = "first"%string ->
  key = "f"%string \/ key = "F"%string ->
  let a1 := (animate dt a).1 in
  Drone.cooldown (drone a1) <= 0 ->
  let a2 := keydown code key a1 in
  worldPosition (camera a1) = DroneControls.dronePosition (controls a1)
  /\ exists p,
       Drone.projectiles (drone a2) = Drone.projectiles (drone a1) ++ [p]
       /\ Drone.p_position p = DroneControls.dronePosition (controls a1)
       /\ Drone.dir p = forward (camera a1)
       /\ Drone.life p = Drone.projectileTTL (drone a1).
Proof.
  intros Hm Hk a1 Hc a2.
  destruct (animate_drone dt a) as (Hd & Hdc & Hcam). fold a1 in Hd, Hdc, Hcam.
  assert (Hpos : worldPosition (camera a1) = DroneControls.dronePosition (controls a1)).
  { rewrite Hcam. unfold DroneCamera.update. rewrite (bool_decide_eq_true_2 _ Hm).
    cbn [worldPosition]. unfold DroneControls.dronePosition.
    fold (drone a1). rewrite Hd. reflexivity. }
  split; [exact Hpos |].
  exists (Drone.fired (camera a1) (drone a1)).
  subst a2. unfold keydown, drone at 1.
  cbn [controls DroneControls.setDrone DroneControls.drone].
  rewrite bool_decide_eq_true_2 by (apply toLowerCase_f, Hk).
  unfold DroneCamera.onKeyDown.
  rewrite bool_decide_eq_false_2
    by (rewrite toLowerCase_c; destruct Hk as [-> | ->]; intros [? | ?]; discriminate).
  rewrite Hdc, Hm.
  change (DroneControls.drone (DroneControls.keydown code (controls a1)))
    with (drone a1).
  rewrite fire_first by exact Hc. cbn [snd Drone.projectiles].
  split; [reflexivity |]. split; [exact Hpos |]. split; reflexivity.
Qed.

(** X26.  A shot uses the camera as the last frame left it.  Switching to
    first person with C and pressing F before the next frame fires, with
    the cooldown expired, from where the third-person camera stood and
    along its view, not from the drone. *)
Theorem toggle_then_shoot_uses_last_camera (code1 code2 : string) (a : App) :
  DroneCamera.mode (droneCamera a) <> "first"%string ->
  Drone.cooldown (drone a) <= 0 ->
  let a2 := run [KeyDown code1 "c"; KeyDown code2 "f"] a in
  Drone.projectiles (drone a2)
  = Drone.projectiles (drone a) ++ [Drone.fired (camera a) (drone a)]
  /\ DroneCamera.mode (droneCamera a2) = "first"%string
  /\ camera a2 = camera a.
Proof.
  intros Hm Hc a2. subst a2. unfold run. cbn [foldl handle fst].
  unfold keydown at 1, drone at 1.
  cbn [controls DroneControls.setDrone DroneControls.drone droneCamera camera].
  unfold keydown, DroneCamera.onKeyDown.
  cbn [toLowerCase lowerAscii].
  cbn [controls DroneControls.setDrone DroneControls.drone droneCamera camera].
  rewrite !(bool_decide_eq_true_2 ("c" = "c")%string eq_refl).
  rewrite !(bool_decide_eq_true_2 ("f" = "f")%string eq_refl).
  rewrite !bool_decide_eq_false_2 by discriminate.
  rewrite (toggleMode_other _ Hm). cbn [DroneCamera.mode].
  change (DroneControls.drone
            (DroneControls.keydown code2 (DroneControls.keydown code1 (controls a))))
    with (drone a).
  rewrite fire_first by exact Hc. repeat split.
Qed.

(** X27.  The crosshair follows the camera mode, and its absence does not
    stop the simulation.  A frame of an application whose crosshair has
    its overlay completes and leaves the overlay shown exactly in
    first-person mode.  Without the overlay every frame ends in a
    TypeError, after the controls, the drone and the camera have been
    advanced exactly as in a complete frame. *)
Theorem crosshair_follows_mode (dt : Q) (a : App) :
  (forall el, Crosshair.element (crosshair a) = Some el ->
     (animate dt a).2 = normal
     /\ exists el', Crosshair.element (crosshair (animate dt a).1) = Some el'
          /\ (Crosshair.display el' = "block"%string
              <-> DroneCamera.mode (droneCamera a) = "first"%string))
  /\ (Crosshair.element (crosshair a) = None ->
        (animate dt a).2 = typeError
        /\ crosshair (animate dt a).1 = crosshair a)
  /\ controlsFrame dt (controls a) = Some (controls (animate dt a).1).
Proof.
  unfold animate, controlsFrame. rewrite update_is_spec.
  unfold Crosshair.setVisible, Crosshair.setDisplay.
  split; [| split].
  - intros el ->. cbn [fst snd crosshair Crosshair.element]. split; [reflexivity |].
    eexists. split; [reflexivity |]. cbn [Crosshair.display].
    case_bool_decide as Hm; split; intros Hx; try assumption; try reflexivity;
      try discriminate Hx; contradiction.
  - intros ->. split; reflexivity.
  - destruct (Crosshair.element (crosshair a)); reflexivity.
Qed.

End AppFacts.

Lemma no_shot_before_first_person_witness :
  exists a,
    @App.init byteColor emptyScene flatNoise [origin] None = Some a
    /\ Drone.projectiles
         (App.drone (@App.run axisAligned sampleMath
                       [App.Frame 0.016; App.KeyDown "KeyF" "f"; App.Frame 0.016] a))
       = [].
Proof.
  eexists. split; [reflexivity |].
  apply (@no_shot_before_first_person axisAligned sampleMath byteColor
           emptyScene flatNoise [origin] None _
           [App.Frame 0.016; App.KeyDown "KeyF" "f"; App.Frame 0.016] eq_refl).
  repeat constructor.
Defined.

Lemma first_person_shot_starts_at_drone_witness :
  let a := App.keydown "KeyC" "c" sampleApp in
  worldPosition (App.camera (@App.animate axisAligned sampleMath 0.016 a).1)
  = DroneControls.dronePosition
      (App.controls (@App.animate axisAligned sampleMath 0.016 a).1).
Proof.
  apply (@first_person_shot_starts_at_drone axisAligned sampleMath 0.016 "KeyF" "f"
           (App.keydown "KeyC" "c" sampleApp)).
  - reflexivity.
  - left. reflexivity.
  - vm_compute. discriminate.
Defined.

Lemma toggle_then_shoot_uses_last_camera_witness :
  Drone.p_position <$>
    last (Drone.projectiles
            (App.drone (@App.run axisAligned sampleMath
                          [App.KeyDown "KeyC" "c"; App.KeyDown "KeyF" "f"] sampleApp)))
  = Some (mkVector3 0 10000 0).
Proof.
  rewrite (proj1 (@toggle_then_shoot_uses_last_camera axisAligned sampleMath
                    "KeyC" "KeyF" sampleApp
                    ltac:(discriminate) ltac:(vm_compute; discriminate))).
  reflexivity.
Defined.

(** ** DroneCamera: the chase camera *)

Section ChaseCamera.

Context `{CameraMath}.



End ChaseCamera.

